(** * htmldoom: the node hierarchy of [htmldoom/elements.py]

    A shallow embedding of the rendering core: the escaper, the attribute
    formatter, the [lru_cache] memoisation, and the immutable DOM citizens
    with their clone-on-call behaviour.

    Python [str] values are represented by [string], read as the UTF-8
    encoding of the text.  Every character the code inspects (the five
    HTML-significant characters, the double quote, ASCII letters and the
    underscore) is a single ASCII byte, and no byte of a multi-byte UTF-8
    sequence is ASCII, so the byte-wise definitions below agree with the
    code-point-wise behaviour of the Python functions. *)

From Stdlib Require Import ZArith Lia Ascii String DecimalString.
From stdpp Require Import base decidable option list strings.

Set Warnings "-abstract-large-number".

(** String append computes under [simpl] once its first argument shows a
    constructor. *)
#[local] Arguments String.append !_ _ / : simpl nomatch.

(** Split a conjunction into its parts, and nothing else. *)
Ltac splits := repeat match goal with |- _ /\ _ => split end.

(** ** Strings *)

(** The double quote character, and the one-character string holding it. *)
Definition dquote : ascii := "034"%char.
Definition DQ : string := String dquote EmptyString.

(** [str.replace(old, new)] for a one-character [old], which is how every
    call site in the module (and [html.escape]) uses it. *)
Fixpoint replace (old : ascii) (new : string) (txt : string) : string :=
  match txt with
  | EmptyString => EmptyString
  | String c rest =>
      (if Ascii.eqb c old then new else String c EmptyString)
        +:+ replace old new rest
  end.

(** [html.escape(s)] of the standard library, with its default [quote=True]:
    five successive replacements, the ampersand first. *)
Definition escape (s : string) : string :=
  let s := replace "&" "&amp;" s in
  let s := replace "<" "&lt;" s in
  let s := replace ">" "&gt;" s in
  let s := replace dquote "&quot;" s in
  let s := replace "'" "&#x27;" s in
  s.

(** The character class [[a-zA-Z_]]. *)
Definition is_letter_or_underscore (c : ascii) : bool :=
  let n := nat_of_ascii c in
  ((65 <=? n)%nat && (n <=? 90)%nat)
  || ((97 <=? n)%nat && (n <=? 122)%nat)
  || (n =? 95)%nat.

(** [re.sub(pattern, repl, s)] for a pattern that is a single character
    class: every matching character is replaced by [repl]. *)
Fixpoint re_sub (cls : ascii -> bool) (repl : string) (s : string) : string :=
  match s with
  | EmptyString => EmptyString
  | String c rest =>
      (if cls c then repl else String c EmptyString) +:+ re_sub cls repl rest
  end.

(** Truth value of a [str]: non-empty. *)
Definition str_truthy (s : string) : bool :=
  match s with EmptyString => false | _ => true end.

(** [sep.join(parts)]. *)
Fixpoint join (sep : string) (parts : list string) : string :=
  match parts with
  | [] => ""
  | [p] => p
  | p :: rest => p +:+ sep +:+ join sep rest
  end.

(** ** Attribute formatting *)

(** [double_quote(txt)]: ['"{}"'.format(txt.replace('"', '\\"'))]. *)
Definition double_quote (txt : string) : string :=
  DQ +:+ replace dquote ("\" +:+ DQ) txt +:+ DQ.

(** [fmt_prop(key, val)]; [val] is [None] or a [str]. *)
Definition fmt_prop (key : string) (val : option string) : string :=
  match val with
  | None =>
      if str_truthy (re_sub is_letter_or_underscore "" key)
      then double_quote key
      else key
  | Some v => key +:+ "=" +:+ double_quote v
  end.

(** [fmt_props( *props )]. *)
Definition fmt_props (props : list (string * option string)) : string :=
  match props with
  | [] => ""
  | _ => " " +:+ join " " (map (fun x => fmt_prop (fst x) (snd x)) props)
  end.

(** ** What the escaper and the formatter are specified to do *)

(** Entity escaping, character by character: stated from the
    specification, to be compared with [escape]. *)
Definition entity_of (c : ascii) : string :=
  if Ascii.eqb c "&" then "&amp;"
  else if Ascii.eqb c "<" then "&lt;"
  else if Ascii.eqb c ">" then "&gt;"
  else if Ascii.eqb c dquote then "&quot;"
  else if Ascii.eqb c "'" then "&#x27;"
  else String c EmptyString.

Fixpoint escape_each (s : string) : string :=
  match s with
  | EmptyString => EmptyString
  | String c rest => entity_of c +:+ escape_each rest
  end.

(** Backslash-escaping of double quotes, character by character. *)
Fixpoint backslash_quotes (s : string) : string :=
  match s with
  | EmptyString => EmptyString
  | String c rest =>
      (if Ascii.eqb c dquote then "\" +:+ DQ else String c EmptyString)
        +:+ backslash_quotes rest
  end.

(** Whether the character [c] occurs in [s]. *)
Fixpoint occurs (c : ascii) (s : string) : bool :=
  match s with
  | EmptyString => false
  | String x rest => Ascii.eqb x c || occurs c rest
  end.

(** The letters and the underscore, written out. *)
Definition letters_and_underscore : string :=
  "abcdefghijklmnopqrstuvwxyzABCDEFGHIJKLMNOPQRSTUVWXYZ_".

(** A name made of letters and underscores only: each of its characters is
    one of the 53 above. *)
Fixpoint only_letters (s : string) : bool :=
  match s with
  | EmptyString => true
  | String c rest => occurs c letters_and_underscore && only_letters rest
  end.

(** ** Python values, exceptions, classes *)

(** Objects live in a heap and are referred to by address; [is] is equality
    of addresses. *)
Abbreviation addr := nat.

(** The values that reach the API: attribute values are [None] or a [str];
    content arguments are [object]s, of which the model has strings, bytes,
    integers, lists of integers (a representative unhashable value), [None]
    and references to DOM citizens.  It has no number of another type
    ([float], [bool], ...): such a number can be equal to an integer and
    then is the same cache key, so what is stated of a call with an integer
    is stated for a cache that does not answer it. *)
Inductive pyval : Type :=
| VNone
| VStr (s : string)
| VBytes (b : string)
| VInt (z : Z)
| VList (items : list Z)
| VRef (a : addr).

(** [InvalidReference] is not a Python exception: it is the model's answer
    when an address outside the heap is dereferenced. *)
Inductive exn : Type :=
| AttributeError
| TypeError
| NameError
| UnicodeDecodeError
| RecursionError
| InvalidReference.

Inductive result (A : Type) : Type :=
| Ok (a : A)
| Raise (e : exn).
Arguments Ok {A} a.
Arguments Raise {A} e.

(** A class is either one of the module's class statements ([Static]) or
    was made at run time by a call of [type(...)], which yields a class
    distinct from every other one ([Dynamic n], the [n]-th such call). *)
Inductive ident : Type :=
| Static
| Dynamic (n : nat).

(** The three abstract tag classes a concrete tag derives from. *)
Inductive base : Type :=
| _LeafTag
| _SingleChildTag
| _CompositeTag.

(** A concrete tag class: its [__name__], its single base, and what its
    [__dict__] holds: [tagname], and for [Script] and [Style] the methods
    [__call__] and [__repr__] ([tc_raw_call] then names the class whose body
    defined them, which is what their [super()] refers to). *)
Record tagclass : Type := {
  tc_ident : ident;
  tc_name : string;
  tc_base : base;
  tc_tagname : string;
  tc_raw_call : option string
}.

Inductive pyclass : Type :=
| cls_RawText
| cls_Text
| cls_Comment
| cls_DocType
| cls_Tag (c : tagclass).

#[global] Instance ident_eq_dec : EqDecision ident.
Proof. solve_decision. Defined.
#[global] Instance base_eq_dec : EqDecision base.
Proof. solve_decision. Defined.
#[global] Instance tagclass_eq_dec : EqDecision tagclass.
Proof. solve_decision. Defined.
#[global] Instance pyclass_eq_dec : EqDecision pyclass.
Proof. solve_decision. Defined.

(** The slots of a DOM citizen: [_hash] and [html] ([_DOMCitizen]), [value]
    (text nodes and comments), [props] ([DocType] and tags), [child] and
    [children].  A slot that was never written is [None]. *)
Record object : Type := {
  o_class : pyclass;
  o_value : option string;
  o_props : option (list (string * option string));
  o_child : option pyval;
  o_children : option (list pyval);
  o_hash : option Z;
  o_html : option string
}.

Definition blank (c : pyclass) : object :=
  {| o_class := c; o_value := None; o_props := None; o_child := None;
     o_children := None; o_hash := None; o_html := None |}.

(** One attribute write, [name] and [value] together. *)
Inductive attr_write : Type :=
| W_value (v : string)
| W_props (p : list (string * option string))
| W_child (c : pyval)
| W_children (cs : list pyval)
| W_hash (z : Z)
| W_html (s : string).

Definition write_slot (w : attr_write) (o : object) : object :=
  match w with
  | W_value v =>
      {| o_class := o_class o; o_value := Some v; o_props := o_props o;
         o_child := o_child o; o_children := o_children o;
         o_hash := o_hash o; o_html := o_html o |}
  | W_props p =>
      {| o_class := o_class o; o_value := o_value o; o_props := Some p;
         o_child := o_child o; o_children := o_children o;
         o_hash := o_hash o; o_html := o_html o |}
  | W_child c =>
      {| o_class := o_class o; o_value := o_value o; o_props := o_props o;
         o_child := Some c; o_children := o_children o;
         o_hash := o_hash o; o_html := o_html o |}
  | W_children cs =>
      {| o_class := o_class o; o_value := o_value o; o_props := o_props o;
         o_child := o_child o; o_children := Some cs;
         o_hash := o_hash o; o_html := o_html o |}
  | W_hash z =>
      {| o_class := o_class o; o_value := o_value o; o_props := o_props o;
         o_child := o_child o; o_children := o_children o;
         o_hash := Some z; o_html := o_html o |}
  | W_html s =>
      {| o_class := o_class o; o_value := o_value o; o_props := o_props o;
         o_child := o_child o; o_children := o_children o;
         o_hash := o_hash o; o_html := Some s |}
  end.

(** ** The memoisation caches *)

Definition MAX_CACHE_SIZE : nat := 12800.

(** The capacity is never unfolded by the simplifier. *)
#[global] Opaque MAX_CACHE_SIZE.

(** The key [lru_cache] builds from a call: the positional arguments and
    the keyword arguments in call order. *)
Definition key : Type := list pyval * list (string * pyval).

(** One cache: its entries, the most recently used first. *)
Definition lru : Type := list (key * pyval).

(** The decorated functions and classes, each with a cache of its own: the
    three text classes, the decorated tag classes (by name), the [__call__]
    of the two child-accepting bases and the [__call__] that the body of
    [Script] and of [Style] defines.  [double_quote], [fmt_prop],
    [fmt_props] and [tmf_props] are decorated too: they take strings and
    give a string, their caches do not show in what they return, and they
    are not part of the state. *)
Inductive cached : Type :=
| C_RawText
| C_Text
| C_Comment
| C_class (name : string)
| C_SingleChildTag_call
| C_CompositeTag_call
| C_raw_call (owner : string).

#[global] Instance cached_eq_dec : EqDecision cached.
Proof. solve_decision. Defined.

(** The program state: the heap, the number of classes made by [type] so
    far, and the caches. *)
Record state : Type := {
  heap : list object;
  nclass : nat;
  caches : cached -> lru
}.

Definition initial : state :=
  {| heap := []; nclass := 0; caches := fun _ => [] |}.

Definition set_heap (h : list object) (st : state) : state :=
  {| heap := h; nclass := nclass st; caches := caches st |}.

Definition set_cache (f : cached) (c : lru) (st : state) : state :=
  {| heap := heap st; nclass := nclass st;
     caches := fun g => if decide (g = f) then c else caches st g |}.

(** ** A state and exception monad *)

Definition M (A : Type) : Type := state -> result A * state.

Definition ret {A} (a : A) : M A := fun st => (Ok a, st).

Definition raise {A} (e : exn) : M A := fun st => (Raise e, st).

Definition bind {A B} (m : M A) (f : A -> M B) : M B :=
  fun st =>
    match m st with
    | (Ok a, st') => f a st'
    | (Raise e, st') => (Raise e, st')
    end.

Declare Scope py_scope.
Delimit Scope py_scope with py.
Notation "x <- m ;; k" := (bind m (fun x => k))
  (at level 20, m at level 99, k at level 200) : py_scope.
Notation "m ;; k" := (bind m (fun _ => k))
  (at level 100, k at level 200, right associativity) : py_scope.
Bind Scope py_scope with M.
Local Open Scope py_scope.

Definition lift {A} (r : result A) : M A := fun st => (r, st).

(** Reading an object. *)
Definition deref (a : addr) : M object :=
  fun st =>
    match heap st !! a with
    | Some o => (Ok o, st)
    | None => (Raise InvalidReference, st)
    end.

(** Reading a slot: [AttributeError] when it was never written. *)
Definition getattr {A} (slot : object -> option A) (a : addr) : M A :=
  o <- deref a ;;
  match slot o with
  | Some v => ret v
  | None => raise AttributeError
  end.

(** [object.__new__(cls)]: a fresh object with every slot empty. *)
Definition object_new (c : pyclass) : M addr :=
  fun st => (Ok (length (heap st)), set_heap (heap st ++ [blank c]) st).

(** [object.__setattr__(self, name, value)], reached through [super()]. *)
Definition object_setattr (self : addr) (w : attr_write) : M unit :=
  fun st =>
    match heap st !! self with
    | Some o => (Ok tt, set_heap (<[self := write_slot w o]> (heap st)) st)
    | None => (Raise InvalidReference, st)
    end.

(** ** Equality of values, as the caches see it *)

(** [_DOMCitizen.__eq__]:
    [isinstance(other, type(self)) and self.html == other.html].
    The bases of every instantiable class are the abstract classes
    ([_DOMCitizen], [_Declaration], [_Tag], [_LeafTag], [_SingleChildTag],
    [_CompositeTag]), so [other] is an instance of [type(self)] exactly
    when its class is that very class. *)
Definition __eq__ (h : list object) (self : addr) (other : pyval) : bool :=
  match other with
  | VRef b =>
      match h !! self, h !! b with
      | Some o1, Some o2 =>
          bool_decide (o_class o2 = o_class o1)
          && match o_html o1, o_html o2 with
             | Some x, Some y => String.eqb x y
             | _, _ => false
             end
      | _, _ => false
      end
  | _ => false
  end.

(** [v == w], with the identity shortcut containers take first. *)
Definition py_eq (h : list object) (v w : pyval) : bool :=
  match v, w with
  | VNone, VNone => true
  | VStr s, VStr t => String.eqb s t
  | VBytes s, VBytes t => String.eqb s t
  | VInt x, VInt y => Z.eqb x y
  | VList x, VList y => bool_decide (x = y)
  | VRef a, _ =>
      match w with
      | VRef b => Nat.eqb a b || __eq__ h a w
      | _ => false
      end
  | _, _ => false
  end.

Fixpoint args_eq (h : list object) (xs ys : list pyval) : bool :=
  match xs, ys with
  | [], [] => true
  | x :: xs', y :: ys' => py_eq h x y && args_eq h xs' ys'
  | _, _ => false
  end.

Fixpoint kwds_eq (h : list object) (xs ys : list (string * pyval)) : bool :=
  match xs, ys with
  | [], [] => true
  | (k, x) :: xs', (k', y) :: ys' =>
      String.eqb k k' && py_eq h x y && kwds_eq h xs' ys'
  | _, _ => false
  end.

(** Two keys are the same cache entry when they are equal element-wise
    (equal values hash alike, so the hash test that precedes the comparison
    never separates them). *)
Definition key_eq (h : list object) (k k' : key) : bool :=
  args_eq h (fst k) (fst k') && kwds_eq h (snd k) (snd k').

(** Lists are unhashable; everything else the model has can be hashed. *)
Definition hashable (v : pyval) : bool :=
  match v with
  | VList _ => false
  | _ => true
  end.

Definition key_hashable (k : key) : bool :=
  forallb hashable (fst k) && forallb (fun kv => hashable (snd kv)) (snd k).

(** The entry of a cache that answers key [k], and the cache without it. *)
Fixpoint lru_find (h : list object) (k : key) (c : lru)
  : option ((key * pyval) * lru) :=
  match c with
  | [] => None
  | e :: rest =>
      if key_eq h (fst e) k then Some (e, rest)
      else match lru_find h k rest with
           | Some (e', rest') => Some (e', e :: rest')
           | None => None
           end
  end.

(** [@lru_cache(maxsize=MAX_CACHE_SIZE)]: an unhashable argument raises
    [TypeError]; a hit returns the stored result and makes the entry the
    most recent one; a miss runs the body and stores its result, dropping
    the least recently used entry when the cache is full.  An exception of
    the body propagates and nothing is stored.  (No body of this module
    re-enters its own cache.) *)
Definition lru_cache (f : cached) (k : key) (body : M pyval) : M pyval :=
  fun st =>
    if negb (key_hashable k) then (Raise TypeError, st)
    else
      match lru_find (heap st) k (caches st f) with
      | Some (e, rest) => (Ok (snd e), set_cache f (e :: rest) st)
      | None =>
          match body st with
          | (Ok r, st') =>
              (Ok r,
               set_cache f (take MAX_CACHE_SIZE ((k, r) :: caches st' f)) st')
          | (Raise e, st') => (Raise e, st')
          end
      end.

(** ** Bytes *)

Definition in_range (lo hi : nat) (c : ascii) : bool :=
  let n := nat_of_ascii c in (lo <=? n)%nat && (n <=? hi)%nat.

Definition continuation (c : ascii) : bool := in_range 128 191 c.

(** Well-formed UTF-8 (RFC 3629): no overlong forms, no surrogates,
    nothing above U+10FFFF. *)
Fixpoint valid_utf8 (b : string) : bool :=
  match b with
  | EmptyString => true
  | String c0 r0 =>
      if in_range 0 127 c0 then valid_utf8 r0
      else
        match r0 with
        | EmptyString => false
        | String c1 r1 =>
            if in_range 194 223 c0 then continuation c1 && valid_utf8 r1
            else
              match r1 with
              | EmptyString => false
              | String c2 r2 =>
                  if in_range 224 239 c0 then
                    (if in_range 224 224 c0 then in_range 160 191 c1
                     else if in_range 237 237 c0 then in_range 128 159 c1
                     else continuation c1)
                    && continuation c2 && valid_utf8 r2
                  else
                    match r2 with
                    | EmptyString => false
                    | String c3 r3 =>
                        if in_range 240 244 c0 then
                          (if in_range 240 240 c0 then in_range 144 191 c1
                           else if in_range 244 244 c0 then in_range 128 143 c1
                           else continuation c1)
                          && continuation c2 && continuation c3
                          && valid_utf8 r3
                        else false
                    end
              end
        end
  end.

(** [b.decode("utf-8")]: strings being kept in UTF-8, decoding is a check. *)
Definition decode_utf8 (b : string) : result string :=
  if valid_utf8 b then Ok b else Raise UnicodeDecodeError.

(** ** Dictionaries of attributes *)

(** [d[k] = v] on an insertion-ordered dict: an existing key keeps its
    place and takes the new value, a new key goes last. *)
Fixpoint dict_set (k : string) (v : option string)
    (d : list (string * option string)) : list (string * option string) :=
  match d with
  | [] => [(k, v)]
  | (k', v') :: rest =>
      if String.eqb k' k then (k', v) :: rest
      else (k', v') :: dict_set k v rest
  end.

(** [for k in attrs: props[k] = None]. *)
Definition set_flags (attrs : list string)
    (props : list (string * option string)) : list (string * option string) :=
  fold_left (fun d k => dict_set k None d) attrs props.

(** ** The catalog of concrete tags *)

(** One class statement of the module: name, base, [tagname], whether the
    statement carries the [@lru_cache] decorator, and whether its body
    overrides [__call__] with [super().__call__(_RawText(child))]. *)
Record class_def : Type := mk_def {
  cd_name : string;
  cd_base : base;
  cd_tagname : string;
  cd_cached : bool;
  cd_raw : bool
}.

#[global] Instance class_def_eq_dec : EqDecision class_def.
Proof. solve_decision. Defined.

Definition catalog : list class_def := [
    mk_def "A" _CompositeTag "a" true false;
    mk_def "Abbr" _CompositeTag "abbr" true false;
    mk_def "Address" _CompositeTag "address" true false;
    mk_def "Animate" _CompositeTag "animate" true false;
    mk_def "AnimateMotion" _CompositeTag "animateMotion" true false;
    mk_def "AnimateTransform" _CompositeTag "animateTransform" true false;
    mk_def "Area" _LeafTag "area" true false;
    mk_def "Article" _CompositeTag "article" true false;
    mk_def "Aside" _CompositeTag "aside" true false;
    mk_def "Audio" _CompositeTag "audio" true false;
    mk_def "B" _CompositeTag "b" true false;
    mk_def "Base" _LeafTag "base" true false;
    mk_def "BDI" _CompositeTag "bdi" true false;
    mk_def "BDO" _CompositeTag "bdo" true false;
    mk_def "BlockQuote" _CompositeTag "blockquote" true false;
    mk_def "Body" _CompositeTag "body" true false;
    mk_def "Br" _LeafTag "br" true false;
    mk_def "Button" _CompositeTag "button" true false;
    mk_def "Canvas" _CompositeTag "canvas" true false;
    mk_def "Caption" _CompositeTag "caption" true false;
    mk_def "Center" _CompositeTag "center" true false;
    mk_def "Circle" _CompositeTag "circle" true false;
    mk_def "CirclePath" _CompositeTag "circlePath" true false;
    mk_def "Cite" _CompositeTag "cite" true false;
    mk_def "Code" _CompositeTag "code" true false;
    mk_def "Col" _LeafTag "col" true false;
    mk_def "ColGroup" _CompositeTag "colgroup" true false;
    mk_def "Color_Profile" _CompositeTag "color-profile" true false;
    mk_def "Data" _CompositeTag "data" true false;
    mk_def "DataList" _CompositeTag "datalist" true false;
    mk_def "DD" _CompositeTag "dd" true false;
    mk_def "Defs" _CompositeTag "defs" true false;
    mk_def "Del" _CompositeTag "del" true false;
    mk_def "Desc" _CompositeTag "desc" true false;
    mk_def "Details" _CompositeTag "details" true false;
    mk_def "DFN" _CompositeTag "dfn" true false;
    mk_def "Dialog" _CompositeTag "dialog" true false;
    mk_def "Discard" _CompositeTag "discard" true false;
    mk_def "Div" _CompositeTag "div" true false;
    mk_def "DL" _CompositeTag "dl" true false;
    mk_def "DT" _CompositeTag "dt" true false;
    mk_def "Ellipse" _CompositeTag "ellipse" true false;
    mk_def "Em" _CompositeTag "em" true false;
    mk_def "Embed" _CompositeTag "embed" true false;
    mk_def "FeBlend" _CompositeTag "feBlend" true false;
    mk_def "FeColorMatrix" _CompositeTag "feColorMatrix" true false;
    mk_def "FeComponentTransfer" _CompositeTag "feComponentTransfer" true false;
    mk_def "FeComposite" _CompositeTag "feComposite" true false;
    mk_def "FeConvolveMatrix" _CompositeTag "feConvolveMatrix" true false;
    mk_def "FeDiffuseLighting" _CompositeTag "feDiffuseLighting" true false;
    mk_def "FeDisplacementMap" _CompositeTag "feDisplacementMap" true false;
    mk_def "FeDistantLight" _CompositeTag "feDistantLight" true false;
    mk_def "FeDropShadow" _CompositeTag "feDropShadow" true false;
    mk_def "FeFlood" _CompositeTag "feFlood" true false;
    mk_def "FeFuncA" _CompositeTag "feFuncA" true false;
    mk_def "FeFuncB" _CompositeTag "feFuncB" true false;
    mk_def "FeFuncG" _CompositeTag "feFuncG" true false;
    mk_def "FeFuncR" _CompositeTag "feFuncR" true false;
    mk_def "FeGaussianBlur" _CompositeTag "feGaussianBlur" true false;
    mk_def "FeImage" _CompositeTag "feImage" true false;
    mk_def "FeMerge" _CompositeTag "feMerge" true false;
    mk_def "FeMergeNode" _CompositeTag "feMergeNode" true false;
    mk_def "FeMorphology" _CompositeTag "feMorphology" true false;
    mk_def "FeOffset" _CompositeTag "feOffset" true false;
    mk_def "FePointLight" _CompositeTag "fePointLight" true false;
    mk_def "FeSpecularLighting" _CompositeTag "feSpecularLighting" true false;
    mk_def "FeSpotLight" _CompositeTag "feSpotLight" true false;
    mk_def "FeTile" _CompositeTag "feTile" true false;
    mk_def "FeTurbulence" _CompositeTag "feTurbulence" true false;
    mk_def "FieldSet" _CompositeTag "fieldset" true false;
    mk_def "FigCaption" _CompositeTag "figcaption" true false;
    mk_def "Figure" _CompositeTag "figure" true false;
    mk_def "Filter" _CompositeTag "filter" true false;
    mk_def "Footer" _CompositeTag "footer" true false;
    mk_def "ForeignObject" _LeafTag "foreignObject" true false;
    mk_def "Form" _CompositeTag "form" true false;
    mk_def "G" _CompositeTag "g" true false;
    mk_def "H1" _CompositeTag "h1" true false;
    mk_def "H2" _CompositeTag "h2" true false;
    mk_def "H3" _CompositeTag "h3" true false;
    mk_def "H4" _CompositeTag "h4" true false;
    mk_def "H5" _CompositeTag "h5" true false;
    mk_def "H6" _CompositeTag "h6" true false;
    mk_def "Hatch" _CompositeTag "hatch" true false;
    mk_def "Hatchpath" _CompositeTag "hatchpath" true false;
    mk_def "Head" _CompositeTag "head" true false;
    mk_def "Header" _CompositeTag "header" true false;
    mk_def "HR" _LeafTag "hr" true false;
    mk_def "HTML" _CompositeTag "html" true false;
    mk_def "I" _CompositeTag "i" true false;
    mk_def "IFrame" _CompositeTag "iframe" true false;
    mk_def "Image" _CompositeTag "image" true false;
    mk_def "Img" _LeafTag "img" true false;
    mk_def "Input" _LeafTag "input" true false;
    mk_def "Ins" _CompositeTag "ins" true false;
    mk_def "Kbd" _CompositeTag "kbd" true false;
    mk_def "Label" _CompositeTag "label" true false;
    mk_def "Legend" _CompositeTag "legend" true false;
    mk_def "LI" _CompositeTag "li" true false;
    mk_def "Line" _CompositeTag "line" true false;
    mk_def "LinearGradient" _CompositeTag "linearGradient" true false;
    mk_def "Link" _LeafTag "link" true false;
    mk_def "Main" _CompositeTag "main" true false;
    mk_def "Map" _CompositeTag "map" true false;
    mk_def "Mark" _CompositeTag "mark" true false;
    mk_def "Marker" _CompositeTag "marker" true false;
    mk_def "Mask" _CompositeTag "mask" true false;
    mk_def "Meta" _LeafTag "meta" true false;
    mk_def "Metadata" _CompositeTag "metadata" true false;
    mk_def "Meter" _LeafTag "meter" true false;
    mk_def "Mpath" _CompositeTag "mpath" true false;
    mk_def "Nav" _CompositeTag "nav" true false;
    mk_def "NoBr" _CompositeTag "nobr" true false;
    mk_def "NoScript" _CompositeTag "noscript" true false;
    mk_def "Object" _CompositeTag "object" true false;
    mk_def "OL" _CompositeTag "ol" true false;
    mk_def "OptGroup" _CompositeTag "optgroup" true false;
    mk_def "Option" _CompositeTag "option" true false;
    mk_def "Output" _CompositeTag "output" true false;
    mk_def "P" _CompositeTag "p" true false;
    mk_def "Param" _LeafTag "param" true false;
    mk_def "Path" _CompositeTag "path" true false;
    mk_def "Pattern" _CompositeTag "pattern" true false;
    mk_def "Picture" _CompositeTag "picture" true false;
    mk_def "Polygon" _CompositeTag "polygon" true false;
    mk_def "Polyline" _CompositeTag "polyline" true false;
    mk_def "Pre" _CompositeTag "pre" true false;
    mk_def "Progress" _CompositeTag "progress" true false;
    mk_def "Q" _CompositeTag "q" true false;
    mk_def "RadialGradient" _CompositeTag "radialGradient" true false;
    mk_def "Rect" _CompositeTag "rect" true false;
    mk_def "RP" _CompositeTag "rp" true false;
    mk_def "RT" _CompositeTag "rt" true false;
    mk_def "Ruby" _CompositeTag "ruby" true false;
    mk_def "S" _CompositeTag "s" true false;
    mk_def "Samp" _CompositeTag "samp" true false;
    mk_def "Script" _SingleChildTag "script" true true;
    mk_def "Section" _CompositeTag "section" true false;
    mk_def "Select" _CompositeTag "select" true false;
    mk_def "Set" _CompositeTag "set" true false;
    mk_def "Small" _CompositeTag "small" true false;
    mk_def "Solidcolor" _CompositeTag "solidcolor" true false;
    mk_def "Source" _LeafTag "source" true false;
    mk_def "Span" _CompositeTag "span" true false;
    mk_def "Stop" _CompositeTag "stop" true false;
    mk_def "Strong" _CompositeTag "strong" true false;
    mk_def "Style" _SingleChildTag "style" true true;
    mk_def "Sub" _CompositeTag "sub" false false;
    mk_def "Summary" _CompositeTag "summary" true false;
    mk_def "Sup" _CompositeTag "sup" true false;
    mk_def "SVG" _CompositeTag "svg" true false;
    mk_def "Switch" _CompositeTag "switch" true false;
    mk_def "Symbol" _CompositeTag "symbol" true false;
    mk_def "Table" _CompositeTag "table" true false;
    mk_def "TBody" _CompositeTag "tbody" true false;
    mk_def "TD" _CompositeTag "td" true false;
    mk_def "Template" _CompositeTag "template" true false;
    mk_def "Text" _CompositeTag "text" true false;
    mk_def "TextArea" _SingleChildTag "textarea" true false;
    mk_def "TextPath" _CompositeTag "textPath" true false;
    mk_def "TFoot" _CompositeTag "tfoot" true false;
    mk_def "TH" _CompositeTag "th" true false;
    mk_def "THead" _CompositeTag "thead" true false;
    mk_def "Time" _CompositeTag "time" true false;
    mk_def "Title" _SingleChildTag "title" true false;
    mk_def "TR" _CompositeTag "tr" true false;
    mk_def "Track" _LeafTag "track" true false;
    mk_def "TSpan" _CompositeTag "tspan" true false;
    mk_def "U" _CompositeTag "u" true false;
    mk_def "UL" _CompositeTag "ul" true false;
    mk_def "Use" _CompositeTag "use" true false;
    mk_def "Var" _CompositeTag "var" true false;
    mk_def "View" _CompositeTag "view" true false;
    mk_def "Video" _CompositeTag "video" true false;
    mk_def "WBr" _LeafTag "wbr" true false
].

(** The class object a class statement creates. *)
Definition class_of_def (d : class_def) : tagclass :=
  {| tc_ident := Static; tc_name := cd_name d; tc_base := cd_base d;
     tc_tagname := cd_tagname d;
     tc_raw_call := if cd_raw d then Some (cd_name d) else None |}.

Definition find_def (name : string) : option class_def :=
  find (fun d => String.eqb (cd_name d) name) catalog.

(** ** Method resolution *)

(** Where a method found along the MRO was defined: in the class's own
    body, or in one of the abstract classes. *)
Inductive owner : Type :=
| Own
| In_base (b : base)
| In_Tag
| In_Declaration
| In_DOMCitizen.

Definition DOMCitizen_body : list string :=
  ["__init__"; "_set_dom_properties"; "_setattr"; "prefixed_repr"; "__eq__";
   "__hash__"; "__setattr__"; "__repr__"; "__str__"].

Definition base_body (b : base) : list string :=
  match b with
  | _LeafTag => ["__init__"; "__repr__"]
  | _SingleChildTag => ["__init__"; "__call__"; "__repr__"]
  | _CompositeTag => ["__init__"; "__call__"; "__repr__"]
  end.

(** The MRO of a class, each class with the methods its body defines
    ([object] at the end is left out). *)
Definition mro (c : pyclass) : list (owner * list string) :=
  match c with
  | cls_RawText | cls_Text =>
      [(Own, ["__init__"; "__repr__"]); (In_DOMCitizen, DOMCitizen_body)]
  | cls_Comment | cls_DocType =>
      [(Own, ["__init__"; "__repr__"]); (In_Declaration, []);
       (In_DOMCitizen, DOMCitizen_body)]
  | cls_Tag t =>
      [(Own, match tc_raw_call t with
             | Some _ => ["__call__"; "__repr__"]
             | None => []
             end);
       (In_base (tc_base t), base_body (tc_base t));
       (In_Tag, ["__init__"]);
       (In_DOMCitizen, DOMCitizen_body)]
  end.

(** The class that provides [meth] to instances of [c]; [None] when only
    [object] could. *)
Definition resolve (c : pyclass) (meth : string) : option owner :=
  fst <$> find (fun e => existsb (String.eqb meth) (snd e)) (mro c).

(** ** Instances for the examples *)

(** Stand-ins for [hash], for [repr] on bytes and on strings and for
    [RESERVED_KEYWORDS], to run the program with in the examples at the
    end. *)
Definition toy_hash (s : string) : Z := Z.of_nat (String.length s).

Definition toy_repr_bytes (b : string) : string := "b'" +:+ b +:+ "'".

Definition toy_repr_str (s : string) : string := "'" +:+ s +:+ "'".

Definition toy_reserved (s : string) : bool :=
  existsb (String.eqb s) ["class"; "for"; "id"; "type"; "input"].

(** ** The DOM citizens *)

Section DOM.

(** [hash] on strings (randomised per process), [repr] on bytes and on
    strings, and membership in [RESERVED_KEYWORDS] (the names of [builtins]
    and the keywords of the running interpreter) are taken as parameters. *)
Context (hash_str : string -> Z) (repr_bytes repr_str : string -> string)
        (RESERVED_KEYWORDS : string -> bool).

(** [_DOMCitizen._set_dom_properties]. *)
Definition _set_dom_properties (self : addr) (html : string) : M unit :=
  object_setattr self (W_hash (hash_str html)) ;;
  object_setattr self (W_html html).

(** [_DOMCitizen._setattr]. *)
Definition _setattr (self : addr) (w : attr_write) : M unit :=
  object_setattr self w.

(** [_DOMCitizen.__setattr__]: what [self.name = value] runs. *)
Definition __setattr__ (self : addr) (name : string) (value : pyval)
  : M unit :=
  raise AttributeError.

(** [_DOMCitizen.__hash__] and [_DOMCitizen.__str__]. *)
Definition __hash__ (self : addr) : M Z := getattr o_hash self.

Definition __str__ (self : addr) : M string := getattr o_html self.

(** [str(z)] for an [int]. *)
Definition str_of_int (z : Z) : string := NilZero.string_of_int (Z.to_int z).

(** The interpreters that limit the conversion of an [int] to a [str]
    ([sys.int_info.default_max_str_digits], 4300 digits) raise [ValueError]
    for a longer number.  The integers below are those every interpreter
    converts; [str_of_int] is used on no other. *)
Definition int_max_str_digits : Z := 4300.

Definition converts (z : Z) : Prop :=
  (Z.abs z < 10 ^ int_max_str_digits)%Z.

(** [str(v)], which is also what an f-string field and [map(str, ...)]
    produce. *)
Definition py_str (v : pyval) : M string :=
  match v with
  | VNone => ret "None"
  | VStr s => ret s
  | VBytes b => ret (repr_bytes b)
  | VInt z => ret (str_of_int z)
  | VList items => ret ("[" +:+ join ", " (map str_of_int items) +:+ "]")
  | VRef a => __str__ a
  end.

(** [cls(...)] on a class object: allocate, then run [__init__]. *)
Definition new (c : pyclass) (init : addr -> M unit) : M addr :=
  self <- object_new c ;;
  init self ;;
  ret self.

(** *** Text, comments, doctype *)

Definition _RawText__init__ (value : string) (self : addr) : M unit :=
  _setattr self (W_value value) ;;
  _set_dom_properties self value.

Definition _RawText (value : string) : M pyval :=
  lru_cache C_RawText ([VStr value], [])
    (self <- new cls_RawText (_RawText__init__ value) ;; ret (VRef self)).

Definition _Text__init__ (value : string) (self : addr) : M unit :=
  _setattr self (W_value value) ;;
  _set_dom_properties self (escape value).

Definition _Text (value : string) : M pyval :=
  lru_cache C_Text ([VStr value], [])
    (self <- new cls_Text (_Text__init__ value) ;; ret (VRef self)).

Definition _Comment__init__ (value : string) (self : addr) : M unit :=
  _setattr self (W_value value) ;;
  _set_dom_properties self ("<!-- " +:+ escape value +:+ " -->").

Definition _Comment (value : string) : M pyval :=
  lru_cache C_Comment ([VStr value], [])
    (self <- new cls_Comment (_Comment__init__ value) ;; ret (VRef self)).

Definition DocType__init__ (attrs : list string) (self : addr) : M unit :=
  _setattr self (W_props (set_flags attrs [])) ;;
  p <- getattr o_props self ;;
  _set_dom_properties self ("<!DOCTYPE" +:+ fmt_props p +:+ ">").

(** [DocType] carries no decorator. *)
Definition DocType (attrs : list string) : M pyval :=
  self <- new cls_DocType (DocType__init__ attrs) ;; ret (VRef self).

(** *** Tags *)

(** [self.tagname], a class attribute. *)
Definition tagname (self : addr) : M string :=
  o <- deref self ;;
  match o_class o with
  | cls_Tag c => ret (tc_tagname c)
  | _ => raise AttributeError
  end.

Definition _Tag__init__ (attrs : list string)
    (props : list (string * option string)) (self : addr) : M unit :=
  _setattr self (W_props (set_flags attrs props)).

Definition _LeafTag__init__ (attrs : list string)
    (props : list (string * option string)) (self : addr) : M unit :=
  _Tag__init__ attrs props self ;;
  t <- tagname self ;;
  p <- getattr o_props self ;;
  _set_dom_properties self ("<" +:+ t +:+ fmt_props p +:+ " />").

Definition _SingleChildTag__init__ (attrs : list string)
    (props : list (string * option string)) (self : addr) : M unit :=
  _Tag__init__ attrs props self ;;
  empty <- _Text "" ;;
  _setattr self (W_child empty) ;;
  t <- tagname self ;;
  p <- getattr o_props self ;;
  c <- getattr o_child self ;;
  s <- py_str c ;;
  _set_dom_properties self
    ("<" +:+ t +:+ fmt_props p +:+ ">" +:+ s +:+ "</" +:+ t +:+ ">").

Definition _CompositeTag__init__ (attrs : list string)
    (props : list (string * option string)) (self : addr) : M unit :=
  _Tag__init__ attrs props self ;;
  _setattr self (W_children []) ;;
  t <- tagname self ;;
  p <- getattr o_props self ;;
  _set_dom_properties self
    ("<" +:+ t +:+ fmt_props p +:+ "></" +:+ t +:+ ">").

(** Binding a call to the parameters [(self, *attrs, **props)] that the
    [__init__] of every tag has: a keyword named [self] is a second value
    for the first parameter. *)
Definition clashes (props : list (string * option string)) : bool :=
  existsb (String.eqb "self") (map fst props).

(** Calling a tag class object with [*attrs, **props] ([props] standing for
    the keywords of the call, in order): no concrete tag defines [__init__],
    so the one of its base runs, unless the keywords cannot be bound to its
    parameters, which is a [TypeError] (the object [__new__] has made by
    then is dropped). *)
Definition instantiate (c : tagclass) (attrs : list string)
    (props : list (string * option string)) : M addr :=
  if clashes props then raise TypeError
  else
    new (cls_Tag c)
      (match tc_base c with
       | _LeafTag => _LeafTag__init__ attrs props
       | _SingleChildTag => _SingleChildTag__init__ attrs props
       | _CompositeTag => _CompositeTag__init__ attrs props
       end).

Definition opt_val (v : option string) : pyval :=
  match v with
  | Some s => VStr s
  | None => VNone
  end.

Definition ctor_key (attrs : list string)
    (props : list (string * option string)) : key :=
  (map VStr attrs, map (fun kv => (fst kv, opt_val (snd kv))) props).

(** [Name( *attrs, **props )] for a name of the module: the decorated names
    are bound to the caching wrapper of their class, the others to the
    class itself. *)
Definition construct (name : string) (attrs : list string)
    (props : list (string * option string)) : M pyval :=
  match find_def name with
  | None => raise NameError
  | Some d =>
      let body :=
        self <- instantiate (class_of_def d) attrs props ;; ret (VRef self) in
      if cd_cached d then lru_cache (C_class name) (ctor_key attrs props) body
      else body
  end.

(** *** Clone on call *)

(** [type(cls.__name__, cls.__bases__, cls.__dict__.copy())]: a new class
    with the name, bases and dictionary of [cls]. *)
Definition type_ (cls : tagclass) : M tagclass :=
  fun st =>
    (Ok {| tc_ident := Dynamic (nclass st); tc_name := tc_name cls;
           tc_base := tc_base cls; tc_tagname := tc_tagname cls;
           tc_raw_call := tc_raw_call cls |},
     {| heap := heap st; nclass := S (nclass st); caches := caches st |}).

(** [self.__class__], for a tag. *)
Definition class_of (self : addr) : M tagclass :=
  o <- deref self ;;
  match o_class o with
  | cls_Tag c => ret c
  | _ => raise TypeError
  end.

(** The [isinstance] chain applied to one content argument. *)
Definition normalize (c : pyval) : M pyval :=
  match c with
  | VStr s => _Text s
  | VBytes b => s <- lift (decode_utf8 b) ;; _RawText s
  | _ => ret c
  end.

Fixpoint normalize_all (children : list pyval) : M (list pyval) :=
  match children with
  | [] => ret []
  | c :: rest =>
      x <- normalize c ;;
      xs <- normalize_all rest ;;
      ret (x :: xs)
  end.

(** [''.join(map(str, children))]. *)
Fixpoint join_str (children : list pyval) : M string :=
  match children with
  | [] => ret ""
  | c :: rest =>
      s <- py_str c ;;
      r <- join_str rest ;;
      ret (s +:+ r)
  end.

Definition _SingleChildTag__call__ (self : addr) (child : pyval) : M pyval :=
  lru_cache C_SingleChildTag_call ([VRef self; child], [])
    (_child <- normalize child ;;
     cls <- class_of self ;;
     cls' <- type_ cls ;;
     props <- getattr o_props self ;;
     tag <- instantiate cls' [] props ;;
     _setattr tag (W_child _child) ;;
     t <- tagname tag ;;
     p <- getattr o_props tag ;;
     c <- getattr o_child tag ;;
     s <- py_str c ;;
     _set_dom_properties tag
       ("<" +:+ t +:+ fmt_props p +:+ ">" +:+ s +:+ "</" +:+ t +:+ ">") ;;
     ret (VRef tag)).

Definition _CompositeTag__call__ (self : addr) (children : list pyval)
  : M pyval :=
  lru_cache C_CompositeTag_call (VRef self :: children, [])
    (_children <- normalize_all children ;;
     cls <- class_of self ;;
     cls' <- type_ cls ;;
     props <- getattr o_props self ;;
     tag <- instantiate cls' [] props ;;
     _setattr tag (W_children _children) ;;
     t <- tagname tag ;;
     p <- getattr o_props tag ;;
     cs <- getattr o_children tag ;;
     s <- join_str cs ;;
     _set_dom_properties tag
       ("<" +:+ t +:+ fmt_props p +:+ ">" +:+ s +:+ "</" +:+ t +:+ ">") ;;
     ret (VRef tag)).

(** [Script.__call__] and [Style.__call__]:
    [super().__call__(_RawText(child))].  The zero-argument [super()] is
    [super(owner, self)], which demands that [self] be an instance of the
    class [owner] of the module. *)
Definition raw__call__ (owner : string) (self : addr) (child : string)
  : M pyval :=
  lru_cache (C_raw_call owner) ([VRef self; VStr child], [])
    (cls <- class_of self ;;
     if bool_decide (Some cls = class_of_def <$> find_def owner) then
       raw <- _RawText child ;;
       _SingleChildTag__call__ self raw
     else raise TypeError).

(** [f( *args )] on a value.  For [Script] and [Style] the model follows the
    annotation [child: str]; with another argument their body stores a
    non-string as the html of a raw text, and rendering that raises
    [TypeError], which is the answer given here at once. *)
Definition call (f : pyval) (args : list pyval) : M pyval :=
  match f with
  | VRef self =>
      o <- deref self ;;
      match resolve (o_class o) "__call__", o_class o with
      | Some Own, cls_Tag c =>
          match tc_raw_call c, args with
          | Some owner, [VStr child] => raw__call__ owner self child
          | _, _ => raise TypeError
          end
      | Some (In_base _SingleChildTag), _ =>
          match args with
          | [child] => _SingleChildTag__call__ self child
          | _ => raise TypeError
          end
      | Some (In_base _CompositeTag), _ => _CompositeTag__call__ self args
      | _, _ => raise TypeError
      end
  | _ => raise TypeError
  end.

(** The cache of the [__call__] a tag inherits from its base. *)
Definition call_cache (b : base) : cached :=
  match b with
  | _SingleChildTag => C_SingleChildTag_call
  | _ => C_CompositeTag_call
  end.

(** *** The debug representation *)

(** Truth value of a value. *)
Definition truthy (v : pyval) : bool :=
  match v with
  | VNone => false
  | VStr s => str_truthy s
  | VBytes b => str_truthy b
  | VInt z => negb (Z.eqb z 0)
  | VList items => match items with [] => false | _ => true end
  | VRef _ => true
  end.

(** Reading the name [v] inside [tmf_props]: the function never assigns
    it, the module binds no global of that name, and it is no builtin. *)
Definition load_v : result pyval := Raise NameError.

(** [s.lstrip(c)] and [s.rstrip(c)] for a one-character argument. *)
Fixpoint lstrip (c : ascii) (s : string) : string :=
  match s with
  | String x rest => if Ascii.eqb x c then lstrip c rest else s
  | EmptyString => EmptyString
  end.

Fixpoint rstrip (c : ascii) (s : string) : string :=
  match s with
  | EmptyString => EmptyString
  | String x rest =>
      match rstrip c rest with
      | EmptyString => if Ascii.eqb x c then EmptyString else String x EmptyString
      | r => String x r
      end
  end.

Definition repr_opt (v : option string) : string :=
  match v with
  | Some s => repr_str s
  | None => "None"
  end.

(** The locals of [tmf_props] that its loop updates. *)
Record tmf_locals : Type := {
  use_expansion : bool;
  attrs_ : list string;
  props_ : list (string * option string)
}.

(** The body of [for k in props]. *)
Fixpoint tmf_loop (items : list (string * option string)) (acc : tmf_locals)
  : result tmf_locals :=
  match items with
  | [] => Ok acc
  | (k, val) :: rest =>
      match load_v with
      | Raise e => Raise e
      | Ok v =>
          if negb (truthy v) then
            tmf_loop rest
              {| use_expansion := use_expansion acc;
                 attrs_ := attrs_ acc ++ [k];
                 props_ := props_ acc |}
          else
            tmf_loop rest
              {| use_expansion :=
                   use_expansion acc
                   || (RESERVED_KEYWORDS k
                       || str_truthy (re_sub is_letter_or_underscore "" k));
                 attrs_ := attrs_ acc;
                 props_ := dict_set k val (props_ acc) |}
      end
  end.

(** [tmf_props( **props )]. *)
Definition tmf_props (props : list (string * option string)) : result string :=
  match props with
  | [] => Ok ""
  | _ =>
      match tmf_loop props
              {| use_expansion := false; attrs_ := []; props_ := [] |} with
      | Raise e => Raise e
      | Ok acc =>
          let _attrs :=
            rstrip "]" (lstrip "["
              ("[" +:+ join ", " (map repr_str (attrs_ acc)) +:+ "]")) in
          match props_ acc with
          | [] => Ok _attrs
          | _ =>
              let _props :=
                if use_expansion acc then
                  "**{" +:+
                  join ", "
                    (map (fun kv => repr_str (fst kv) +:+ ": " +:+
                                    repr_opt (snd kv)) (props_ acc))
                  +:+ "}"
                else
                  join ", "
                    (map (fun kv => fst kv +:+ "=" +:+ repr_opt (snd kv))
                         (props_ acc)) in
              match attrs_ acc with
              | [] => Ok _props
              | _ => Ok (_attrs +:+ ", " +:+ _props)
              end
          end
      end
  end.

(** [self.__class__.__name__]. *)
Definition class_name (c : pyclass) : string :=
  match c with
  | cls_RawText => "_RawText"
  | cls_Text => "_Text"
  | cls_Comment => "_Comment"
  | cls_DocType => "DocType"
  | cls_Tag t => tc_name t
  end.

(** [repr(v)]: the [__repr__] of each class.  The recursion through the
    children is bounded by [fuel], as Python bounds it by its recursion
    limit. *)
Fixpoint py_repr (fuel : nat) (v : pyval) : M string :=
  match fuel with
  | O => raise RecursionError
  | S fuel' =>
      match v with
      | VNone => ret "None"
      | VStr s => ret (repr_str s)
      | VBytes b => ret (repr_bytes b)
      | VInt z => ret (str_of_int z)
      | VList items => ret ("[" +:+ join ", " (map str_of_int items) +:+ "]")
      | VRef self =>
          o <- deref self ;;
          match o_class o with
          | cls_RawText =>
              value <- getattr o_value self ;; ret (repr_bytes value)
          | cls_Text =>
              value <- getattr o_value self ;; ret (repr_str value)
          | cls_Comment =>
              value <- getattr o_value self ;;
              ret ("_Comment(" +:+ repr_str value +:+ ")")
          | cls_DocType =>
              p <- getattr o_props self ;;
              a <- lift (tmf_props p) ;;
              ret ("DocType(" +:+ a +:+ ")")
          | cls_Tag c =>
              match tc_base c with
              | _LeafTag =>
                  p <- getattr o_props self ;;
                  a <- lift (tmf_props p) ;;
                  ret (tc_name c +:+ "(" +:+ a +:+ ")")
              | _SingleChildTag =>
                  child <- getattr o_child self ;;
                  empty <- _Text "" ;;
                  h <- (fun st => (Ok (heap st), st)) ;;
                  if py_eq h child empty then
                    p <- getattr o_props self ;;
                    a <- lift (tmf_props p) ;;
                    ret (tc_name c +:+ "(" +:+ a +:+ ")")
                  else
                    p <- getattr o_props self ;;
                    a <- lift (tmf_props p) ;;
                    r <- match tc_raw_call c, child with
                         | Some _, VRef ch =>
                             value <- getattr o_value ch ;;
                             ret (repr_str value)
                         | Some _, _ => raise AttributeError
                         | None, _ => py_repr fuel' child
                         end ;;
                    ret (tc_name c +:+ "(" +:+ a +:+ ")(" +:+ r +:+ ")")
              | _CompositeTag =>
                  children <- getattr o_children self ;;
                  p <- getattr o_props self ;;
                  a <- lift (tmf_props p) ;;
                  match children with
                  | [] => ret (tc_name c +:+ "(" +:+ a +:+ ")")
                  | _ =>
                      rs <- (fix all (cs : list pyval) : M (list string) :=
                               match cs with
                               | [] => ret []
                               | x :: rest =>
                                   r <- py_repr fuel' x ;;
                                   rs <- all rest ;;
                                   ret (r :: rs)
                               end) children ;;
                      ret (tc_name c +:+ "(" +:+ a +:+ ")(" +:+
                           join "," rs +:+ ")")
                  end
              end
          end
      end
  end.

(** [str(v)] as an operation of the program, from a state. *)
Definition render (v : pyval) (st : state) : result string :=
  fst (py_str v st).

(** [a == b] and [a is b] on two citizens, from a state. *)
Definition equal (a b : addr) (st : state) : bool :=
  __eq__ (heap st) a (VRef b).

Definition same_object (a b : addr) : bool := Nat.eqb a b.

(** Whether the tag at [a] has an attribute named [self], flag or not: its
    attributes are the keywords [__call__] gives to the class it makes. *)
Definition clashing (h : list object) (a : addr) : bool :=
  match h !! a ≫= o_props with
  | Some p => clashes p
  | None => false
  end.

(** ** The rendered forms *)

Definition leaf_html (c : tagclass) (p : list (string * option string))
  : string :=
  "<" +:+ tc_tagname c +:+ fmt_props p +:+ " />".

Definition tag_html (c : tagclass) (p : list (string * option string))
    (body : string) : string :=
  "<" +:+ tc_tagname c +:+ fmt_props p +:+ ">" +:+ body
      +:+ "</" +:+ tc_tagname c +:+ ">".

Definition html_at (h : list object) (a : addr) : option string :=
  h !! a ≫= o_html.

(** [str(v)], read off a heap. *)
Definition text_of (h : list object) (v : pyval) : string :=
  match v with
  | VNone => "None"
  | VStr s => s
  | VBytes b => repr_bytes b
  | VInt z => str_of_int z
  | VList items => "[" +:+ join ", " (map str_of_int items) +:+ "]"
  | VRef a => default "" (html_at h a)
  end.

(** What one content argument contributes to the rendered text of the tag
    it is passed to: a string is escaped, bytes are decoded and taken as
    they are, anything else gives its [str]. *)
Definition content_text (h : list object) (c : pyval) : string :=
  match c with
  | VStr s => escape s
  | VBytes b => b
  | _ => text_of h c
  end.

Fixpoint concat_str (parts : list string) : string :=
  match parts with
  | [] => ""
  | p :: rest => p +:+ concat_str rest
  end.

(** ** Invariants of the states the API produces *)

(** A reference points into the heap. *)
Definition val_alloc (h : list object) (v : pyval) : Prop :=
  match v with
  | VRef a => a < length h
  | _ => True
  end.

Definition key_alloc (h : list object) (k : key) : Prop :=
  Forall (val_alloc h) (fst k).

(** The data model: every citizen carries its rendered text and the hash of
    that text, and the text is the one its kind prescribes. *)
Definition obj_ok (h : list object) (o : object) : Prop :=
  exists s,
    o_html o = Some s /\ o_hash o = Some (hash_str s) /\
    match o_class o with
    | cls_RawText => o_value o = Some s
    | cls_Text => exists v, o_value o = Some v /\ s = escape v
    | cls_Comment =>
        exists v, o_value o = Some v /\ s = "<!-- " +:+ escape v +:+ " -->"
    | cls_DocType =>
        exists p, o_props o = Some p /\ s = "<!DOCTYPE" +:+ fmt_props p +:+ ">"
    | cls_Tag c =>
        exists p, o_props o = Some p /\
          match tc_base c with
          | _LeafTag => s = leaf_html c p
          | _SingleChildTag =>
              exists child, o_child o = Some child /\ val_alloc h child /\
                s = tag_html c p (text_of h child) /\
                (tc_ident c = Static -> text_of h child = "")
          | _CompositeTag =>
              exists children, o_children o = Some children /\
                Forall (val_alloc h) children /\
                s = tag_html c p (concat_str (map (text_of h) children)) /\
                (tc_ident c = Static -> children = [])
          end
    end.

(** The class [type] makes from [cls] at its [n]-th call. *)
Definition clone (n : nat) (cls : tagclass) : tagclass :=
  {| tc_ident := Dynamic n; tc_name := tc_name cls; tc_base := tc_base cls;
     tc_tagname := tc_tagname cls; tc_raw_call := tc_raw_call cls |}.

(** [o] is what calling the tag at [s] with content rendering as [body]
    returns: an instance of a class cloned from the class of [s], other
    than that class, rendering as the opening tag of [s], [body], and the
    closing tag. *)
Definition called (h : list object) (s : addr) (body : string) (o : object)
  : Prop :=
  exists os cs p n,
    h !! s = Some os /\ o_class os = cls_Tag cs /\ tc_base cs <> _LeafTag /\
    o_props os = Some p /\
    o_class o = cls_Tag (clone n cs) /\ tc_ident cs <> Dynamic n /\
    o_html o = Some (tag_html cs p body).

(** What each cache may hold under a key. *)
Definition entry_spec (h : list object) (f : cached) (k : key) (o : object)
  : Prop :=
  match f with
  | C_RawText =>
      exists s, k = ([VStr s], []) /\
        o_class o = cls_RawText /\ o_html o = Some s
  | C_Text =>
      exists s, k = ([VStr s], []) /\
        o_class o = cls_Text /\ o_html o = Some (escape s)
  | C_Comment =>
      exists s, k = ([VStr s], []) /\
        o_class o = cls_Comment /\
        o_html o = Some ("<!-- " +:+ escape s +:+ " -->")
  | C_class name =>
      exists d attrs props,
        find_def name = Some d /\ k = ctor_key attrs props /\
        o_class o = cls_Tag (class_of_def d) /\
        o_props o = Some (set_flags attrs props) /\
        o_html o =
          Some (match cd_base d with
                | _LeafTag => leaf_html (class_of_def d) (set_flags attrs props)
                | _ => tag_html (class_of_def d) (set_flags attrs props) ""
                end)
  | C_SingleChildTag_call =>
      exists s c, k = ([VRef s; c], []) /\ called h s (content_text h c) o
  | C_CompositeTag_call =>
      exists s cs, k = (VRef s :: cs, []) /\
        called h s (concat_str (map (content_text h) cs)) o
  | C_raw_call owner =>
      exists s child, k = ([VRef s; VStr child], []) /\ called h s child o
  end.

Definition entry_ok (h : list object) (f : cached) (k : key) (r : pyval)
  : Prop :=
  exists a o, r = VRef a /\ h !! a = Some o /\ key_alloc h k /\
    entry_spec h f k o.

Record wf (st : state) : Prop := {
  wf_heap : forall a o, heap st !! a = Some o -> obj_ok (heap st) o;
  wf_fresh : forall a o c n,
    heap st !! a = Some o -> o_class o = cls_Tag c ->
    tc_ident c = Dynamic n -> n < nclass st;
  wf_unique : forall a b oa ob ca cb n,
    heap st !! a = Some oa -> heap st !! b = Some ob ->
    o_class oa = cls_Tag ca -> o_class ob = cls_Tag cb ->
    tc_ident ca = Dynamic n -> tc_ident cb = Dynamic n -> a = b;
  wf_cache : forall f k r, (k, r) ∈ caches st f -> entry_ok (heap st) f k r
}.

(** [st'] was reached from [st]: the heap grew at its end, and [type] was
    called some more times. *)
Definition extends (st st' : state) : Prop :=
  (exists news, heap st' = heap st ++ news) /\ nclass st <= nclass st'.

(** The content arguments the call specification covers: strings, bytes
    that decode, and anything hashable that lives in the heap if it is a
    reference. *)
Definition content_ok (h : list object) (c : pyval) : Prop :=
  hashable c = true /\ val_alloc h c /\
  match c with
  | VBytes b => valid_utf8 b = true
  | _ => True
  end.

(** The admissible content arguments: a string, bytes, or a node. *)
Definition admissible (h : list object) (c : pyval) : Prop :=
  match c with
  | VStr _ => True
  | VBytes b => valid_utf8 b = true
  | VRef a => a < length h
  | _ => False
  end.

(** A tag whose [__call__] is the one of its base. *)
Definition plain_tag (b : base) (h : list object) (a : addr) : Prop :=
  exists o c, h !! a = Some o /\ o_class o = cls_Tag c /\
    tc_base c = b /\ tc_raw_call c = None.

(** The calls with content that the specification covers, and what the
    content renders as between the tags: a tag with the inherited
    [__call__] takes strings, bytes that decode and nodes (exactly one of
    them if it is a single-child tag), strings escaped; [Script] and
    [Style], as their constructors make them, take one string, kept as it
    is. *)
Definition covered (h : list object) (self : addr) (args : list pyval)
    (body : string) : Prop :=
  (exists b,
      plain_tag b h self /\ b <> _LeafTag /\ Forall (admissible h) args /\
      (b = _SingleChildTag -> length args = 1) /\
      body = concat_str (map (content_text h) args))
  \/ (exists o d child,
        h !! self = Some o /\ find_def (cd_name d) = Some d /\
        cd_raw d = true /\ cd_base d = _SingleChildTag /\
        o_class o = cls_Tag (class_of_def d) /\
        args = [VStr child] /\ body = child).

(** The object a text class leaves in the heap. *)
Definition text_obj (c : pyclass) (value html : string) : object :=
  {| o_class := c; o_value := Some value; o_props := None; o_child := None;
     o_children := None; o_hash := Some (hash_str html);
     o_html := Some html |}.

(** A citizen that is not a tag. *)
Definition no_tag (o : object) : Prop := forall c, o_class o <> cls_Tag c.

(** Values without references are equal only to themselves. *)
Definition pure_val (v : pyval) : Prop :=
  match v with
  | VRef _ => False
  | _ => True
  end.

(** The rendered text of a tag that was just constructed. *)
Definition fresh_html (c : tagclass) (p : list (string * option string))
  : string :=
  match tc_base c with
  | _LeafTag => leaf_html c p
  | _ => tag_html c p ""
  end.

(** The names of a list in the order of their first occurrence. *)
Definition first_occurrences (names : list string) : list string :=
  fold_left (fun acc k => if bool_decide (k ∈ acc) then acc else acc ++ [k])
            names [].

(** A flag attribute. *)
Definition flag (k : string) : string * option string := (k, None).

(** ** Sessions

    What a session of the examples at the end computes: the rendered text
    of the value an expression returns from the initial state, and the
    states some sequences of calls lead to. *)

Definition rendered (m : M pyval) : result string :=
  match m initial with
  | (Ok v, st) => render v st
  | (Raise e, _) => Raise e
  end.

(** [Div()], and then [_RawText("<b>")]. *)
Definition after_Div : state := snd (construct "Div" [] [] initial).

Definition after_Div_raw : state := snd (_RawText "<b>" after_Div).

(** [Div(x="1", y="2")], then [Div( **{'x="1" y': "2"} )]. *)
Definition two_Divs : state :=
  snd (construct "Div" [] [("x=" +:+ DQ +:+ "1" +:+ DQ +:+ " y", Some "2")]
         (snd (construct "Div" [] [("x", Some "1"); ("y", Some "2")]
                 initial))).

(** [_RawText("a")], then [_Text("a")]. *)
Definition raw_and_text : state :=
  snd (_Text "a" (snd (_RawText "a" initial))).

(** [Div(id="x")]. *)
Definition after_Div_id : state :=
  snd (construct "Div" [] [("id", Some "x")] initial).

(** [Div("self")]. *)
Definition after_Div_self : state :=
  snd (construct "Div" ["self"] [] initial).

(** ** Properties of rendered text *)

(** Text that can stand between tags and inside a quoted attribute value
    of HTML: it has none of [<], [>], the double quote and the single
    quote, and each of its ampersands begins one of the five entities. *)
Fixpoint safe_text (s : string) : bool :=
  match s with
  | EmptyString => true
  | String c rest =>
      (if Ascii.eqb c "&" then
         existsb (fun e => String.prefix e rest)
           ["amp;"; "lt;"; "gt;"; "quot;"; "#x27;"]
       else
         negb (Ascii.eqb c "<") && negb (Ascii.eqb c ">")
         && negb (Ascii.eqb c dquote) && negb (Ascii.eqb c "'"))
      && safe_text rest
  end.

(** ** Style sheets *)

(** A value of a declaration given to [style]: a [str], an iterable of
    strings (a tuple, say), or a value that cannot be iterated, such as an
    [int]. *)
Inductive style_value : Type :=
| SStr (s : string)
| SSeq (items : list string)
| SInt (z : Z).

(** One item of the generator in [style]:
    [f"{k}:{repr(v)}" if isinstance(v, str)
     else f"{k}:{','.join(map(repr, v))}"]. *)
Definition style_item (k : string) (v : style_value) : result string :=
  match v with
  | SStr s => Ok (k +:+ ":" +:+ repr_str s)
  | SSeq items => Ok (k +:+ ":" +:+ join "," (map repr_str items))
  | SInt _ => Raise TypeError
  end.

(** The items of a generator, in order, up to the first that raises. *)
Fixpoint generate {A B} (f : A -> result B) (l : list A) : result (list B) :=
  match l with
  | [] => Ok []
  | x :: rest =>
      match f x with
      | Raise e => Raise e
      | Ok y =>
          match generate f rest with
          | Raise e => Raise e
          | Ok ys => Ok (y :: ys)
          end
      end
  end.

(** [style( **code )]. *)
Definition style (code : list (string * style_value)) : result string :=
  match generate (fun kv => style_item (fst kv) (snd kv)) code with
  | Raise e => Raise e
  | Ok items => Ok (join ";" items +:+ ";")
  end.

(** One item of the generator in [css]: [f"{k}{{{style( **(code[k]))}}}"]. *)
Definition css_rule (k : string) (body : list (string * style_value))
  : result string :=
  match style body with
  | Raise e => Raise e
  | Ok s => Ok (k +:+ "{" +:+ s +:+ "}")
  end.

(** [css( **code )]. *)
Definition css (code : list (string * list (string * style_value)))
  : result string :=
  match generate (fun kv => css_rule (fst kv) (snd kv)) code with
  | Raise e => Raise e
  | Ok rules => Ok (concat_str rules)
  end.

(** A declaration whose value cannot be iterated. *)
Definition not_iterable (kv : string * style_value) : Prop :=
  exists z, snd kv = SInt z.

(** ** Nodes are never changed *)

(** An operation that leaves every object of the heap as it was, whatever
    it returns or raises. *)
Definition preserves_nodes {A} (m : M A) : Prop :=
  forall st a o, heap st !! a = Some o -> heap (snd (m st)) !! a = Some o.

(** From a heap that begins with [h0], the operation [m] leaves a heap that
    begins with [h0], and what it returns satisfies [Q]. *)
Definition framed {A} (h0 : list object) (Q : A -> Prop) (m : M A) : Prop :=
  forall st, (exists l, heap st = h0 ++ l) ->
    (exists l, heap (snd (m st)) = h0 ++ l) /\
    (forall a, fst (m st) = Ok a -> Q a).

(** Returned by an operation that allocates: an address beyond [h0]. *)
Definition beyond (h0 : list object) (a : addr) : Prop := length h0 <= a.

(** Nothing is demanded of what an operation returns. *)
Definition any {A} (a : A) : Prop := True.

(** The calls the model follows step by step.  [call] answers two kinds of
    calls without following the code: [Script] and [Style] given one
    hashable value that is not a string (the code stores it in a raw text,
    makes the node, and raises [TypeError] when it renders it), and
    content that holds an integer [str] may refuse to convert. *)
Definition followed (h : list object) (f : pyval) (args : list pyval)
  : Prop :=
  Forall (fun v => match v with VInt z => converts z | _ => True end) args /\
  match f with
  | VRef self =>
      forall o c owner,
        h !! self = Some o -> o_class o = cls_Tag c ->
        tc_raw_call c = Some owner ->
        (exists child, args = [VStr child]) \/ length args <> 1
        \/ Exists (fun v => hashable v = false) args
  | _ => True
  end.

(** ** The states a session reaches *)

(** The states that the constructors and the calls with content lead to
    from the initial one. *)
Inductive reachable : state -> Prop :=
| reach_initial : reachable initial
| reach_construct st name d attrs props :
    reachable st -> find_def name = Some d ->
    reachable (snd (construct name attrs props st))
| reach_Text st s : reachable st -> reachable (snd (_Text s st))
| reach_RawText st s : reachable st -> reachable (snd (_RawText s st))
| reach_Comment st s : reachable st -> reachable (snd (_Comment s st))
| reach_DocType st attrs : reachable st -> reachable (snd (DocType attrs st))
| reach_call st self args body :
    reachable st -> covered (heap st) self args body ->
    clashing (heap st) self = false ->
    reachable (snd (call (VRef self) args st)).

(** [Sub()] twice. *)
Definition two_Subs : state :=
  snd (construct "Sub" [] [] (snd (construct "Sub" [] [] initial))).

(** ** Kinds of nodes *)

(** The kinds of the data model: raw text, text, comment, doctype, and the
    three kinds of tags. *)
Inductive kind : Type :=
| RawText_kind
| Text_kind
| Comment_kind
| DocType_kind
| Tag_kind (b : base).

Definition kind_of (c : pyclass) : kind :=
  match c with
  | cls_RawText => RawText_kind
  | cls_Text => Text_kind
  | cls_Comment => Comment_kind
  | cls_DocType => DocType_kind
  | cls_Tag t => Tag_kind (tc_base t)
  end.

(** A node whose class is one of the class statements of the module, which
    is what the constructors return; the class of a node returned by
    [__call__] is made by [type] in that call. *)
Definition constructed (o : object) : Prop :=
  match o_class o with
  | cls_Tag c => exists d, find_def (cd_name d) = Some d /\ c = class_of_def d
  | _ => True
  end.

(** The class statement with a given [tagname]. *)
Definition find_tagname (t : string) : option class_def :=
  find (fun d => String.eqb (cd_tagname d) t) catalog.

(** No [tagname] of the module holds a space or [>], and no two class
    statements have the same one. *)
Definition tagnames_ok : bool :=
  forallb (fun d =>
             negb (occurs " " (cd_tagname d))
             && negb (occurs ">" (cd_tagname d))
             && bool_decide (find_tagname (cd_tagname d) = Some d))
          catalog.

(** ** Strings: lemmas *)

Lemma append_assoc_s (a b c : string) : (a +:+ b) +:+ c = a +:+ (b +:+ c).
Proof. induction a as [|x a IH]; simpl; [reflexivity | now rewrite IH]. Qed.

Lemma append_nil_r (a : string) : a +:+ "" = a.
Proof. induction a as [|x a IH]; simpl; [reflexivity | now rewrite IH]. Qed.

Lemma length_append (a b : string) :
  String.length (a +:+ b) = String.length a + String.length b.
Proof. induction a as [|x a IH]; simpl; [reflexivity | now rewrite IH]. Qed.

Lemma append_inv_head (a x y : string) : a +:+ x = a +:+ y -> x = y.
Proof.
  induction a as [|c a IH]; simpl; intros H; [assumption|].
  injection H as H. auto.
Qed.

Lemma append_inv_tail (b x y : string) : x +:+ b = y +:+ b -> x = y.
Proof.
  revert y. induction x as [|c x IH]; intros [|d y] H; simpl in H.
  - reflexivity.
  - apply (f_equal String.length) in H. simpl in H.
    rewrite length_append in H. lia.
  - apply (f_equal String.length) in H. simpl in H.
    rewrite length_append in H. lia.
  - injection H as -> H. f_equal. auto.
Qed.

Lemma replace_append old new a b :
  replace old new (a +:+ b) = replace old new a +:+ replace old new b.
Proof.
  induction a as [|c a IH]; simpl; [reflexivity|].
  now rewrite IH, append_assoc_s.
Qed.

Lemma escape_cons c s : escape (String c s) = entity_of c +:+ escape s.
Proof.
  unfold escape, entity_of. simpl replace at 5.
  destruct (Ascii.eqb c "&") eqn:E1; simpl.
  { reflexivity. }
  destruct (Ascii.eqb c "<") eqn:E2; simpl.
  { reflexivity. }
  destruct (Ascii.eqb c ">") eqn:E3; simpl.
  { reflexivity. }
  destruct (Ascii.eqb c dquote) eqn:E4; simpl.
  { reflexivity. }
  destruct (Ascii.eqb c "'") eqn:E5; simpl; reflexivity.
Qed.

(** [escape] does what the specification says, character by character. *)
Lemma escape_escape_each s : escape s = escape_each s.
Proof.
  induction s as [|c s IH]; [reflexivity|].
  rewrite escape_cons. simpl. now rewrite IH.
Qed.

Lemma replace_backslash_quotes s :
  replace dquote ("\" +:+ DQ) s = backslash_quotes s.
Proof.
  induction s as [|c s IH]; simpl in *; [reflexivity | now rewrite IH].
Qed.

(** The character class of the regular expression holds the 53 characters
    and no other: checked on each of the 256 characters. *)
Lemma is_letter_or_underscore_spec (c : ascii) :
  is_letter_or_underscore c = occurs c letters_and_underscore.
Proof.
  destruct c as [[] [] [] [] [] [] [] []]; vm_compute; reflexivity.
Qed.

Lemma re_sub_only_letters key :
  str_truthy (re_sub is_letter_or_underscore "" key) = negb (only_letters key).
Proof.
  induction key as [|c key IH]; [reflexivity|].
  cbn [re_sub only_letters]. rewrite <- is_letter_or_underscore_spec.
  destruct (is_letter_or_underscore c); simpl; [assumption | reflexivity].
Qed.

(** ** The heap: lemmas *)

Lemma lookup_mid (h : list object) o l : (h ++ o :: l) !! length h = Some o.
Proof. induction h as [|x h IH]; simpl; auto. Qed.

Lemma insert_mid (h : list object) o o' l :
  <[length h := o']> (h ++ o :: l) = h ++ o' :: l.
Proof. induction h as [|x h IH]; simpl; [reflexivity | now rewrite IH]. Qed.

Lemma lookup_old (h l : list object) a o :
  h !! a = Some o -> (h ++ l) !! a = Some o.
Proof. intros H. now apply lookup_app_l_Some. Qed.

Lemma lookup_below (h l : list object) a :
  a < length h -> (h ++ l) !! a = h !! a.
Proof. intros H. now apply lookup_app_l. Qed.

Lemma lookup_alloc (h : list object) a o : h !! a = Some o -> a < length h.
Proof. intros H. eapply lookup_lt_Some, H. Qed.

(** ** Running the primitives *)

Lemma bind_ok {A B} (m : M A) (f : A -> M B) st a st' :
  m st = (Ok a, st') -> bind m f st = f a st'.
Proof. intros H. unfold bind. now rewrite H. Qed.

Lemma bind_raise {A B} (m : M A) (f : A -> M B) st e st' :
  m st = (Raise e, st') -> bind m f st = (Raise e, st').
Proof. intros H. unfold bind. now rewrite H. Qed.

Lemma object_setattr_mid st h o l w :
  heap st = h ++ o :: l ->
  object_setattr (length h) w st
  = (Ok tt, set_heap (h ++ write_slot w o :: l) st).
Proof.
  intros H. unfold object_setattr. now rewrite H, lookup_mid, insert_mid.
Qed.

Lemma deref_ok st a o : heap st !! a = Some o -> deref a st = (Ok o, st).
Proof. intros H. unfold deref. now rewrite H. Qed.

Lemma getattr_ok {A} (slot : object -> option A) st a o v :
  heap st !! a = Some o -> slot o = Some v -> getattr slot a st = (Ok v, st).
Proof.
  intros H Hs. unfold getattr. rewrite (bind_ok _ _ _ _ _ (deref_ok _ _ _ H)).
  now rewrite Hs.
Qed.

Lemma tagname_ok st a o c :
  heap st !! a = Some o -> o_class o = cls_Tag c ->
  tagname a st = (Ok (tc_tagname c), st).
Proof.
  intros H Hc. unfold tagname. rewrite (bind_ok _ _ _ _ _ (deref_ok _ _ _ H)).
  now rewrite Hc.
Qed.

Lemma class_of_ok st a o c :
  heap st !! a = Some o -> o_class o = cls_Tag c ->
  class_of a st = (Ok c, st).
Proof.
  intros H Hc. unfold class_of. rewrite (bind_ok _ _ _ _ _ (deref_ok _ _ _ H)).
  now rewrite Hc.
Qed.


Lemma set_dom_mid st h o l html :
  heap st = h ++ o :: l ->
  _set_dom_properties (length h) html st
  = (Ok tt,
     set_heap (h ++ write_slot (W_html html)
                      (write_slot (W_hash (hash_str html)) o) :: l) st).
Proof.
  intros H. unfold _set_dom_properties.
  rewrite (bind_ok _ _ _ _ _ (object_setattr_mid _ _ _ _ _ H)).
  erewrite object_setattr_mid by reflexivity. reflexivity.
Qed.

Lemma new_text_run c value html st :
  new c (fun self => _setattr self (W_value value) ;;
                     _set_dom_properties self html) st
  = (Ok (length (heap st)),
     set_heap (heap st ++ [text_obj c value html]) st).
Proof.
  unfold new, _setattr.
  rewrite (bind_ok _ _ st (length (heap st))
             (set_heap (heap st ++ [blank c]) st)) by reflexivity.
  erewrite bind_ok; cycle 1.
  { erewrite bind_ok by (apply object_setattr_mid; reflexivity).
    apply set_dom_mid. reflexivity. }
  reflexivity.
Qed.

(** ** Growing the heap *)

Lemma val_alloc_mono h l v : val_alloc h v -> val_alloc (h ++ l) v.
Proof. destruct v; simpl; auto. rewrite length_app. lia. Qed.

Lemma key_alloc_mono h l k : key_alloc h k -> key_alloc (h ++ l) k.
Proof.
  unfold key_alloc. intros H. eapply Forall_impl; [exact H|].
  intros v. apply val_alloc_mono.
Qed.

Lemma html_at_below h l a : a < length h -> html_at (h ++ l) a = html_at h a.
Proof. intros H. unfold html_at. now rewrite lookup_below. Qed.

Lemma text_of_mono h l v : val_alloc h v -> text_of (h ++ l) v = text_of h v.
Proof. destruct v; simpl; auto. intros H. now rewrite html_at_below. Qed.

Lemma content_text_mono h l v :
  val_alloc h v -> content_text (h ++ l) v = content_text h v.
Proof. destruct v; simpl; auto. intros H. now rewrite html_at_below. Qed.

Lemma map_text_of_mono h l vs :
  Forall (val_alloc h) vs -> map (text_of (h ++ l)) vs = map (text_of h) vs.
Proof.
  induction 1 as [|v vs Hv _ IH]; simpl; [reflexivity|].
  now rewrite IH, text_of_mono.
Qed.

Lemma map_content_text_mono h l vs :
  Forall (val_alloc h) vs ->
  map (content_text (h ++ l)) vs = map (content_text h) vs.
Proof.
  induction 1 as [|v vs Hv _ IH]; simpl; [reflexivity|].
  now rewrite IH, content_text_mono.
Qed.

Lemma obj_ok_mono h l o : obj_ok h o -> obj_ok (h ++ l) o.
Proof.
  intros (s & Hs & Hh & Hc). exists s. repeat split; auto.
  destruct (o_class o) as [| | | |c]; auto.
  destruct Hc as (p & Hp & Hc). exists p. split; auto.
  destruct (tc_base c); auto.
  - destruct Hc as (ch & H1 & H2 & H3 & H4). exists ch.
    rewrite text_of_mono by assumption. auto using val_alloc_mono.
  - destruct Hc as (chs & H1 & H2 & H3 & H4). exists chs.
    rewrite map_text_of_mono by assumption. repeat split; auto.
    eapply Forall_impl; [exact H2|]. intros v. apply val_alloc_mono.
Qed.

Lemma called_mono h l s body o : called h s body o -> called (h ++ l) s body o.
Proof.
  intros (os & cs & p & n & H1 & H2 & H3 & H4 & H5 & H6 & H7).
  exists os, cs, p, n. repeat split; auto using lookup_old.
Qed.

Lemma entry_spec_mono h l f k o :
  key_alloc h k -> entry_spec h f k o -> entry_spec (h ++ l) f k o.
Proof.
  intros Hk. destruct f; simpl; auto.
  - intros (s & c & -> & H). exists s, c. split; auto.
    unfold key_alloc in Hk. simpl in Hk.
    apply Forall_cons in Hk as [_ Hk]. apply Forall_cons in Hk as [Hc _].
    rewrite content_text_mono by assumption. now apply called_mono.
  - intros (s & cs & -> & H). exists s, cs. split; auto.
    unfold key_alloc in Hk. simpl in Hk.
    apply Forall_cons in Hk as [_ Hk].
    rewrite map_content_text_mono by assumption. now apply called_mono.
  - intros (s & ch & -> & H). exists s, ch. split; auto.
    now apply called_mono.
Qed.

Lemma entry_ok_mono h l f k r : entry_ok h f k r -> entry_ok (h ++ l) f k r.
Proof.
  intros (a & o & -> & Ha & Hk & Hs). exists a, o.
  repeat split; auto using lookup_old, key_alloc_mono, entry_spec_mono.
Qed.


(** The invariant survives an operation that appended one object, then
    objects that are not tags, provided the new objects are in order, a new
    dynamic class is a fresh one, and the new cache entries are in order. *)
Lemma wf_grow st st' o l :
  wf st ->
  heap st' = heap st ++ o :: l ->
  nclass st <= nclass st' ->
  obj_ok (heap st') o ->
  Forall (fun x => obj_ok (heap st') x /\ no_tag x) l ->
  (forall c n, o_class o = cls_Tag c -> tc_ident c = Dynamic n ->
     nclass st <= n < nclass st') ->
  (forall f k r, (k, r) ∈ caches st' f ->
     (k, r) ∈ caches st f \/ entry_ok (heap st') f k r) ->
  wf st'.
Proof.
  intros W Hh Hn Ho Hl Hd Hc.
  assert (Hcase : forall a x, heap st' !! a = Some x ->
            heap st !! a = Some x \/ (a = length (heap st) /\ x = o)
            \/ (x ∈ l)).
  { intros a x Hx. rewrite Hh in Hx.
    apply lookup_app_Some in Hx as [Hx | [Hle Hx]]; [now left | right].
    destruct (a - length (heap st)) as [|i] eqn:Ei; simpl in Hx.
    - left. split; [lia | congruence].
    - right. eapply list_elem_of_lookup_2, Hx. }
  assert (Hnt : forall x c, x ∈ l -> o_class x = cls_Tag c -> False).
  { intros x c Hx Hcl. rewrite Forall_forall in Hl.
    destruct (Hl x Hx) as [_ Hno]. exact (Hno c Hcl). }
  split.
  - intros a x Hx. destruct (Hcase a x Hx) as [H | [[_ ->] | H]].
    + rewrite Hh. apply obj_ok_mono. eapply wf_heap; eauto.
    + assumption.
    + rewrite Forall_forall in Hl. now apply Hl.
  - intros a x c n Hx Hcl Hid.
    destruct (Hcase a x Hx) as [H | [[_ ->] | H]].
    + pose proof (wf_fresh st W a x c n H Hcl Hid). lia.
    + apply (Hd c n Hcl Hid).
    + destruct (Hnt x c H Hcl).
  - intros a b oa ob ca cb n Ha Hb Hca Hcb Hia Hib.
    destruct (Hcase a oa Ha) as [H | [[-> ->] | H]];
      destruct (Hcase b ob Hb) as [H' | [[-> ->] | H']];
      try (exfalso; eapply Hnt; eassumption); try reflexivity.
    + eapply (wf_unique st W); eassumption.
    + pose proof (wf_fresh st W a oa ca n H Hca Hia).
      pose proof (Hd cb n Hcb Hib). lia.
    + pose proof (wf_fresh st W b ob cb n H' Hcb Hib).
      pose proof (Hd ca n Hca Hia). lia.
  - intros f k r Hin. destruct (Hc f k r Hin) as [H | H]; [|assumption].
    rewrite Hh. apply entry_ok_mono. eapply wf_cache; eauto.
Qed.

(** Changing a cache only. *)
Lemma wf_set_cache st f c :
  wf st ->
  (forall k r, (k, r) ∈ c ->
     (k, r) ∈ caches st f \/ entry_ok (heap st) f k r) ->
  wf (set_cache f c st).
Proof.
  intros W Hc. split; simpl.
  - apply (wf_heap st W).
  - apply (wf_fresh st W).
  - apply (wf_unique st W).
  - intros g k r. destruct (decide (g = f)) as [->|Hne].
    + intros Hin. destruct (Hc k r Hin) as [H | H]; [|assumption].
      eapply wf_cache; eauto.
    + apply (wf_cache st W).
Qed.

Lemma wf_initial : wf initial.
Proof.
  split; simpl; intros *.
  - rewrite lookup_nil. discriminate.
  - rewrite lookup_nil. discriminate.
  - rewrite lookup_nil. discriminate.
  - intros H. apply elem_of_nil in H. destruct H.
Qed.

Lemma extends_refl st : extends st st.
Proof. split; [exists []; now rewrite app_nil_r | lia]. Qed.

Lemma extends_trans st1 st2 st3 :
  extends st1 st2 -> extends st2 st3 -> extends st1 st3.
Proof.
  intros [[l1 H1] N1] [[l2 H2] N2]. split; [|lia].
  exists (l1 ++ l2). now rewrite H2, H1, app_assoc.
Qed.

Lemma extends_lookup st st' a o :
  extends st st' -> heap st !! a = Some o -> heap st' !! a = Some o.
Proof. intros [[l H] _] Ha. rewrite H. now apply lookup_old. Qed.

Lemma extends_length st st' :
  extends st st' -> length (heap st) <= length (heap st').
Proof. intros [[l H] _]. rewrite H, length_app. lia. Qed.

(** ** The caches: lemmas *)

Lemma py_eq_refl h v : py_eq h v v = true.
Proof.
  destruct v; simpl; auto using String.eqb_refl, Z.eqb_refl.
  - now apply bool_decide_eq_true.
  - now rewrite Nat.eqb_refl.
Qed.

Lemma args_eq_refl h vs : args_eq h vs vs = true.
Proof. induction vs; simpl; [reflexivity|]. now rewrite py_eq_refl. Qed.

Lemma kwds_eq_refl h kw : kwds_eq h kw kw = true.
Proof.
  induction kw as [|[k v] kw IH]; simpl; [reflexivity|].
  now rewrite String.eqb_refl, py_eq_refl.
Qed.

Lemma key_eq_refl h k : key_eq h k k = true.
Proof. unfold key_eq. now rewrite args_eq_refl, kwds_eq_refl. Qed.


Lemma py_eq_pure h v w : pure_val w -> py_eq h v w = true -> v = w.
Proof.
  destruct v, w; simpl; try discriminate; try tauto; intros _ H.
  - apply String.eqb_eq in H. now subst.
  - apply String.eqb_eq in H. now subst.
  - apply Z.eqb_eq in H. now subst.
  - apply bool_decide_eq_true in H. now subst.
Qed.

Lemma args_eq_pure h vs ws :
  Forall pure_val ws -> args_eq h vs ws = true -> vs = ws.
Proof.
  revert ws. induction vs as [|v vs IH]; intros [|w ws] Hp H;
    simpl in H; try discriminate; [reflexivity|].
  apply andb_true_iff in H as [H1 H2].
  apply Forall_cons in Hp as [Hw Hp].
  f_equal; [eapply py_eq_pure; eauto | auto].
Qed.

Lemma kwds_eq_pure h kw kw' :
  Forall (fun x => pure_val (snd x)) kw' -> kwds_eq h kw kw' = true ->
  kw = kw'.
Proof.
  revert kw'. induction kw as [|[k v] kw IH]; intros [|[k' w] kw'] Hp H;
    simpl in H; try discriminate; [reflexivity|].
  apply andb_true_iff in H as [H H3]. apply andb_true_iff in H as [H1 H2].
  apply Forall_cons in Hp as [Hw Hp]. simpl in Hw.
  apply String.eqb_eq in H1. subst k'.
  f_equal; [f_equal; eapply py_eq_pure; eauto | auto].
Qed.

Lemma key_eq_pure h k k' :
  Forall pure_val (fst k') -> Forall (fun x => pure_val (snd x)) (snd k') ->
  key_eq h k k' = true -> k = k'.
Proof.
  destruct k as [a kw], k' as [a' kw']. unfold key_eq. simpl.
  intros Ha Hk H. apply andb_true_iff in H as [H1 H2].
  f_equal; [eapply args_eq_pure | eapply kwds_eq_pure]; eauto.
Qed.

Lemma lru_find_Some h k c e rest :
  lru_find h k c = Some (e, rest) ->
  key_eq h (fst e) k = true /\ e ∈ c /\ (forall x, x ∈ rest -> x ∈ c).
Proof.
  revert e rest. induction c as [|x c IH]; intros e rest H; simpl in H.
  - discriminate.
  - destruct (key_eq h (fst x) k) eqn:E.
    + injection H as <- <-. repeat split; auto.
      * apply list_elem_of_here.
      * intros y Hy. now apply list_elem_of_further.
    + destruct (lru_find h k c) as [[e' rest']|] eqn:F; [|discriminate].
      injection H as <- <-. destruct (IH _ _ eq_refl) as (H1 & H2 & H3).
      repeat split; auto.
      * now apply list_elem_of_further.
      * intros y Hy. apply elem_of_cons in Hy as [->|Hy].
        -- apply list_elem_of_here.
        -- apply list_elem_of_further. auto.
Qed.

(** The two ways through the cache. *)
Lemma lru_cache_cases f k body st :
  key_hashable k = true ->
  (exists e rest,
      lru_find (heap st) k (caches st f) = Some (e, rest) /\
      lru_cache f k body st = (Ok (snd e), set_cache f (e :: rest) st))
  \/ (lru_find (heap st) k (caches st f) = None /\
      lru_cache f k body st =
      match body st with
      | (Ok r, st') =>
          (Ok r,
           set_cache f (take MAX_CACHE_SIZE ((k, r) :: caches st' f)) st')
      | (Raise e, st') => (Raise e, st')
      end).
Proof.
  intros Hk. unfold lru_cache. rewrite Hk. simpl.
  destruct (lru_find (heap st) k (caches st f)) as [[e rest]|] eqn:F.
  - left. eauto.
  - right. auto.
Qed.

Lemma lru_cache_unhashable f k body st :
  key_hashable k = false -> lru_cache f k body st = (Raise TypeError, st).
Proof. intros Hk. unfold lru_cache. now rewrite Hk. Qed.

Lemma extends_set_cache st f c : extends st (set_cache f c st).
Proof. split; simpl; [exists []; now rewrite app_nil_r | lia]. Qed.

Lemma elem_of_take_cons {A} (n : nat) (x y : A) (l : list A) :
  y ∈ take n (x :: l) -> y = x \/ y ∈ l.
Proof.
  intros H. apply list_elem_of_lookup in H as [i H].
  apply lookup_take_Some in H as [H _].
  destruct i; simpl in H.
  - left. congruence.
  - right. eapply list_elem_of_lookup_2, H.
Qed.

(** A cached function, from a state in order: the result is a citizen that
    meets the function's specification for the key of the call. *)
Lemma lru_cache_spec f k body st :
  wf st -> key_hashable k = true -> key_alloc (heap st) k ->
  (forall k0 o, key_alloc (heap st) k0 -> key_eq (heap st) k0 k = true ->
     entry_spec (heap st) f k0 o -> entry_spec (heap st) f k o) ->
  (exists a st1 o,
      body st = (Ok (VRef a), st1) /\ wf st1 /\ extends st st1 /\
      heap st1 !! a = Some o /\ entry_spec (heap st1) f k o) ->
  exists a st' o,
    lru_cache f k body st = (Ok (VRef a), st') /\ wf st' /\ extends st st' /\
    heap st' !! a = Some o /\ entry_spec (heap st') f k o.
Proof.
  intros W Hk Ha Htr (a & st1 & o & Hb & W1 & E1 & Ho & Hs).
  destruct (lru_cache_cases f k body st Hk)
    as [(e & rest & F & ->) | (F & ->)].
  - apply lru_find_Some in F as (Heq & Hin & Hrest).
    destruct e as [k0 r]. simpl in *.
    destruct (wf_cache st W f k0 r Hin) as (a0 & o0 & -> & H0 & Hk0 & Hs0).
    exists a0, (set_cache f ((k0, VRef a0) :: rest) st), o0.
    splits; auto using extends_set_cache.
    + apply wf_set_cache; [assumption|]. intros k' r' Hin'.
      left. apply elem_of_cons in Hin' as [H|H]; [congruence | auto].
    + simpl. eauto.
  - rewrite Hb. eexists a, _, o. split; [reflexivity|].
    splits; auto.
    + apply wf_set_cache; [assumption|]. intros k' r' Hin'.
      apply elem_of_take_cons in Hin' as [H|H]; [right | now left].
      injection H as -> ->. exists a, o. splits; auto.
      destruct E1 as [[l ->] _]. now apply key_alloc_mono.
Qed.


Ltac step :=
  first
    [ erewrite bind_ok by (apply object_setattr_mid; reflexivity)
    | erewrite bind_ok by (apply set_dom_mid; reflexivity)
    | erewrite bind_ok by
        (eapply tagname_ok; [simpl; apply lookup_mid | reflexivity])
    | erewrite bind_ok by
        (eapply getattr_ok; [simpl; apply lookup_mid | reflexivity])
    | erewrite bind_ok by reflexivity ];
  simpl.

Lemma text_obj_ok h c value html :
  match c with
  | cls_RawText => html = value
  | cls_Text => html = escape value
  | cls_Comment => html = "<!-- " +:+ escape value +:+ " -->"
  | _ => False
  end ->
  obj_ok h (text_obj c value html) /\ no_tag (text_obj c value html).
Proof.
  intros H. split.
  - exists html. splits; try reflexivity.
    destruct c; simpl; try contradiction; subst; eauto.
  - intros c'. destruct c; simpl; try contradiction; discriminate.
Qed.

(** The escaped-text constructor, from any state whose text cache is in
    order: either the cache answers, or a new text object is appended. *)
Lemma _Text_cases s st :
  (forall k r, (k, r) ∈ caches st C_Text -> entry_ok (heap st) C_Text k r) ->
  (exists e rest t ot,
      _Text s st = (Ok (VRef t), set_cache C_Text (e :: rest) st) /\
      (forall x, x ∈ e :: rest -> x ∈ caches st C_Text) /\
      heap st !! t = Some ot /\ o_class ot = cls_Text /\
      o_html ot = Some (escape s))
  \/ _Text s st =
     (Ok (VRef (length (heap st))),
      set_cache C_Text
        (take MAX_CACHE_SIZE
           ((([VStr s], []), VRef (length (heap st))) :: caches st C_Text))
        (set_heap (heap st ++ [text_obj cls_Text s (escape s)]) st)).
Proof.
  intros Hc. unfold _Text.
  destruct (lru_cache_cases C_Text ([VStr s], [])
              (self <- new cls_Text (_Text__init__ s);; ret (VRef self)) st
              eq_refl) as [(e & rest & F & ->) | (F & ->)].
  - left. apply lru_find_Some in F as (Heq & Hin & Hrest).
    destruct e as [k0 r].
    destruct (Hc k0 r Hin) as (t & ot & -> & Ht & _ & (s' & -> & H1 & H2)).
    apply key_eq_pure in Heq; [|repeat constructor..].
    injection Heq as ->.
    exists ([VStr s], [], VRef t), rest, t, ot. splits; auto.
    intros x Hx. apply elem_of_cons in Hx as [->|Hx]; auto.
  - right. unfold _Text__init__.
    rewrite (bind_ok _ _ _ _ _ (new_text_run cls_Text s (escape s) st)).
    reflexivity.
Qed.

Lemma wf_append_text st c value html :
  wf st ->
  match c with
  | cls_RawText => html = value
  | cls_Text => html = escape value
  | cls_Comment => html = "<!-- " +:+ escape value +:+ " -->"
  | _ => False
  end ->
  wf (set_heap (heap st ++ [text_obj c value html]) st).
Proof.
  intros W H. eapply wf_grow with (l := []); eauto; simpl.
  - now apply text_obj_ok.
  - intros c' n Hc. destruct c; try contradiction; discriminate.
Qed.

Lemma extends_append st l : extends st (set_heap (heap st ++ l) st).
Proof. split; simpl; [eauto | lia]. Qed.

Lemma _Text_spec s st :
  wf st ->
  exists a st' o,
    _Text s st = (Ok (VRef a), st') /\ wf st' /\ extends st st' /\
    heap st' !! a = Some o /\ o_class o = cls_Text /\
    o_html o = Some (escape s).
Proof.
  intros W.
  destruct (_Text_cases s st (wf_cache st W C_Text))
    as [(e & rest & t & ot & -> & Hin & Ht & H1 & H2) | ->].
  - eexists t, _, ot. split; [reflexivity|].
    splits; auto using extends_set_cache.
    apply wf_set_cache; auto.
  - set (o := text_obj cls_Text s (escape s)).
    assert (W1 : wf (set_heap (heap st ++ [o]) st))
      by (apply wf_append_text; auto; reflexivity).
    eexists (length (heap st)), _, o. split; [reflexivity|]. splits.
    + apply wf_set_cache; [assumption|]. intros k r Hin.
      apply elem_of_take_cons in Hin as [H|H]; [right | now left].
      injection H as -> ->. simpl.
      exists (length (heap st)), o. splits; auto using lookup_mid.
      * repeat constructor.
      * simpl. exists s. auto.
    + apply (extends_append st [o]).
    + simpl. apply lookup_mid.
    + reflexivity.
    + reflexivity.
Qed.

Lemma _RawText_spec s st :
  wf st ->
  exists a st' o,
    _RawText s st = (Ok (VRef a), st') /\ wf st' /\ extends st st' /\
    heap st' !! a = Some o /\ o_class o = cls_RawText /\ o_html o = Some s.
Proof.
  intros W. unfold _RawText.
  edestruct (lru_cache_spec C_RawText ([VStr s], [])
               (self <- new cls_RawText (_RawText__init__ s);; ret (VRef self))
               st) as
    (a & st' & o & H & W' & E & Ho & (s' & Hk & H1 & H2));
    [exact W | reflexivity | repeat constructor | | |].
  - intros k0 o _ Heq Hs. apply key_eq_pure in Heq; [|repeat constructor..].
    now subst.
  - unfold _RawText__init__.
    eexists (length (heap st)), _, (text_obj cls_RawText s s).
    rewrite (bind_ok _ _ _ _ _ (new_text_run cls_RawText s s st)).
    split; [reflexivity|]. splits.
    + apply wf_append_text; auto.
    + apply extends_append.
    + simpl. apply lookup_mid.
    + simpl. eauto.
  - injection Hk as <-. exists a, st', o. splits; auto.
Qed.

Lemma _Comment_spec s st :
  wf st ->
  exists a st' o,
    _Comment s st = (Ok (VRef a), st') /\ wf st' /\ extends st st' /\
    heap st' !! a = Some o /\ o_class o = cls_Comment /\
    o_html o = Some ("<!-- " +:+ escape s +:+ " -->").
Proof.
  intros W. unfold _Comment.
  edestruct (lru_cache_spec C_Comment ([VStr s], [])
               (self <- new cls_Comment (_Comment__init__ s);; ret (VRef self))
               st) as
    (a & st' & o & H & W' & E & Ho & (s' & Hk & H1 & H2));
    [exact W | reflexivity | repeat constructor | | |].
  - intros k0 o _ Heq Hs. apply key_eq_pure in Heq; [|repeat constructor..].
    now subst.
  - unfold _Comment__init__.
    eexists (length (heap st)), _,
      (text_obj cls_Comment s ("<!-- " +:+ escape s +:+ " -->")).
    rewrite (bind_ok _ _ _ _ _
               (new_text_run cls_Comment s
                  ("<!-- " +:+ escape s +:+ " -->") st)).
    split; [reflexivity|]. splits.
    + apply wf_append_text; auto.
    + apply extends_append.
    + simpl. apply lookup_mid.
    + simpl. eauto.
  - injection Hk as <-. exists a, st', o. splits; auto.
Qed.

Lemma lookup_mid_next (h : list object) o x l :
  (h ++ o :: x :: l) !! S (length h) = Some x.
Proof. induction h as [|y h IH]; simpl; auto. Qed.

Lemma str_ref_ok st t ot s :
  heap st !! t = Some ot -> o_html ot = Some s ->
  py_str (VRef t) st = (Ok s, st).
Proof. intros H Hs. unfold py_str, __str__. eapply getattr_ok; eauto. Qed.

(** A class object called with attributes: the new tag goes at the end of
    the heap; a single-child tag may be followed there by the empty text it
    takes as its child.  Stated so that it still serves after the new tag
    is written to again. *)
Lemma instantiate_run c attrs props st :
  wf st -> clashes props = false ->
  exists st' o l,
    instantiate c attrs props st = (Ok (length (heap st)), st') /\
    heap st' = heap st ++ o :: l /\ nclass st' = nclass st /\
    o_class o = cls_Tag c /\ o_props o = Some (set_flags attrs props) /\
    o_html o =
      Some (match tc_base c with
            | _LeafTag => leaf_html c (set_flags attrs props)
            | _ => tag_html c (set_flags attrs props) ""
            end) /\
    o_hash o = hash_str <$> o_html o /\
    match tc_base c with
    | _LeafTag => True
    | _SingleChildTag =>
        exists t, o_child o = Some (VRef t) /\
          forall X, val_alloc (heap st ++ X :: l) (VRef t) /\
                    text_of (heap st ++ X :: l) (VRef t) = ""
    | _CompositeTag => o_children o = Some []
    end /\
    (forall X, Forall (fun x => obj_ok (heap st ++ X :: l) x /\ no_tag x) l) /\
    (forall X f k r, (k, r) ∈ caches st' f ->
       (k, r) ∈ caches st f \/ entry_ok (heap st ++ X :: l) f k r).
Proof.
  intros W Hcf. unfold instantiate, new. rewrite Hcf.
  rewrite (bind_ok _ _ st (length (heap st))
             (set_heap (heap st ++ [blank (cls_Tag c)]) st)) by reflexivity.
  destruct (tc_base c) eqn:Hb.
  - (* leaf *)
    unfold _LeafTag__init__, _Tag__init__, _setattr.
    erewrite bind_ok; cycle 1.
    { do 3 step. apply set_dom_mid. reflexivity. }
    eexists _, _, []. split; [reflexivity|]. simpl.
    splits; auto.
  - (* single child *)
    unfold _SingleChildTag__init__, _Tag__init__, _setattr.
    set (o1 := write_slot (W_props (set_flags attrs props)) (blank (cls_Tag c))).
    set (sp := set_heap (heap st ++ [o1]) st).
    assert (Hsp : forall k r, (k, r) ∈ caches sp C_Text ->
                    entry_ok (heap sp) C_Text k r).
    { intros k r Hin. simpl. apply entry_ok_mono.
      eapply wf_cache; eauto. }
    destruct (_Text_cases "" sp Hsp)
      as [(e & rest & t & ot & HT & Hin & Ht & H1 & H2) | HT].
    + assert (Ht' : heap st !! t = Some ot).
      { simpl in Ht. apply lookup_app_Some in Ht as [Ht | [Hle Ht]]; auto.
        destruct (t - length (heap st)); simpl in Ht; [|discriminate].
        injection Ht as <-. discriminate. }
      pose proof (lookup_alloc _ _ _ Ht') as Hlt.
      erewrite bind_ok; cycle 1.
      { step. fold o1. fold sp. rewrite (bind_ok _ _ _ _ _ HT).
        do 4 step.
        erewrite bind_ok; cycle 1.
        { eapply str_ref_ok; [|exact H2]. simpl.
          rewrite lookup_below by assumption. exact Ht'. }
        simpl. apply set_dom_mid. reflexivity. }
      eexists _, _, []. split; [reflexivity|]. simpl.
      splits; auto.
      * exists t. split; [reflexivity|]. intros X. split.
        -- simpl. rewrite length_app. lia.
        -- simpl. rewrite html_at_below by assumption.
           unfold html_at. rewrite Ht'. simpl. now rewrite H2.
      * intros X f k r. destruct (decide (f = C_Text)) as [->|Hne]; auto.
    + assert (HT' : _Text "" sp =
        (Ok (VRef (S (length (heap st)))),
         set_cache C_Text
           (take MAX_CACHE_SIZE
              ((([VStr ""], []), VRef (S (length (heap st))))
                 :: caches st C_Text))
           (set_heap (heap st ++ [o1; text_obj cls_Text "" (escape "")]) st))).
      { rewrite HT. simpl. rewrite length_app. simpl.
        rewrite Nat.add_1_r. rewrite <- app_assoc. reflexivity. }
      erewrite bind_ok; cycle 1.
      { step. fold o1. fold sp. rewrite (bind_ok _ _ _ _ _ HT').
        do 4 step.
        erewrite bind_ok; cycle 1.
        { eapply str_ref_ok; [simpl; apply lookup_mid_next | reflexivity]. }
        simpl. apply set_dom_mid. reflexivity. }
      eexists _, _, [_]. split; [reflexivity|]. simpl.
      splits; auto.
      * exists (S (length (heap st))). split; [reflexivity|]. intros X. split.
        -- simpl. rewrite length_app. simpl. lia.
        -- simpl. unfold html_at. now rewrite lookup_mid_next.
      * intros X. repeat constructor.
        -- apply text_obj_ok. reflexivity.
        -- intros c'. discriminate.
      * intros X f k r. destruct (decide (f = C_Text)) as [->|Hne]; auto.
        intros Hin. apply elem_of_take_cons in Hin as [H|H]; [right | now left].
        injection H as -> ->.
        exists (S (length (heap st))), (text_obj cls_Text "" (escape "")).
        splits; auto using lookup_mid_next.
        -- repeat constructor.
        -- exists "". auto.
  - (* composite *)
    unfold _CompositeTag__init__, _Tag__init__, _setattr.
    erewrite bind_ok; cycle 1.
    { do 4 step. apply set_dom_mid. reflexivity. }
    eexists _, _, []. split; [reflexivity|]. simpl.
    splits; auto.
Qed.

Lemma opt_val_inj v w : opt_val v = opt_val w -> v = w.
Proof. destruct v, w; simpl; congruence. Qed.

Lemma ctor_key_inj attrs props attrs' props' :
  ctor_key attrs props = ctor_key attrs' props' ->
  attrs = attrs' /\ props = props'.
Proof.
  unfold ctor_key. intros H. injection H as H1 H2. split.
  - revert attrs' H1. induction attrs as [|a attrs IH]; intros [|a' attrs'] H;
      simpl in H; try discriminate; [reflexivity|].
    injection H as -> H. f_equal. auto.
  - revert props' H2. induction props as [|[k v] props IH];
      intros [|[k' v'] props'] H; simpl in H; try discriminate; [reflexivity|].
    injection H as -> Hv H. apply opt_val_inj in Hv as ->. f_equal. auto.
Qed.

Lemma ctor_key_pure attrs props :
  Forall pure_val (fst (ctor_key attrs props)) /\
  Forall (fun x => pure_val (snd x)) (snd (ctor_key attrs props)).
Proof.
  unfold ctor_key. simpl. split.
  - induction attrs; simpl; constructor; simpl; auto.
  - induction props as [|[k [v|]] props IH]; simpl; constructor; simpl; auto.
Qed.

Lemma ctor_key_hashable attrs props :
  key_hashable (ctor_key attrs props) = true.
Proof.
  unfold key_hashable, ctor_key. simpl. apply andb_true_iff. split.
  - induction attrs; simpl; auto.
  - induction props as [|[k [v|]] props IH]; simpl; auto.
Qed.

Lemma ctor_key_alloc h attrs props : key_alloc h (ctor_key attrs props).
Proof.
  unfold key_alloc, ctor_key. simpl.
  induction attrs; simpl; constructor; simpl; auto.
Qed.


(** What [instantiate] leaves is in order, for a class of the module or a
    class just made. *)
Lemma instantiate_ok c attrs props st0 st :
  wf st0 -> heap st = heap st0 -> caches st = caches st0 ->
  nclass st0 <= nclass st ->
  (forall n, tc_ident c = Dynamic n -> nclass st0 <= n < nclass st) ->
  clashes props = false ->
  exists st' o,
    instantiate c attrs props st = (Ok (length (heap st)), st') /\
    wf st' /\ extends st st' /\
    heap st' !! length (heap st) = Some o /\
    o_class o = cls_Tag c /\ o_props o = Some (set_flags attrs props) /\
    o_html o = Some (fresh_html c (set_flags attrs props)).
Proof.
  intros W0 Hh Hc Hn Hd Hcf.
  assert (W : wf st).
  { split.
    - rewrite Hh. apply (wf_heap st0 W0).
    - rewrite Hh. intros a o c' n Ha Hcl Hi.
      pose proof (wf_fresh st0 W0 a o c' n Ha Hcl Hi). lia.
    - rewrite Hh. apply (wf_unique st0 W0).
    - rewrite Hh, Hc. apply (wf_cache st0 W0). }
  destruct (instantiate_run c attrs props st W Hcf)
    as (st' & o & l & Hrun & Hheap & Hnc & Hcl & Hp & Hhtml & Hhash & Hkids
        & Hl & Hcache).
  exists st', o. split; [exact Hrun|].
  splits; auto.
  - eapply (wf_grow st0 st' o l); auto.
    + now rewrite Hheap, Hh.
    + lia.
    + rewrite Hheap. exists (fresh_html c (set_flags attrs props)).
      unfold fresh_html. split; [exact Hhtml|].
      split; [rewrite Hhash, Hhtml; reflexivity|].
      rewrite Hcl. exists (set_flags attrs props). split; [exact Hp|].
      destruct (tc_base c).
      * reflexivity.
      * destruct Hkids as (t & Hch & Ht). destruct (Ht o) as [Ha Htx].
        exists (VRef t). rewrite Htx. auto.
      * exists []. splits; auto.
    + rewrite Hheap, Hh. rewrite <- Hh. apply Hl.
    + intros c' n Hc' Hi. rewrite Hcl in Hc'. injection Hc' as <-.
      rewrite Hnc. auto.
    + intros f k r Hin. rewrite <- Hc.
      destruct (Hcache o f k r Hin) as [H|H]; [now left | right].
      now rewrite Hheap.
  - split; [eauto | lia].
  - rewrite Hheap. apply lookup_mid.
Qed.

(** [Name( *attrs, **props )]: the result is an instance of the class of
    that name, with the merged attributes, rendered as its kind says. *)
Lemma construct_spec name d attrs props st :
  wf st -> find_def name = Some d -> clashes props = false ->
  exists a st' o,
    construct name attrs props st = (Ok (VRef a), st') /\
    wf st' /\ extends st st' /\ heap st' !! a = Some o /\
    o_class o = cls_Tag (class_of_def d) /\
    o_props o = Some (set_flags attrs props) /\
    o_html o = Some (fresh_html (class_of_def d) (set_flags attrs props)) /\
    (cd_cached d = false -> a = length (heap st)).
Proof.
  intros W Hd Hcf. unfold construct. rewrite Hd.
  assert (Hbody : exists a st1 o,
     (self <- instantiate (class_of_def d) attrs props;; ret (VRef self)) st
       = (Ok (VRef a), st1) /\ wf st1 /\ extends st st1 /\
     heap st1 !! a = Some o /\
     o_class o = cls_Tag (class_of_def d) /\
     o_props o = Some (set_flags attrs props) /\
     o_html o = Some (fresh_html (class_of_def d) (set_flags attrs props)) /\
     a = length (heap st)).
  { destruct (instantiate_ok (class_of_def d) attrs props st st W)
      as (st' & o & Hrun & W' & E & Ho & H1 & H2 & H3); auto.
    { discriminate. }
    exists (length (heap st)), st', o.
    rewrite (bind_ok _ _ _ _ _ Hrun). splits; auto; apply E. }
  destruct (cd_cached d) eqn:Hcached.
  - edestruct (lru_cache_spec (C_class name) (ctor_key attrs props)
                 (self <- instantiate (class_of_def d) attrs props;;
                  ret (VRef self)) st) as
      (a & st' & o & H & W' & E & Ho & Hs); [exact W | | | | |].
    + apply ctor_key_hashable.
    + apply ctor_key_alloc.
    + intros k0 o _ Heq Hs.
      apply key_eq_pure in Heq; [now subst | apply ctor_key_pure..].
    + destruct Hbody as (a & st1 & o & Hb & W1 & E1 & Ho & H1 & H2 & H3 & _).
      exists a, st1, o. splits; auto; try apply E1.
      simpl. exists d, attrs, props. splits; auto.
    + simpl in Hs. destruct Hs as (d' & attrs' & props' & Hd' & Hk & H1 & H2 & H3).
      apply ctor_key_inj in Hk as [<- <-].
      rewrite Hd in Hd'. injection Hd' as <-.
      exists a, st', o. splits; auto; try apply E. discriminate.
  - destruct Hbody as (a & st1 & o & Hb & W1 & E1 & Ho & H1 & H2 & H3 & Ha).
    exists a, st1, o. splits; auto; apply E1.
Qed.

Lemma content_ok_mono h l c : content_ok h c -> content_ok (h ++ l) c.
Proof.
  intros (H1 & H2 & H3). unfold content_ok.
  splits; auto using val_alloc_mono.
Qed.

Lemma content_ok_extends st st' c :
  extends st st' -> content_ok (heap st) c -> content_ok (heap st') c.
Proof. intros [[l ->] _]. apply content_ok_mono. Qed.

Lemma val_alloc_extends st st' v :
  extends st st' -> val_alloc (heap st) v -> val_alloc (heap st') v.
Proof. intros [[l ->] _]. apply val_alloc_mono. Qed.

Lemma text_of_extends st st' v :
  extends st st' -> val_alloc (heap st) v ->
  text_of (heap st') v = text_of (heap st) v.
Proof. intros [[l ->] _]. apply text_of_mono. Qed.

Lemma content_text_extends st st' v :
  extends st st' -> val_alloc (heap st) v ->
  content_text (heap st') v = content_text (heap st) v.
Proof. intros [[l ->] _]. apply content_text_mono. Qed.

Lemma text_of_ref h a o s :
  h !! a = Some o -> o_html o = Some s -> text_of h (VRef a) = s.
Proof. intros H Hs. simpl. unfold html_at. rewrite H. simpl. now rewrite Hs. Qed.

(** One content argument: a string becomes an escaped text node, bytes
    become a raw text node, anything else is kept. *)
Lemma normalize_spec c st :
  wf st -> content_ok (heap st) c ->
  exists v st1,
    normalize c st = (Ok v, st1) /\ wf st1 /\ extends st st1 /\
    val_alloc (heap st1) v /\ hashable v = true /\
    text_of (heap st1) v = content_text (heap st) c /\
    match c with
    | VStr s =>
        exists a o, v = VRef a /\ heap st1 !! a = Some o /\
          o_class o = cls_Text /\ o_html o = Some (escape s)
    | VBytes b =>
        exists a o, v = VRef a /\ heap st1 !! a = Some o /\
          o_class o = cls_RawText /\ o_html o = Some b
    | _ => v = c /\ st1 = st
    end.
Proof.
  intros W (Hh & Ha & Hb). destruct c; simpl.
  - exists VNone, st. splits; auto using extends_refl.
  - destruct (_Text_spec s st W) as (a & st1 & o & H & W1 & E & Ho & Hc & Hs).
    exists (VRef a), st1. splits; auto.
    + simpl. eapply lookup_alloc; eauto.
    + eapply text_of_ref; eauto.
    + eauto 10.
  - unfold decode_utf8. rewrite Hb.
    rewrite (bind_ok _ _ st b st) by reflexivity.
    destruct (_RawText_spec b st W) as (a & st1 & o & H & W1 & E & Ho & Hc & Hs).
    exists (VRef a), st1. splits; auto.
    + simpl. eapply lookup_alloc; eauto.
    + eapply text_of_ref; eauto.
    + eauto 10.
  - exists (VInt z), st. splits; auto using extends_refl.
  - discriminate.
  - exists (VRef a), st. splits; auto using extends_refl.
Qed.

Lemma normalize_all_spec children st :
  wf st -> Forall (content_ok (heap st)) children ->
  exists vs st1,
    normalize_all children st = (Ok vs, st1) /\ wf st1 /\ extends st st1 /\
    Forall (val_alloc (heap st1)) vs /\
    map (text_of (heap st1)) vs = map (content_text (heap st)) children.
Proof.
  revert st. induction children as [|c children IH]; intros st W Hc; simpl.
  - exists [], st. splits; auto using extends_refl.
  - apply Forall_cons in Hc as [Hc Hcs].
    destruct (normalize_spec c st W Hc)
      as (v & st1 & H & W1 & E1 & Hv & _ & Ht & _).
    destruct (IH st1 W1) as (vs & st2 & H2 & W2 & E2 & Hvs & Hts).
    { eapply Forall_impl; [exact Hcs|]. intros x.
      now apply content_ok_extends. }
    exists (v :: vs), st2.
    rewrite (bind_ok _ _ _ _ _ H), (bind_ok _ _ _ _ _ H2).
    split; [reflexivity|].
    pose proof (extends_trans _ _ _ E1 E2) as E.
    splits; auto.
    + constructor; auto. apply (val_alloc_extends st1 st2); auto.
    + simpl. f_equal.
      * rewrite (text_of_extends st1 st2) by assumption. exact Ht.
      * rewrite Hts. clear - E1 Hcs.
        induction Hcs as [|x xs Hx _ IHx]; simpl; [reflexivity|].
        f_equal; auto. apply content_text_extends; auto. apply Hx.
Qed.

(** Rendering a value whose referent, if any, is a finished citizen. *)
Lemma py_str_ok st h v :
  (forall a o, h !! a = Some o -> heap st !! a = Some o) ->
  (forall a o, h !! a = Some o -> exists s, o_html o = Some s) ->
  val_alloc h v ->
  py_str v st = (Ok (text_of h v), st).
Proof.
  intros Hsub Hok Hv. destruct v; try reflexivity.
  simpl in Hv. apply lookup_lt_is_Some_2 in Hv as [o Ho].
  destruct (Hok _ _ Ho) as [s Hs].
  rewrite (text_of_ref h a o s Ho Hs).
  eapply str_ref_ok; eauto.
Qed.

Lemma join_str_ok st h vs :
  (forall a o, h !! a = Some o -> heap st !! a = Some o) ->
  (forall a o, h !! a = Some o -> exists s, o_html o = Some s) ->
  Forall (val_alloc h) vs ->
  join_str vs st = (Ok (concat_str (map (text_of h) vs)), st).
Proof.
  intros Hsub Hok. induction 1 as [|v vs Hv _ IH]; simpl; [reflexivity|].
  rewrite (bind_ok _ _ _ _ _ (py_str_ok st h v Hsub Hok Hv)).
  now rewrite (bind_ok _ _ _ _ _ IH).
Qed.

Lemma wf_html st a o : wf st -> heap st !! a = Some o ->
  exists s, o_html o = Some s.
Proof. intros W H. destruct (wf_heap st W a o H) as (s & Hs & _). eauto. Qed.

Lemma wf_props st a o c : wf st -> heap st !! a = Some o ->
  o_class o = cls_Tag c -> exists p, o_props o = Some p.
Proof.
  intros W H Hc. destruct (wf_heap st W a o H) as (s & _ & _ & Hs).
  rewrite Hc in Hs. destruct Hs as (p & Hp & _). eauto.
Qed.

(** A tag made by a class statement renders without content. *)
Lemma wf_static_html st a o c p :
  wf st -> heap st !! a = Some o -> o_class o = cls_Tag c ->
  o_props o = Some p -> tc_ident c = Static -> tc_base c <> _LeafTag ->
  o_html o = Some (tag_html c p "").
Proof.
  intros W H Hc Hp Hi Hb. destruct (wf_heap st W a o H) as (s & Hs & _ & Hk).
  rewrite Hc in Hk. destruct Hk as (p' & Hp' & Hk).
  rewrite Hp in Hp'. injection Hp' as <-. rewrite Hs. f_equal.
  destruct (tc_base c); [congruence | |].
  - destruct Hk as (ch & _ & _ & -> & Hx). now rewrite (Hx Hi).
  - destruct Hk as (chs & _ & _ & -> & Hx). now rewrite (Hx Hi).
Qed.

Lemma tag_html_inj_props c p p' :
  tag_html c p "" = tag_html c p' "" -> fmt_props p = fmt_props p'.
Proof.
  unfold tag_html. intros H.
  apply append_inv_head in H. apply append_inv_head in H.
  rewrite <- !append_assoc_s in H.
  do 5 apply append_inv_tail in H. exact H.
Qed.

Lemma py_eq_content_text h v w :
  py_eq h v w = true -> content_text h v = content_text h w.
Proof.
  destruct v, w; simpl; try discriminate; auto.
  - intros H. apply String.eqb_eq in H. now subst.
  - intros H. apply String.eqb_eq in H. now subst.
  - intros H. apply Z.eqb_eq in H. now subst.
  - intros H. apply bool_decide_eq_true in H. now subst.
  - intros H. apply orb_true_iff in H as [H|H].
    + apply Nat.eqb_eq in H. now subst.
    + unfold html_at.
      destruct (h !! a) as [o1|]; [|discriminate].
      destruct (h !! a0) as [o2|]; [|discriminate].
      apply andb_true_iff in H as [_ H]. simpl.
      destruct (o_html o1), (o_html o2); try discriminate.
      apply String.eqb_eq in H. now subst.
Qed.

Lemma args_eq_content_text h vs ws :
  args_eq h vs ws = true ->
  map (content_text h) vs = map (content_text h) ws.
Proof.
  revert ws. induction vs as [|v vs IH]; intros [|w ws] H; simpl in H;
    try discriminate; [reflexivity|].
  apply andb_true_iff in H as [H1 H2]. simpl. f_equal; auto.
  now apply py_eq_content_text.
Qed.

(** Equal receivers give the same result: a tag equal to [s0] without
    being [s0] is an instance of a static class, and renders the same
    opening tag. *)
Lemma called_transport st s0 s body o :
  wf st -> s < length (heap st) ->
  py_eq (heap st) (VRef s0) (VRef s) = true ->
  called (heap st) s0 body o -> called (heap st) s body o.
Proof.
  intros W Hs Heq Hc. simpl in Heq. apply orb_true_iff in Heq as [H|H].
  { apply Nat.eqb_eq in H. now subst. }
  destruct Hc as (os0 & cs & p0 & n & H1 & H2 & H3 & H4 & H5 & H6 & H7).
  unfold __eq__ in H. rewrite H1 in H.
  match type of H with
  | match ?x with _ => _ end = _ => destruct x as [os|] eqn:Hos
  end; [|discriminate].
  apply andb_true_iff in H as [Hcl Hhtml].
  apply bool_decide_eq_true in Hcl. rewrite H2 in Hcl.
  destruct (tc_ident cs) as [|m] eqn:Hid.
  - destruct (wf_props st s os cs W Hos Hcl) as [p Hp].
    pose proof (wf_static_html st s0 os0 cs p0 W H1 H2 H4 Hid H3) as Hh0.
    pose proof (wf_static_html st s os cs p W Hos Hcl Hp Hid H3) as Hh.
    rewrite Hh0, Hh in Hhtml. apply String.eqb_eq in Hhtml.
    apply tag_html_inj_props in Hhtml.
    exists os, cs, p, n. splits; auto; [congruence|].
    rewrite H7. unfold tag_html. now rewrite Hhtml.
  - assert (s0 = s) by (eapply (wf_unique st W); eauto). subst s0.
    exists os0, cs, p0, n. splits; auto; congruence.
Qed.

Lemma wf_bump st :
  wf st ->
  wf {| heap := heap st; nclass := S (nclass st); caches := caches st |}.
Proof.
  intros W. split; simpl.
  - apply (wf_heap st W).
  - intros a o c n Ha Hc Hi. pose proof (wf_fresh st W a o c n Ha Hc Hi). lia.
  - apply (wf_unique st W).
  - apply (wf_cache st W).
Qed.

Lemma set_flags_nil p : set_flags [] p = p.
Proof. reflexivity. Qed.

(** [_CompositeTag.__call__], from a state in order, on a composite tag and
    content the specification covers. *)
Lemma _CompositeTag__call__spec self children st os cs :
  wf st -> heap st !! self = Some os -> o_class os = cls_Tag cs ->
  tc_base cs = _CompositeTag -> clashing (heap st) self = false ->
  Forall (content_ok (heap st)) children ->
  exists a st' o,
    _CompositeTag__call__ self children st = (Ok (VRef a), st') /\
    wf st' /\ extends st st' /\ heap st' !! a = Some o /\
    called (heap st') self
      (concat_str (map (content_text (heap st)) children)) o.
Proof.
  intros W Hos Hcls Hbase Hcf Hch.
  destruct (wf_props st self os cs W Hos Hcls) as [p Hp].
  unfold clashing in Hcf. rewrite Hos in Hcf. simpl in Hcf. rewrite Hp in Hcf.
  pose proof (lookup_alloc _ _ _ Hos) as Hself.
  assert (Hka : Forall (val_alloc (heap st)) children).
  { eapply Forall_impl; [exact Hch|]. intros x Hx. apply Hx. }
  unfold _CompositeTag__call__.
  match goal with
  | |- context [lru_cache ?f ?k ?body st] =>
      destruct (lru_cache_spec f k body st W)
        as (a & st' & o & H & W' & E & Ho & (s' & cs' & Hk & Hs))
  end.
  - unfold key_hashable. simpl. rewrite andb_true_r.
    clear - Hch. induction Hch as [|x xs Hx _ IH]; simpl; auto.
    destruct Hx as [-> _]. auto.
  - constructor; auto.
  - intros k0 o Hk0 Heq (s0 & cs0 & -> & Hc). simpl.
    unfold key_eq in Heq. simpl in Heq.
    apply andb_true_iff in Heq as [Heq _].
    apply andb_true_iff in Heq as [Hs0 Hcs0].
    exists self, children. split; auto.
    rewrite <- (args_eq_content_text _ _ _ Hcs0).
    eapply called_transport; eauto.
  - destruct (normalize_all_spec children st W Hch)
      as (vs & st1 & Hn & W1 & E1 & Hvs & Hts).
    pose proof (extends_lookup _ _ _ _ E1 Hos) as Hos1.
    set (n := nclass st1).
    set (st2 := {| heap := heap st1; nclass := S n; caches := caches st1 |}).
    destruct (instantiate_run (clone n cs) [] p st2 (wf_bump st1 W1) Hcf)
      as (st3 & o & l & Hrun & Hheap & Hnc & Hcl & Hp' & Hhtml & Hhash
          & Hkids & Hl & Hcache).
    simpl in Hheap, Hnc, Hl, Hcache.
    set (body := concat_str (map (content_text (heap st)) children)).
    lazymatch goal with
    | |- context [@bind ?A ?B ?m ?f st] =>
        eassert (Hrb : @bind A B m f st = _)
    end.
    { rewrite (bind_ok _ _ _ _ _ Hn).
      rewrite (bind_ok _ _ _ _ _ (class_of_ok _ _ _ _ Hos1 Hcls)).
      rewrite (bind_ok _ _ st1 (clone n cs) st2) by reflexivity.
      rewrite (bind_ok _ _ st2 p st2) by (eapply getattr_ok; eauto).
      rewrite (bind_ok _ _ _ _ _ Hrun).
      unfold _setattr.
      erewrite bind_ok by (apply object_setattr_mid; exact Hheap).
      erewrite bind_ok by
        (eapply tagname_ok; [simpl; apply lookup_mid | simpl; exact Hcl]).
      erewrite bind_ok by
        (eapply getattr_ok; [simpl; apply lookup_mid | simpl; exact Hp']).
      erewrite bind_ok by
        (eapply getattr_ok; [simpl; apply lookup_mid | reflexivity]).
      erewrite bind_ok; cycle 1.
      { apply (join_str_ok _ (heap st1)); auto.
        - intros a x Hx. simpl. now apply lookup_old.
        - intros a x Hx. eapply wf_html; eauto. }
      erewrite bind_ok by (apply set_dom_mid; reflexivity).
      simpl. rewrite Hts. fold body. reflexivity. }
    match type of Hrb with
    | _ = ret _ (set_heap (_ ++ ?x :: _) _) => set (o3 := x) in *
    end.
    eexists (length (heap st1)), _, o3. split; [exact Hrb|].
    assert (Hdyn : tc_ident cs <> Dynamic n).
    { intros Hi. pose proof (wf_fresh st W self os cs n Hos Hcls Hi).
      destruct E1 as [_ E1]. unfold n in *. lia. }
    splits.
    + eapply (wf_grow st1 _ o3 l); simpl.
      * exact W1.
      * reflexivity.
      * rewrite Hnc. unfold n. lia.
      * exists (tag_html cs p body). split; [reflexivity|].
        split; [reflexivity|]. simpl. rewrite Hcl.
        exists p. split; [exact Hp'|]. simpl. rewrite Hbase.
        exists vs. split; [reflexivity|].
        split; [eapply Forall_impl; [exact Hvs|];
                intros x; apply val_alloc_mono|].
        split; [|discriminate].
        rewrite map_text_of_mono by assumption. rewrite Hts. reflexivity.
      * apply Hl.
      * intros c' m Hc' Hi.
        rewrite Hcl in Hc'. injection Hc' as <-. simpl in Hi.
        injection Hi as <-. rewrite Hnc. unfold n. lia.
      * intros f k r Hin. apply (Hcache o3 f k r Hin).
    + split; simpl.
      * destruct E1 as [[l1 ->] _]. rewrite <- app_assoc. eauto.
      * rewrite Hnc. destruct E1 as [_ E1]. unfold n. lia.
    + simpl. apply lookup_mid.
    + simpl. exists self, children. split; [reflexivity|].
      exists os, cs, p, n. splits; auto.
      * apply lookup_old. exact Hos1.
      * congruence.
      * destruct E1 as [[l1 E1] _]. rewrite E1, <- app_assoc.
        rewrite map_content_text_mono by assumption. reflexivity.
  - injection Hk as <- <-. exists a, st', o. splits; auto.
    destruct E as [[l E] _]. rewrite E in Hs |- *.
    rewrite map_content_text_mono in Hs by assumption. exact Hs.
Qed.

(** [_SingleChildTag.__call__], likewise. *)
Lemma _SingleChildTag__call__spec self child st os cs :
  wf st -> heap st !! self = Some os -> o_class os = cls_Tag cs ->
  tc_base cs = _SingleChildTag -> clashing (heap st) self = false ->
  content_ok (heap st) child ->
  exists a st' o,
    _SingleChildTag__call__ self child st = (Ok (VRef a), st') /\
    wf st' /\ extends st st' /\ heap st' !! a = Some o /\
    called (heap st') self (content_text (heap st) child) o.
Proof.
  intros W Hos Hcls Hbase Hcf Hch.
  destruct (wf_props st self os cs W Hos Hcls) as [p Hp].
  unfold clashing in Hcf. rewrite Hos in Hcf. simpl in Hcf. rewrite Hp in Hcf.
  pose proof (lookup_alloc _ _ _ Hos) as Hself.
  assert (Hka : val_alloc (heap st) child) by apply Hch.
  unfold _SingleChildTag__call__.
  match goal with
  | |- context [lru_cache ?f ?k ?body st] =>
      destruct (lru_cache_spec f k body st W)
        as (a & st' & o & H & W' & E & Ho & (s' & c' & Hk & Hs))
  end.
  - unfold key_hashable. simpl. destruct Hch as [-> _]. reflexivity.
  - repeat constructor; auto.
  - intros k0 o Hk0 Heq (s0 & c0 & -> & Hc). simpl.
    unfold key_eq in Heq. simpl in Heq.
    apply andb_true_iff in Heq as [Heq _].
    apply andb_true_iff in Heq as [Hs0 Hc0].
    apply andb_true_iff in Hc0 as [Hc0 _].
    exists self, child. split; auto.
    rewrite <- (py_eq_content_text _ _ _ Hc0).
    eapply called_transport; eauto.
  - destruct (normalize_spec child st W Hch)
      as (v & st1 & Hn & W1 & E1 & Hv & _ & Ht & _).
    pose proof (extends_lookup _ _ _ _ E1 Hos) as Hos1.
    set (n := nclass st1).
    set (st2 := {| heap := heap st1; nclass := S n; caches := caches st1 |}).
    destruct (instantiate_run (clone n cs) [] p st2 (wf_bump st1 W1) Hcf)
      as (st3 & o & l & Hrun & Hheap & Hnc & Hcl & Hp' & Hhtml & Hhash
          & Hkids & Hl & Hcache).
    simpl in Hheap, Hnc, Hl, Hcache.
    set (body := content_text (heap st) child).
    lazymatch goal with
    | |- context [@bind ?A ?B ?m ?f st] =>
        eassert (Hrb : @bind A B m f st = _)
    end.
    { rewrite (bind_ok _ _ _ _ _ Hn).
      rewrite (bind_ok _ _ _ _ _ (class_of_ok _ _ _ _ Hos1 Hcls)).
      rewrite (bind_ok _ _ st1 (clone n cs) st2) by reflexivity.
      rewrite (bind_ok _ _ st2 p st2) by (eapply getattr_ok; eauto).
      rewrite (bind_ok _ _ _ _ _ Hrun).
      unfold _setattr.
      erewrite bind_ok by (apply object_setattr_mid; exact Hheap).
      erewrite bind_ok by
        (eapply tagname_ok; [simpl; apply lookup_mid | simpl; exact Hcl]).
      erewrite bind_ok by
        (eapply getattr_ok; [simpl; apply lookup_mid | simpl; exact Hp']).
      erewrite bind_ok by
        (eapply getattr_ok; [simpl; apply lookup_mid | reflexivity]).
      erewrite bind_ok; cycle 1.
      { apply (py_str_ok _ (heap st1)); auto.
        - intros a x Hx. simpl. now apply lookup_old.
        - intros a x Hx. eapply wf_html; eauto. }
      erewrite bind_ok by (apply set_dom_mid; reflexivity).
      simpl. rewrite Ht. fold body. reflexivity. }
    match type of Hrb with
    | _ = ret _ (set_heap (_ ++ ?x :: _) _) => set (o3 := x) in *
    end.
    eexists (length (heap st1)), _, o3. split; [exact Hrb|].
    assert (Hdyn : tc_ident cs <> Dynamic n).
    { intros Hi. pose proof (wf_fresh st W self os cs n Hos Hcls Hi).
      destruct E1 as [_ E1]. unfold n in *. lia. }
    splits.
    + eapply (wf_grow st1 _ o3 l); simpl.
      * exact W1.
      * reflexivity.
      * rewrite Hnc. unfold n. lia.
      * exists (tag_html cs p body). split; [reflexivity|].
        split; [reflexivity|]. simpl. rewrite Hcl.
        exists p. split; [exact Hp'|]. simpl. rewrite Hbase.
        exists v. split; [reflexivity|].
        split; [now apply val_alloc_mono|].
        split; [|discriminate].
        rewrite text_of_mono by assumption. rewrite Ht. reflexivity.
      * apply Hl.
      * intros c' m Hc' Hi.
        rewrite Hcl in Hc'. injection Hc' as <-. simpl in Hi.
        injection Hi as <-. rewrite Hnc. unfold n. lia.
      * intros f k r Hin. apply (Hcache o3 f k r Hin).
    + split; simpl.
      * destruct E1 as [[l1 ->] _]. rewrite <- app_assoc. eauto.
      * rewrite Hnc. destruct E1 as [_ E1]. unfold n. lia.
    + simpl. apply lookup_mid.
    + simpl. exists self, child. split; [reflexivity|].
      exists os, cs, p, n. splits; auto.
      * apply lookup_old. exact Hos1.
      * congruence.
      * destruct E1 as [[l1 E1] _]. rewrite E1, <- app_assoc.
        rewrite content_text_mono by assumption. reflexivity.
  - injection Hk as <- <-. exists a, st', o. splits; auto.
    destruct E as [[l E] _]. rewrite E in Hs |- *.
    rewrite content_text_mono in Hs by assumption. exact Hs.
Qed.


(** [Script.__call__] and [Style.__call__] on an instance of the class
    itself: the string goes in unescaped. *)
Lemma raw__call__spec owner d self child st os :
  wf st -> find_def owner = Some d -> cd_base d = _SingleChildTag ->
  heap st !! self = Some os -> o_class os = cls_Tag (class_of_def d) ->
  clashing (heap st) self = false ->
  exists a st' o,
    raw__call__ owner self child st = (Ok (VRef a), st') /\
    wf st' /\ extends st st' /\ heap st' !! a = Some o /\
    called (heap st') self child o.
Proof.
  intros W Hd Hbase Hos Hcls Hcf.
  pose proof (lookup_alloc _ _ _ Hos) as Hself.
  unfold raw__call__.
  match goal with
  | |- context [lru_cache ?f ?k ?body st] =>
      destruct (lru_cache_spec f k body st W)
        as (a & st' & o & H & W' & E & Ho & (s' & c' & Hk & Hs))
  end.
  - reflexivity.
  - repeat constructor; auto.
  - intros k0 o Hk0 Heq (s0 & c0 & -> & Hc). simpl.
    unfold key_eq in Heq. simpl in Heq.
    apply andb_true_iff in Heq as [Heq _].
    apply andb_true_iff in Heq as [Hs0 Hc0].
    apply andb_true_iff in Hc0 as [Hc0 _].
    apply String.eqb_eq in Hc0. subst c0.
    exists self, child. split; auto.
    eapply called_transport; eauto.
  - rewrite (bind_ok _ _ _ _ _ (class_of_ok _ _ _ _ Hos Hcls)).
    rewrite Hd. simpl. rewrite bool_decide_eq_true_2 by reflexivity.
    destruct (_RawText_spec child st W)
      as (r & st1 & or & Hr & W1 & E1 & Hor & Hrc & Hrh).
    rewrite (bind_ok _ _ _ _ _ Hr).
    pose proof (extends_lookup _ _ _ _ E1 Hos) as Hos1.
    destruct (_SingleChildTag__call__spec self (VRef r) st1 os
                (class_of_def d) W1 Hos1 Hcls Hbase)
      as (a & st2 & o & Hc & W2 & E2 & Ho & Hcalled).
    { unfold clashing in *. rewrite Hos1. now rewrite Hos in Hcf. }
    { unfold content_ok. splits; simpl; auto. eapply lookup_alloc; eauto. }
    exists a, st2, o. splits; auto.
    + eapply extends_trans; eauto.
    + simpl. exists self, child. split; [reflexivity|].
      change (content_text (heap st1) (VRef r))
        with (text_of (heap st1) (VRef r)) in Hcalled.
      rewrite (text_of_ref _ _ _ _ Hor Hrh) in Hcalled. exact Hcalled.
  - injection Hk as <- <-. exists a, st', o. splits; auto.
Qed.

(** Which [__call__] a call reaches. *)
Lemma call_composite self args st os cs :
  heap st !! self = Some os -> o_class os = cls_Tag cs ->
  tc_base cs = _CompositeTag -> tc_raw_call cs = None ->
  call (VRef self) args st = _CompositeTag__call__ self args st.
Proof.
  intros Hos Hcls Hb Hr. unfold call.
  rewrite (bind_ok _ _ _ _ _ (deref_ok _ _ _ Hos)).
  rewrite Hcls. unfold resolve, mro. rewrite Hb, Hr. reflexivity.
Qed.

Lemma call_single self child st os cs :
  heap st !! self = Some os -> o_class os = cls_Tag cs ->
  tc_base cs = _SingleChildTag -> tc_raw_call cs = None ->
  call (VRef self) [child] st = _SingleChildTag__call__ self child st.
Proof.
  intros Hos Hcls Hb Hr. unfold call.
  rewrite (bind_ok _ _ _ _ _ (deref_ok _ _ _ Hos)).
  rewrite Hcls. unfold resolve, mro. rewrite Hb, Hr. reflexivity.
Qed.

Lemma call_raw self child st os cs owner :
  heap st !! self = Some os -> o_class os = cls_Tag cs ->
  tc_raw_call cs = Some owner ->
  call (VRef self) [VStr child] st = raw__call__ owner self child st.
Proof.
  intros Hos Hcls Hr. unfold call.
  rewrite (bind_ok _ _ _ _ _ (deref_ok _ _ _ Hos)).
  rewrite Hcls. unfold resolve, mro. rewrite Hr. reflexivity.
Qed.

Lemma call_leaf self args st os cs :
  heap st !! self = Some os -> o_class os = cls_Tag cs ->
  tc_base cs = _LeafTag -> tc_raw_call cs = None ->
  call (VRef self) args st = (Raise TypeError, st).
Proof.
  intros Hos Hcls Hb Hr. unfold call.
  rewrite (bind_ok _ _ _ _ _ (deref_ok _ _ _ Hos)).
  rewrite Hcls. unfold resolve, mro. rewrite Hb, Hr. reflexivity.
Qed.


(** ** Rendering and escaping *)

Lemma render_ref st a o s :
  heap st !! a = Some o -> o_html o = Some s -> render (VRef a) st = Ok s.
Proof.
  intros H Hs. unfold render. now rewrite (str_ref_ok st a o s H Hs).
Qed.

Lemma entity_of_other (c : ascii) :
  c <> "&"%char -> c <> "<"%char -> c <> ">"%char -> c <> dquote ->
  c <> "'"%char -> entity_of c = String c EmptyString.
Proof.
  intros H1 H2 H3 H4 H5. unfold entity_of.
  repeat match goal with
         | |- context [Ascii.eqb c ?x] =>
             destruct (Ascii.eqb_spec c x); [congruence|]
         end.
  reflexivity.
Qed.

(** C1. For every string [s], from every state in order: the escaped-text
    node built from [s] renders as [s] with each of the five characters
    ampersand, less-than, greater-than, double quote and single quote
    replaced by its entity ([&amp;], [&lt;], [&gt;], [&quot;], [&#x27;])
    and every other character kept as it is; the raw-text node built from
    [s] renders as [s] itself. *)
Theorem C1_text_escapes_raw_text_does_not (s : string) (st : state) :
  wf st ->
  (exists a st',
      _Text s st = (Ok (VRef a), st') /\
      render (VRef a) st' = Ok (escape_each s)) /\
  (exists a st',
      _RawText s st = (Ok (VRef a), st') /\
      render (VRef a) st' = Ok s) /\
  (forall c : ascii,
      c <> "&"%char -> c <> "<"%char -> c <> ">"%char -> c <> dquote ->
      c <> "'"%char -> entity_of c = String c EmptyString).
Proof.
  intros W. splits.
  - destruct (_Text_spec s st W) as (a & st' & o & H & _ & _ & Ho & _ & Hs).
    exists a, st'. split; [exact H|].
    rewrite <- escape_escape_each. eapply render_ref; eauto.
  - destruct (_RawText_spec s st W) as (a & st' & o & H & _ & _ & Ho & _ & Hs).
    exists a, st'. split; [exact H|]. eapply render_ref; eauto.
  - apply entity_of_other.
Qed.

(** ** Attribute pairs *)

(** C5. For every attribute pair: with no value, [fmt_prop] gives the bare
    name when the name is made of letters and underscores only, and the
    name put through [double_quote] otherwise; with a string value it gives
    [name="value"], the value between double quotes with a backslash before
    each double quote inside it and every other character, entity-worthy
    or not, unchanged. *)
Theorem C5_fmt_prop (key value : string) :
  fmt_prop key None
  = (if only_letters key then key else double_quote key) /\
  fmt_prop key (Some value)
  = key +:+ "=" +:+ DQ +:+ backslash_quotes value +:+ DQ /\
  double_quote key = DQ +:+ backslash_quotes key +:+ DQ.
Proof.
  splits.
  - unfold fmt_prop. rewrite re_sub_only_letters.
    now destruct (only_letters key).
  - unfold fmt_prop, double_quote. now rewrite replace_backslash_quotes.
  - unfold double_quote. now rewrite replace_backslash_quotes.
Qed.

(** ** Assignment to attributes *)

(** C6. Every class of the hierarchy (raw text, escaped text, comment,
    doctype, and every tag class, made by a class statement or by a call)
    takes its [__setattr__] from [_DOMCitizen], and that method raises
    [AttributeError] for every object, every attribute name and every
    value, leaving the heap as it was. *)
Theorem C6_attribute_assignment_fails
    (c : pyclass) (self : addr) (name : string) (value : pyval) (st : state) :
  resolve c "__setattr__" = Some In_DOMCitizen /\
  __setattr__ self name value st = (Raise AttributeError, st).
Proof.
  split; [|reflexivity].
  destruct c as [| | | |t]; try reflexivity.
  unfold resolve, mro. destruct (tc_raw_call t), (tc_base t); reflexivity.
Qed.

(** What the constructors themselves use does write, for contrast. *)
Lemma _setattr_writes (self : addr) (w : attr_write) (st : state) (o : object) :
  heap st !! self = Some o ->
  exists st', _setattr self w st = (Ok tt, st') /\
    heap st' !! self = Some (write_slot w o).
Proof.
  intros H. unfold _setattr, object_setattr. rewrite H.
  eexists. split; [reflexivity|]. simpl.
  apply list_lookup_insert_eq. eapply lookup_alloc; eauto.
Qed.

(** ** The debug representation *)

(** C9. On every non-empty attribute set [tmf_props] raises [NameError]
    (its loop reads the unbound name [v]); so the [repr] of every tag with
    a non-empty attribute set, leaf, single-child or composite, raises
    [NameError] too: no representation, expanded or by keywords, is
    produced. *)
Theorem C9_repr_raises_NameError
    (k : string) (v : option string) (rest : list (string * option string))
    (fuel : nat) (self : addr) (o : object) (c : tagclass) (st : state) :
  wf st -> heap st !! self = Some o -> o_class o = cls_Tag c ->
  o_props o = Some ((k, v) :: rest) ->
  tmf_props ((k, v) :: rest) = Raise NameError /\
  exists st', py_repr (S fuel) (VRef self) st = (Raise NameError, st').
Proof.
  intros W Ho Hc Hp. split; [reflexivity|]. simpl.
  rewrite (bind_ok _ _ _ _ _ (deref_ok _ _ _ Ho)). rewrite Hc.
  destruct (wf_heap st W self o Ho) as (s & _ & _ & Hk). rewrite Hc in Hk.
  destruct Hk as (p & Hp' & Hk).
  destruct (tc_base c).
  - rewrite (bind_ok _ _ _ _ _ (getattr_ok o_props _ _ _ _ Ho Hp)).
    eexists. reflexivity.
  - destruct Hk as (child & Hch & _).
    rewrite (bind_ok _ _ _ _ _ (getattr_ok o_child _ _ _ _ Ho Hch)).
    destruct (_Text_spec "" st W) as (a & st1 & ot & H & _ & E & _).
    rewrite (bind_ok _ _ _ _ _ H).
    pose proof (extends_lookup _ _ _ _ E Ho) as Ho1.
    rewrite (bind_ok _ _ st1 (heap st1) st1) by reflexivity.
    destruct (py_eq (heap st1) child (VRef a));
      rewrite (bind_ok _ _ _ _ _ (getattr_ok o_props _ _ _ _ Ho1 Hp));
      eexists; reflexivity.
  - destruct Hk as (children & Hch & _).
    rewrite (bind_ok _ _ _ _ _ (getattr_ok o_children _ _ _ _ Ho Hch)).
    rewrite (bind_ok _ _ _ _ _ (getattr_ok o_props _ _ _ _ Ho Hp)).
    eexists. reflexivity.
Qed.


(** ** Keywords first, flags after *)

Lemma dict_set_absent k v d :
  k ∉ map fst d -> dict_set k v d = d ++ [(k, v)].
Proof.
  induction d as [|[k' v'] d IH]; simpl; intros H; [reflexivity|].
  apply not_elem_of_cons in H as [Hne H].
  destruct (String.eqb_spec k' k); [congruence|].
  now rewrite IH.
Qed.

Lemma dict_set_flag_present k props done :
  k ∉ map fst props -> k ∈ done ->
  dict_set k None (props ++ map flag done) = props ++ map flag done.
Proof.
  intros Hk Hin. induction props as [|[k' v'] props IH]; simpl.
  - clear Hk. induction done as [|x done IH]; [inversion Hin|].
    simpl. destruct (String.eqb_spec x k); [reflexivity|].
    f_equal. apply IH. apply elem_of_cons in Hin as [->|Hin]; congruence.
  - simpl in Hk. apply not_elem_of_cons in Hk as [Hne Hk].
    destruct (String.eqb_spec k' k); [congruence|].
    f_equal. auto.
Qed.

Lemma set_flags_from attrs props done :
  (forall k, k ∈ attrs -> k ∉ map fst props) ->
  (forall k, k ∈ done -> k ∉ map fst props) ->
  set_flags attrs (props ++ map flag done)
  = props ++ map flag
      (fold_left (fun acc k => if bool_decide (k ∈ acc) then acc else acc ++ [k])
                 attrs done).
Proof.
  revert done. induction attrs as [|x attrs IH]; intros done Ha Hd; simpl.
  - reflexivity.
  - assert (Hx : x ∉ map fst props) by (apply Ha; left).
    assert (Ha' : forall k, k ∈ attrs -> k ∉ map fst props)
      by (intros k Hk; apply Ha; now right).
    unfold set_flags in *. simpl. destruct (bool_decide_reflect (x ∈ done)).
    + rewrite dict_set_flag_present by assumption. now apply IH.
    + rewrite dict_set_absent.
      * rewrite <- app_assoc.
        change [(x, None)] with (map flag [x]). rewrite <- map_app.
        apply IH; auto. intros k Hk.
        apply elem_of_app in Hk as [Hk|Hk]; auto.
        apply list_elem_of_singleton in Hk. now subst.
      * rewrite map_app. intros Hin. apply elem_of_app in Hin as [Hin|Hin];
          [contradiction|].
        apply n. rewrite map_map in Hin. simpl in Hin.
        now rewrite map_id in Hin.
Qed.

(** With no flag named like a keyword attribute, the flags go after the
    keyword attributes, each once, in the order of their first use. *)
Lemma set_flags_disjoint attrs props :
  (forall k, k ∈ attrs -> k ∉ map fst props) ->
  set_flags attrs props = props ++ map flag (first_occurrences attrs).
Proof.
  intros H. pose proof (set_flags_from attrs props [] H) as E.
  simpl in E. rewrite app_nil_r in E. apply E.
  intros k Hk. inversion Hk.
Qed.

(** C10, as amended.  For every tag constructed with positional flags and
    keyword attributes, none of the flags bearing the name of a keyword
    attribute and no keyword being [self], from every state in order: the
    opening tag lists the keyword attributes first, in call order, then the
    positional flags, each once, in the order of their first occurrence; a
    leaf tag renders as [<tagname attributes />]. *)
Theorem C10_keywords_then_flags
    (name : string) (d : class_def) (attrs : list string)
    (props : list (string * option string)) (st : state) :
  wf st -> find_def name = Some d -> clashes props = false ->
  (forall k, k ∈ attrs -> k ∉ map fst props) ->
  exists a st',
    construct name attrs props st = (Ok (VRef a), st') /\
    render (VRef a) st'
    = Ok (let merged := props ++ map flag (first_occurrences attrs) in
          match cd_base d with
          | _LeafTag => "<" +:+ cd_tagname d +:+ fmt_props merged +:+ " />"
          | _ => "<" +:+ cd_tagname d +:+ fmt_props merged +:+ "></"
                     +:+ cd_tagname d +:+ ">"
          end).
Proof.
  intros W Hd Hcf Hdis.
  destruct (construct_spec name d attrs props st W Hd Hcf)
    as (a & st' & o & H & _ & _ & Ho & _ & _ & Hh & _).
  exists a, st'. split; [exact H|].
  rewrite (render_ref _ _ _ _ Ho Hh). f_equal.
  rewrite set_flags_disjoint by assumption.
  unfold fresh_html, leaf_html, tag_html. simpl.
  destruct (cd_base d); reflexivity.
Qed.


(** ** Calling a tag with content *)

Lemma Ok_inj {A} (x y : A) : Ok x = Ok y -> x = y.
Proof. intros H. now injection H. Qed.

Lemma admissible_content_ok h c : admissible h c -> content_ok h c.
Proof.
  destruct c; simpl; try contradiction; intros H; unfold content_ok;
    simpl; auto.
Qed.

Lemma tag_html_inj_body c p x y : tag_html c p x = tag_html c p y -> x = y.
Proof.
  unfold tag_html. intros H.
  do 4 apply append_inv_head in H.
  rewrite <- !append_assoc_s in H.
  do 3 apply append_inv_tail in H. exact H.
Qed.

(** The result of a call, read against the receiver as it was before. *)
Lemma called_receiver st st' self os cs p body o :
  extends st st' -> heap st !! self = Some os -> o_class os = cls_Tag cs ->
  o_props os = Some p -> called (heap st') self body o ->
  o_html o = Some (tag_html cs p body) /\ o_class o <> o_class os.
Proof.
  intros E Hos Hcls Hp (os' & cs' & p' & n & H1 & H2 & H3 & H4 & H5 & H6 & H7).
  rewrite (extends_lookup _ _ _ _ E Hos) in H1. injection H1 as <-.
  rewrite Hcls in H2. injection H2 as <-.
  rewrite Hp in H4. injection H4 as <-.
  split; [exact H7|]. rewrite H5, Hcls. intros Heq. injection Heq as Heq.
  apply H6. rewrite <- Heq. reflexivity.
Qed.

Lemma instantiate_clash c attrs props st :
  clashes props = true ->
  instantiate c attrs props st = (Raise TypeError, st).
Proof. intros H. unfold instantiate. now rewrite H. Qed.

(** Calling a tag whose [__call__] is the inherited one and whose
    attributes can be given back to its class, with content the
    specification covers. *)
Lemma call_spec b self args st os cs p :
  wf st -> heap st !! self = Some os -> o_class os = cls_Tag cs ->
  o_props os = Some p -> tc_base cs = b -> tc_raw_call cs = None ->
  b <> _LeafTag -> clashing (heap st) self = false ->
  Forall (content_ok (heap st)) args ->
  (b = _SingleChildTag -> length args = 1) ->
  exists r st' o,
    call (VRef self) args st = (Ok (VRef r), st') /\
    wf st' /\ extends st st' /\ heap st' !! r = Some o /\
    o_html o
    = Some (tag_html cs p (concat_str (map (content_text (heap st)) args))) /\
    o_class o <> o_class os.
Proof.
  intros W Hos Hcls Hp Hb Hr Hnl Hcf Hargs Hlen. destruct b; [congruence | |].
  - destruct args as [|child [|? ?]]; try (specialize (Hlen eq_refl);
      simpl in Hlen; lia).
    apply Forall_cons in Hargs as [Hc _].
    rewrite (call_single self child st os cs Hos Hcls Hb Hr).
    destruct (_SingleChildTag__call__spec self child st os cs W Hos Hcls Hb
                Hcf Hc)
      as (r & st' & o & H & W' & E & Ho & Hcalled).
    exists r, st', o. splits; auto.
    + simpl. rewrite append_nil_r.
      eapply called_receiver; eauto.
    + eapply called_receiver; eauto.
  - rewrite (call_composite self args st os cs Hos Hcls Hb Hr).
    destruct (_CompositeTag__call__spec self args st os cs W Hos Hcls Hb
                Hcf Hargs)
      as (r & st' & o & H & W' & E & Ho & Hcalled).
    exists r, st', o. splits; auto; eapply called_receiver; eauto.
Qed.


(** C4, where the code departs from it.  A composite tag that has an
    attribute named [self] cannot be called.  From every state in order
    whose cache does not answer the call, with content arguments that are
    strings, bytes that decode, or nodes: [__call__] normalises the
    arguments and makes the class, the class is called with the attributes
    of the tag as keywords, and binding the keyword [self] raises
    [TypeError]; no node is returned, and the state is left in order. *)
Theorem C4_call_raises_on_attribute_self
    (self : addr) (args : list pyval) (st : state) :
  wf st -> plain_tag _CompositeTag (heap st) self ->
  clashing (heap st) self = true ->
  Forall (admissible (heap st)) args ->
  lru_find (heap st) (VRef self :: args, []) (caches st C_CompositeTag_call)
  = None ->
  exists st', call (VRef self) args st = (Raise TypeError, st') /\ wf st'.
Proof.
  intros W (os & cs & Hos & Hcls & Hb & Hr) Hcf Hargs Hmiss.
  destruct (wf_props st self os cs W Hos Hcls) as [p Hp].
  unfold clashing in Hcf. rewrite Hos in Hcf. simpl in Hcf. rewrite Hp in Hcf.
  assert (Hch : Forall (content_ok (heap st)) args).
  { eapply Forall_impl; [exact Hargs|]. apply admissible_content_ok. }
  rewrite (call_composite self args st os cs Hos Hcls Hb Hr).
  unfold _CompositeTag__call__.
  match goal with
  | |- context [lru_cache ?f ?k ?body st] =>
      destruct (lru_cache_cases f k body st) as [(e & rest & F & _) | (_ & ->)]
  end.
  - unfold key_hashable. simpl. rewrite andb_true_r.
    clear - Hch. induction Hch as [|x xs Hx _ IH]; simpl; auto.
    destruct Hx as [-> _]. auto.
  - rewrite Hmiss in F. discriminate.
  - destruct (normalize_all_spec args st W Hch)
      as (vs & st1 & Hn & W1 & E1 & _).
    pose proof (extends_lookup _ _ _ _ E1 Hos) as Hos1.
    rewrite (bind_ok _ _ _ _ _ Hn).
    rewrite (bind_ok _ _ _ _ _ (class_of_ok _ _ _ _ Hos1 Hcls)).
    set (st2 := {| heap := heap st1; nclass := S (nclass st1);
                   caches := caches st1 |}).
    rewrite (bind_ok _ _ st1 (clone (nclass st1) cs) st2) by reflexivity.
    rewrite (bind_ok _ _ st2 p st2) by (eapply getattr_ok; eauto).
    rewrite (bind_raise _ _ _ _ _ (instantiate_clash _ _ _ _ Hcf)).
    exists st2. split; [reflexivity | apply wf_bump; exact W1].
Qed.

(** A covered call on a tag none of whose attributes is named [self]. *)
Lemma call_covered self args body st os cs p :
  wf st -> covered (heap st) self args body ->
  clashing (heap st) self = false ->
  heap st !! self = Some os -> o_class os = cls_Tag cs ->
  o_props os = Some p ->
  tc_base cs <> _LeafTag /\
  exists r st' o,
    call (VRef self) args st = (Ok (VRef r), st') /\
    wf st' /\ extends st st' /\ heap st' !! r = Some o /\
    o_html o = Some (tag_html cs p body) /\ o_class o <> o_class os.
Proof.
  intros W Hcov Hcf Hos Hcls Hp.
  destruct Hcov as [(b & (os' & cs' & Hos' & Hcls' & Hb & Hr) & Hnl & Hargs
                     & Hlen & ->)
                   | (os' & d & child & Hos' & Hd & Hraw & Hbase & Hcls'
                      & -> & ->)];
    rewrite Hos in Hos'; injection Hos' as <-;
    rewrite Hcls in Hcls'; injection Hcls' as Hcs; subst cs.
  - split; [congruence|].
    apply (call_spec b self args st os _ p); auto.
    eapply Forall_impl; [exact Hargs|]. apply admissible_content_ok.
  - split; [simpl; rewrite Hbase; discriminate|].
    rewrite (call_raw self child st os (class_of_def d) (cd_name d) Hos Hcls)
      by (simpl; now rewrite Hraw).
    destruct (raw__call__spec (cd_name d) d self child st os W Hd Hbase Hos
                Hcls Hcf)
      as (r & st' & o & H & W' & E & Ho & Hcalled).
    exists r, st', o. splits; auto;
      eapply called_receiver; eauto.
Qed.

Lemma covered_tag h self args body :
  covered h self args body ->
  exists o c, h !! self = Some o /\ o_class o = cls_Tag c.
Proof.
  intros [(b & (o & c & Ho & Hc & _) & _) | (o & d & child & Ho & _ & _ & _ & Hc & _)];
    eauto.
Qed.


(** C8, as amended.  For a single-child or composite tag whose [__call__]
    is the inherited one, from every state in order: an unhashable content
    argument raises [TypeError] (in the cache, before the body runs) and
    changes nothing; an integer that [str] converts, or [None], raises
    nothing when the cache does not answer the call (the tag having no
    attribute named [self]), and its [str] is what the result renders
    between the opening and the closing tag.  When the cache answers, the
    call returns the node it holds for that key.  (The cache compares keys
    with [==]: an entry stored for an equal value of another type answers
    the call with the node made for that value.) *)
Theorem C8_content_of_another_type
    (b : base) (self : addr) (st : state) :
  wf st -> plain_tag b (heap st) self -> b <> _LeafTag ->
  (forall v, hashable v = false ->
     call (VRef self) [v] st = (Raise TypeError, st)) /\
  (forall v e rest, hashable v = true ->
     lru_find (heap st) ([VRef self; v], []) (caches st (call_cache b))
     = Some (e, rest) ->
     fst (call (VRef self) [v] st) = Ok (snd e)) /\
  exists c p,
    (exists o, heap st !! self = Some o /\ o_class o = cls_Tag c /\
               o_props o = Some p) /\
    (clashing (heap st) self = false ->
     (forall z,
        converts z ->
        lru_find (heap st) ([VRef self; VInt z], []) (caches st (call_cache b))
        = None ->
        exists r st',
          call (VRef self) [VInt z] st = (Ok (VRef r), st') /\
          render (VRef r) st' = Ok (tag_html c p (str_of_int z))) /\
     (lru_find (heap st) ([VRef self; VNone], []) (caches st (call_cache b))
      = None ->
      exists r st',
        call (VRef self) [VNone] st = (Ok (VRef r), st') /\
        render (VRef r) st' = Ok (tag_html c p "None"))).
Proof.
  intros W (os & cs & Hos & Hcls & Hb & Hr) Hnl.
  destruct (wf_props st self os cs W Hos Hcls) as [p Hp].
  split; [|split].
  - intros v Hv. destruct b; [congruence | |].
    + rewrite (call_single self v st os cs Hos Hcls Hb Hr).
      apply lru_cache_unhashable. unfold key_hashable. simpl. now rewrite Hv.
    + rewrite (call_composite self [v] st os cs Hos Hcls Hb Hr).
      apply lru_cache_unhashable. unfold key_hashable. simpl. now rewrite Hv.
  - intros v e rest Hv Hfind. destruct b; [congruence | |].
    + rewrite (call_single self v st os cs Hos Hcls Hb Hr).
      unfold _SingleChildTag__call__, lru_cache, key_hashable. simpl.
      rewrite Hv. simpl in Hfind |- *. now rewrite Hfind.
    + rewrite (call_composite self [v] st os cs Hos Hcls Hb Hr).
      unfold _CompositeTag__call__, lru_cache, key_hashable. simpl.
      rewrite Hv. simpl in Hfind |- *. now rewrite Hfind.
  - exists cs, p. split; [eauto|]. intros Hcf. split.
    + intros z _ _.
      destruct (call_spec b self [VInt z] st os cs p W Hos Hcls Hp Hb Hr Hnl
                  Hcf)
        as (r & st' & o & H & W' & E & Ho & Hh & _); auto.
      { repeat constructor. }
      exists r, st'. split; [exact H|].
      rewrite (render_ref _ _ _ _ Ho Hh). simpl. now rewrite append_nil_r.
    + intros _.
      destruct (call_spec b self [VNone] st os cs p W Hos Hcls Hp Hb Hr Hnl
                  Hcf)
        as (r & st' & o & H & W' & E & Ho & Hh & _); auto.
      { repeat constructor. }
      exists r, st'. split; [exact H|].
      rewrite (render_ref _ _ _ _ Ho Hh). reflexivity.
Qed.


(** ** Equality and hashing *)

Lemma equal_iff st a b oa ob :
  wf st -> heap st !! a = Some oa -> heap st !! b = Some ob ->
  (equal a b st = true <-> o_class oa = o_class ob /\ o_html oa = o_html ob).
Proof.
  intros W Ha Hb. unfold equal, __eq__. rewrite Ha, Hb.
  destruct (wf_html st a oa W Ha) as [x Hx].
  destruct (wf_html st b ob W Hb) as [y Hy].
  rewrite Hx, Hy. rewrite andb_true_iff, bool_decide_eq_true, String.eqb_eq.
  split; intros [H1 H2]; split; congruence.
Qed.

Lemma hash_ok st a o :
  wf st -> heap st !! a = Some o ->
  exists s, __str__ a st = (Ok s, st) /\ __hash__ a st = (Ok (hash_str s), st).
Proof.
  intros W Ha. destruct (wf_heap st W a o Ha) as (s & Hs & Hh & _).
  exists s. split; eapply getattr_ok; eauto.
Qed.


(** ** Identity of cached results *)

Lemma MAX_CACHE_SIZE_pos : exists m, MAX_CACHE_SIZE = S m.
Proof. exists 12799. vm_compute. reflexivity. Qed.

(** A second call with the same key, straight after the first, is answered
    by the cache with the very same result, whatever the body. *)
Lemma lru_cache_again f k body body' st r st1 :
  lru_cache f k body st = (Ok r, st1) ->
  exists st2, lru_cache f k body' st1 = (Ok r, st2) /\ heap st2 = heap st1.
Proof.
  intros H. unfold lru_cache in H.
  destruct (key_hashable k) eqn:Hk; simpl in H; [|discriminate].
  unfold lru_cache. rewrite Hk. simpl.
  destruct (lru_find (heap st) k (caches st f)) as [[e rest]|] eqn:F.
  - injection H as <- <-. simpl.
    apply lru_find_Some in F as (Heq & _ & _).
    destruct (decide (f = f)); [|congruence]. simpl. rewrite Heq.
    eexists. split; reflexivity.
  - destruct (body st) as [[v|e] st'] eqn:B; [|discriminate].
    injection H as <- <-. simpl.
    destruct (decide (f = f)); [|congruence].
    destruct MAX_CACHE_SIZE_pos as [m ->]. simpl.
    rewrite key_eq_refl. eexists. split; reflexivity.
Qed.

(** Two successive calls of a decorated tag class with equal arguments
    return the same object. *)
Lemma construct_cached_twice name d attrs props st a st1 :
  find_def name = Some d -> cd_cached d = true ->
  construct name attrs props st = (Ok (VRef a), st1) ->
  exists st2, construct name attrs props st1 = (Ok (VRef a), st2).
Proof.
  unfold construct. intros -> -> H.
  destruct (lru_cache_again _ _ _
              (self <- instantiate (class_of_def d) attrs props;;
               ret (VRef self)) _ _ _ H) as (st2 & H2 & _).
  eauto.
Qed.

Lemma instantiate_composite_closed c attrs props st :
  tc_base c = _CompositeTag -> clashes props = false ->
  exists o,
    instantiate c attrs props st
    = (Ok (length (heap st)), set_heap (heap st ++ [o]) st).
Proof.
  intros Hb Hcf. unfold instantiate, new. rewrite Hcf.
  rewrite (bind_ok _ _ st (length (heap st))
             (set_heap (heap st ++ [blank (cls_Tag c)]) st)) by reflexivity.
  rewrite Hb. unfold _CompositeTag__init__, _Tag__init__, _setattr.
  eexists. erewrite bind_ok; cycle 1.
  { do 4 step. apply set_dom_mid. reflexivity. }
  reflexivity.
Qed.

(** C7, where the code departs from it.  The class statement of [Sub]
    carries no [lru_cache] decorator: two successive calls [Sub( ... )]
    with equal arguments (no keyword being [self]), from any state, return
    two distinct objects. *)
Theorem C7_Sub_is_not_memoized
    (attrs : list string) (props : list (string * option string))
    (st : state) :
  clashes props = false ->
  exists a st1 b st2,
    construct "Sub" attrs props st = (Ok (VRef a), st1) /\
    construct "Sub" attrs props st1 = (Ok (VRef b), st2) /\
    same_object a b = false.
Proof.
  intros Hcf. unfold construct.
  change (find_def "Sub")
    with (Some (mk_def "Sub" _CompositeTag "sub" false false)).
  cbn [cd_cached].
  set (c := class_of_def (mk_def "Sub" _CompositeTag "sub" false false)).
  destruct (instantiate_composite_closed c attrs props st eq_refl Hcf)
    as [o Ho].
  set (st1 := set_heap (heap st ++ [o]) st).
  destruct (instantiate_composite_closed c attrs props st1 eq_refl Hcf)
    as [o' Ho'].
  exists (length (heap st)), st1, (length (heap st1)), (set_heap (heap st1 ++ [o']) st1).
  rewrite (bind_ok _ _ _ _ _ Ho), (bind_ok _ _ _ _ _ Ho').
  splits; try reflexivity.
  unfold same_object, st1. simpl. rewrite length_app. simpl.
  apply Nat.eqb_neq. lia.
Qed.


(** ** The invariant along the API *)

Lemma construct_wf name d attrs props st :
  wf st -> find_def name = Some d ->
  wf (snd (construct name attrs props st)).
Proof.
  intros W Hd. destruct (clashes props) eqn:Hcf.
  - unfold construct. rewrite Hd. destruct (cd_cached d).
    + match goal with
      | |- context [lru_cache ?f ?k ?body st] =>
          destruct (lru_cache_cases f k body st (ctor_key_hashable _ _))
            as [(e & rest & F & ->) | (F & ->)]
      end.
      * simpl. apply lru_find_Some in F as (_ & Hin & Hrest).
        apply wf_set_cache; [assumption|]. intros k r Hin'. left.
        apply elem_of_cons in Hin' as [->|Hin']; auto.
      * unfold bind. now rewrite (instantiate_clash _ _ _ _ Hcf).
    + unfold bind. now rewrite (instantiate_clash _ _ _ _ Hcf).
  - destruct (construct_spec name d attrs props st W Hd Hcf)
      as (a & st' & o & H & W' & _).
    now rewrite H.
Qed.

Lemma _Text_wf s st : wf st -> wf (snd (_Text s st)).
Proof.
  intros W. destruct (_Text_spec s st W) as (a & st' & o & H & W' & _).
  now rewrite H.
Qed.

Lemma _RawText_wf s st : wf st -> wf (snd (_RawText s st)).
Proof.
  intros W. destruct (_RawText_spec s st W) as (a & st' & o & H & W' & _).
  now rewrite H.
Qed.

Lemma _Comment_wf s st : wf st -> wf (snd (_Comment s st)).
Proof.
  intros W. destruct (_Comment_spec s st W) as (a & st' & o & H & W' & _).
  now rewrite H.
Qed.

Lemma DocType_wf attrs st : wf st -> wf (snd (DocType attrs st)).
Proof.
  intros W. unfold DocType, new.
  erewrite bind_ok; cycle 1.
  { rewrite (bind_ok _ _ st (length (heap st))
               (set_heap (heap st ++ [blank cls_DocType]) st)) by reflexivity.
    unfold DocType__init__, _setattr.
    erewrite bind_ok; cycle 1.
    { do 2 step. apply set_dom_mid. reflexivity. }
    reflexivity. }
  simpl.
  match goal with
  | |- wf (set_heap (_ ++ [?x]) _) => set (o := x)
  end.
  eapply (wf_grow st _ o []); simpl; auto.
  - exists ("<!DOCTYPE" +:+ fmt_props (set_flags attrs []) +:+ ">").
    simpl. splits; auto. exists (set_flags attrs []). auto.
  - intros c n Hc. discriminate.
Qed.

Lemma call_wf self args body st :
  wf st -> covered (heap st) self args body ->
  clashing (heap st) self = false ->
  wf (snd (call (VRef self) args st)).
Proof.
  intros W Hcov Hcf.
  destruct (covered_tag _ _ _ _ Hcov) as (os & cs & Hos & Hcls).
  destruct (wf_props st self os cs W Hos Hcls) as [p Hp].
  destruct (call_covered self args body st os cs p W Hcov Hcf Hos Hcls Hp)
    as (_ & r & st' & o & H & W' & _).
  now rewrite H.
Qed.

(** * Further properties *)

(** ** What escaping guarantees *)

Lemma occurs_append c a b : occurs c (a +:+ b) = occurs c a || occurs c b.
Proof.
  induction a as [|x a IH]; simpl; [reflexivity|].
  now rewrite IH, orb_assoc.
Qed.

Lemma prefix_nil s : String.prefix "" s = true.
Proof. now destruct s. Qed.

Lemma safe_text_escape_each s : safe_text (escape_each s) = true.
Proof.
  induction s as [|c s IH]; [reflexivity|].
  cbn [escape_each]. unfold entity_of.
  repeat match goal with
         | |- context [Ascii.eqb c ?x] =>
             destruct (Ascii.eqb_spec c x);
             [subst; simpl; rewrite prefix_nil; exact IH|]
         end.
  simpl.
  repeat match goal with
         | |- context [Ascii.eqb c ?x] =>
             destruct (Ascii.eqb_spec c x); [congruence|]
         end.
  simpl. exact IH.
Qed.

Lemma safe_text_occurs s c :
  c = "<"%char \/ c = ">"%char \/ c = dquote \/ c = "'"%char ->
  safe_text s = true -> occurs c s = false.
Proof.
  intros Hc. induction s as [|x s IH]; simpl; [reflexivity|].
  intros H. apply andb_true_iff in H as [Hx Hs]. rewrite (IH Hs).
  rewrite orb_false_r.
  destruct (Ascii.eqb_spec x "&").
  - subst x. destruct Hc as [-> | [-> | [-> | ->]]]; reflexivity.
  - apply andb_true_iff in Hx as [Hx H4].
    apply andb_true_iff in Hx as [Hx H3].
    apply andb_true_iff in Hx as [H1 H2].
    destruct Hc as [-> | [-> | [-> | ->]]];
      match goal with
      | H : negb ?b = true |- ?b = false => now apply negb_true_iff in H
      end.
Qed.

Lemma escape_each_inj s : forall t, escape_each s = escape_each t -> s = t.
Proof.
  induction s as [|c s IH]; intros [|d t] H.
  - reflexivity.
  - exfalso. cbn [escape_each] in H. unfold entity_of in H.
    repeat match type of H with
           | context [Ascii.eqb d ?x] => destruct (Ascii.eqb d x)
           end; discriminate H.
  - exfalso. cbn [escape_each] in H. unfold entity_of in H.
    repeat match type of H with
           | context [Ascii.eqb c ?x] => destruct (Ascii.eqb c x)
           end; discriminate H.
  - cbn [escape_each] in H. unfold entity_of in H.
    repeat match type of H with
           | context [Ascii.eqb c ?x] =>
               destruct (Ascii.eqb_spec c x); [subst c|]
           end;
    repeat match type of H with
           | context [Ascii.eqb d ?x] =>
               destruct (Ascii.eqb_spec d x); [subst d|]
           end;
    try (apply append_inv_head in H; f_equal; now apply IH);
    simpl in H; try discriminate H;
    injection H as Hcd H; try congruence.
    subst d. f_equal. now apply IH.
Qed.

Lemma escape_inj s t : escape s = escape t -> s = t.
Proof. rewrite !escape_escape_each. apply escape_each_inj. Qed.

(** X1. Whatever the string, the escaped-text node made from it renders as
    text that is safe in HTML: it has no [<], no [>], no double quote and no
    single quote, and each of its ampersands begins one of the entities
    [&amp;], [&lt;], [&gt;], [&quot;], [&#x27;]. *)
Theorem text_node_renders_safe_text (s : string) (st : state) :
  wf st ->
  exists a st' html,
    _Text s st = (Ok (VRef a), st') /\
    render (VRef a) st' = Ok html /\
    safe_text html = true /\
    occurs "<" html = false /\ occurs ">" html = false /\
    occurs dquote html = false /\ occurs "'" html = false.
Proof.
  intros W.
  destruct (_Text_spec s st W) as (a & st' & o & H & _ & _ & Ho & _ & Hs).
  exists a, st', (escape s). split; [exact H|].
  split; [eapply render_ref; eauto|].
  assert (S : safe_text (escape s) = true)
    by (rewrite escape_escape_each; apply safe_text_escape_each).
  splits; auto; apply safe_text_occurs; auto.
Qed.

(** X2. Escaping loses nothing: an escaped-text node made from [s] and one
    made from [t] at any later time are equal, in either order, exactly
    when [s] is [t].  Made one straight after the other, they are then one
    and the same object. *)
Theorem text_nodes_equal_iff_same_text (s t : string) (st : state) :
  wf st ->
  exists a st1,
    _Text s st = (Ok (VRef a), st1) /\
    (forall st2, wf st2 -> extends st1 st2 ->
       exists b st3,
         _Text t st2 = (Ok (VRef b), st3) /\
         (equal a b st3 = true <-> s = t) /\
         (equal b a st3 = true <-> s = t)) /\
    (exists b st2,
       _Text t st1 = (Ok (VRef b), st2) /\
       (same_object a b = true <-> s = t)).
Proof.
  intros W.
  destruct (_Text_spec s st W)
    as (a & st1 & oa & H1 & W1 & _ & Ha & Hca & Hha).
  assert (Hany : forall st2, wf st2 -> extends st1 st2 ->
            exists b st3 ob,
              _Text t st2 = (Ok (VRef b), st3) /\ wf st3 /\
              heap st3 !! b = Some ob /\
              (equal a b st3 = true <-> s = t) /\
              (equal b a st3 = true <-> s = t)).
  { intros st2 W2 E12.
    destruct (_Text_spec t st2 W2)
      as (b & st3 & ob & H2 & W3 & E23 & Hb & Hcb & Hhb).
    pose proof (extends_lookup _ _ _ _ (extends_trans _ _ _ E12 E23) Ha)
      as Ha3.
    exists b, st3, ob. split; [exact H2|]. split; [exact W3|].
    split; [exact Hb|]. split.
    - rewrite (equal_iff st3 a b oa ob W3 Ha3 Hb). rewrite Hha, Hhb. split.
      + intros [_ E]. injection E as E. now apply escape_inj.
      + intros ->. split; congruence.
    - rewrite (equal_iff st3 b a ob oa W3 Hb Ha3). rewrite Hha, Hhb. split.
      + intros [_ E]. injection E as E. symmetry. now apply escape_inj.
      + intros ->. split; congruence. }
  exists a, st1. split; [exact H1|]. split.
  - intros st2 W2 E12.
    destruct (Hany st2 W2 E12) as (b & st3 & ob & H2 & _ & _ & Q1 & Q2).
    exists b, st3. auto.
  - destruct (Hany st1 W1 (extends_refl st1))
      as (b & st2 & ob & H2 & W2 & Hb & Heq & _).
    exists b, st2. split; [exact H2|].
    unfold same_object. rewrite Nat.eqb_eq. split.
    + intros ->. apply Heq.
      apply (equal_iff st2 b b ob ob W2 Hb Hb). auto.
    + intros <-. unfold _Text in H1.
      destruct (lru_cache_again _ _ _
                  (self <- new cls_Text (_Text__init__ s);; ret (VRef self))
                  _ _ _ H1) as (st2' & H2' & _).
      unfold _Text in H2. rewrite H2 in H2'. now injection H2'.
Qed.

(** X3. A comment cannot be closed by its own text: the rendered comment
    opens with [<!-- ], and [>] occurs in it only as its last character. *)
Theorem comment_closes_only_at_its_end (s : string) (st : state) :
  wf st ->
  exists a st' body,
    _Comment s st = (Ok (VRef a), st') /\
    render (VRef a) st' = Ok ("<!-- " +:+ body +:+ ">") /\
    occurs ">" ("<!-- " +:+ body) = false.
Proof.
  intros W.
  destruct (_Comment_spec s st W) as (a & st' & o & H & _ & _ & Ho & _ & Hs).
  exists a, st', (escape s +:+ " --"). split; [exact H|]. split.
  - rewrite (render_ref _ _ _ _ Ho Hs). f_equal.
    now rewrite append_assoc_s.
  - rewrite !occurs_append. change (occurs ">" "<!-- ") with false.
    change (occurs ">" " --") with false.
    rewrite escape_escape_each.
    rewrite (safe_text_occurs _ ">"); auto using safe_text_escape_each.
Qed.

(** ** Attributes side by side *)

Lemma concat_str_app a b :
  concat_str (a ++ b) = concat_str a +:+ concat_str b.
Proof.
  induction a as [|x a IH]; simpl; [reflexivity|].
  now rewrite IH, append_assoc_s.
Qed.

Lemma fmt_props_each l :
  fmt_props l
  = concat_str (map (fun kv => " " +:+ fmt_prop (fst kv) (snd kv)) l).
Proof.
  unfold fmt_props. induction l as [|x l IH]; [reflexivity|].
  destruct l as [|y l].
  - simpl. now rewrite append_nil_r.
  - change (concat_str (map _ (x :: y :: l)))
      with ((" " +:+ fmt_prop (fst x) (snd x))
              +:+ concat_str
                    (map (fun kv => " " +:+ fmt_prop (fst kv) (snd kv))
                       (y :: l))).
    rewrite <- IH. reflexivity.
Qed.

(** X4. Attributes render independently of one another: every attribute
    contributes a space and its own [fmt_prop], so [fmt_props] of two
    sequences of attributes put end to end is the concatenation of their
    [fmt_props]. *)
Theorem fmt_props_concatenates (a b : list (string * option string)) :
  fmt_props (a ++ b) = fmt_props a +:+ fmt_props b /\
  fmt_props a
  = concat_str (map (fun kv => " " +:+ fmt_prop (fst kv) (snd kv)) a).
Proof.
  split; [|apply fmt_props_each].
  now rewrite !fmt_props_each, map_app, concat_str_app.
Qed.

(** ** Quoting loses nothing *)

Lemma backslash_quotes_head t r : backslash_quotes t <> String dquote r.
Proof.
  destruct t as [|c t]; simpl; [discriminate|].
  destruct (Ascii.eqb_spec c dquote); simpl; [discriminate|congruence].
Qed.

Lemma backslash_quotes_inj s :
  forall t, backslash_quotes s = backslash_quotes t -> s = t.
Proof.
  induction s as [|c s IH]; intros [|d t] H; simpl in H.
  - reflexivity.
  - destruct (Ascii.eqb d dquote); discriminate.
  - destruct (Ascii.eqb c dquote); discriminate.
  - destruct (Ascii.eqb_spec c dquote), (Ascii.eqb_spec d dquote);
      simpl in H.
    + subst. injection H as H. f_equal. auto.
    + exfalso. injection H as _ H. symmetry in H.
      now apply backslash_quotes_head in H.
    + exfalso. injection H as _ H. now apply backslash_quotes_head in H.
    + injection H as -> H. f_equal. auto.
Qed.

(** X5. Quoting an attribute value loses nothing: [double_quote] gives the
    same text for two strings only when they are the same string, and so
    does [fmt_prop] for two values of one attribute name. *)
Theorem double_quote_injective (key s t : string) :
  (double_quote s = double_quote t <-> s = t) /\
  (fmt_prop key (Some s) = fmt_prop key (Some t) <-> s = t).
Proof.
  assert (A : double_quote s = double_quote t -> s = t).
  { unfold double_quote. rewrite !replace_backslash_quotes. intros H.
    apply append_inv_head in H. apply append_inv_tail in H.
    now apply backslash_quotes_inj. }
  split; split; try (intros ->; reflexivity); [exact A|].
  unfold fmt_prop. intros H. do 2 apply append_inv_head in H. auto.
Qed.

(** ** Memoised constructors and calls *)

(** X7. The decorated constructors return the cached object: called twice
    in a row with equal arguments, each of the decorated tag classes (with
    keywords that can be bound) and each of [_Text], [_RawText] and
    [_Comment] returns one and the same object, and the second call
    allocates nothing. *)
Theorem decorated_constructors_return_the_cached_object (st : state) :
  wf st ->
  (forall name d attrs props,
     find_def name = Some d -> cd_cached d = true ->
     clashes props = false ->
     exists a st1 st2,
       construct name attrs props st = (Ok (VRef a), st1) /\
       construct name attrs props st1 = (Ok (VRef a), st2) /\
       heap st2 = heap st1) /\
  (forall ctor s,
     ctor = _Text \/ ctor = _RawText \/ ctor = _Comment ->
     exists a st1 st2,
       ctor s st = (Ok (VRef a), st1) /\ ctor s st1 = (Ok (VRef a), st2) /\
       heap st2 = heap st1).
Proof.
  intros W. split.
  - intros name d attrs props Hd Hc Hcf.
    destruct (construct_spec name d attrs props st W Hd Hcf)
      as (a & st1 & o & H & _).
    exists a, st1. pose proof H as H'. unfold construct in H' |- *.
    rewrite Hd, Hc in *.
    destruct (lru_cache_again _ _ _
                (self <- instantiate (class_of_def d) attrs props ;;
                 ret (VRef self)) _ _ _ H') as (st2 & H2 & Hh).
    exists st2. auto.
  - intros ctor s [-> | [-> | ->]].
    + destruct (_Text_spec s st W) as (a & st1 & o & H & _).
      exists a, st1. pose proof H as H'. unfold _Text in H' |- *.
      destruct (lru_cache_again _ _ _
                  (self <- new cls_Text (_Text__init__ s) ;; ret (VRef self))
                  _ _ _ H') as (st2 & H2 & Hh).
      exists st2. auto.
    + destruct (_RawText_spec s st W) as (a & st1 & o & H & _).
      exists a, st1. pose proof H as H'. unfold _RawText in H' |- *.
      destruct (lru_cache_again _ _ _
                  (self <- new cls_RawText (_RawText__init__ s) ;;
                   ret (VRef self))
                  _ _ _ H') as (st2 & H2 & Hh).
      exists st2. auto.
    + destruct (_Comment_spec s st W) as (a & st1 & o & H & _).
      exists a, st1. pose proof H as H'. unfold _Comment in H' |- *.
      destruct (lru_cache_again _ _ _
                  (self <- new cls_Comment (_Comment__init__ s) ;;
                   ret (VRef self))
                  _ _ _ H') as (st2 & H2 & Hh).
      exists st2. auto.
Qed.

(** X8. Attaching content is memoised too: a tag called twice in a row
    with the same content returns one and the same node, and the second
    call allocates nothing. *)
Theorem repeated_call_returns_the_cached_node
    (self : addr) (args : list pyval) (body : string) (st : state) :
  wf st -> covered (heap st) self args body ->
  clashing (heap st) self = false ->
  exists r st1 st2,
    call (VRef self) args st = (Ok (VRef r), st1) /\
    call (VRef self) args st1 = (Ok (VRef r), st2) /\
    heap st2 = heap st1.
Proof.
  intros W Hcov Hcf.
  destruct (covered_tag _ _ _ _ Hcov) as (os & cs & Hos & Hcls).
  destruct (wf_props st self os cs W Hos Hcls) as [p Hp].
  destruct (call_covered self args body st os cs p W Hcov Hcf Hos Hcls Hp)
    as (_ & r & st1 & o & H & _ & E & _).
  pose proof (extends_lookup _ _ _ _ E Hos) as Hos1.
  pose proof H as H0. exists r, st1.
  destruct Hcov as [(b & (os' & cs' & Hos' & Hcls' & Hb & Hr) & Hnl & Hargs
                     & Hlen & _)
                   | (os' & d & child & Hos' & Hd & Hraw & Hbase & Hcls'
                      & -> & _)];
    rewrite Hos in Hos'; injection Hos' as <-;
    rewrite Hcls in Hcls'; injection Hcls' as Hcs; subst cs.
  - destruct b; [congruence | |].
    + destruct args as [|child [|? ?]];
        try (specialize (Hlen eq_refl); simpl in Hlen; lia).
      rewrite (call_single self child st os _ Hos Hcls Hb Hr) in H.
      rewrite (call_single self child st1 os _ Hos1 Hcls Hb Hr).
      unfold _SingleChildTag__call__ in *.
      match type of H with
      | lru_cache ?f ?k ?bd st = _ =>
          destruct (lru_cache_again f k bd bd st (VRef r) st1 H)
            as (st2 & H2 & Hh)
      end.
      exists st2. split; [exact H0|]. split; [exact H2 | exact Hh].
    + rewrite (call_composite self args st os _ Hos Hcls Hb Hr) in H.
      rewrite (call_composite self args st1 os _ Hos1 Hcls Hb Hr).
      unfold _CompositeTag__call__ in *.
      match type of H with
      | lru_cache ?f ?k ?bd st = _ =>
          destruct (lru_cache_again f k bd bd st (VRef r) st1 H)
            as (st2 & H2 & Hh)
      end.
      exists st2. split; [exact H0|]. split; [exact H2 | exact Hh].
  - assert (Hrc : tc_raw_call (class_of_def d) = Some (cd_name d))
      by (simpl; now rewrite Hraw).
    rewrite (call_raw self child st os _ _ Hos Hcls Hrc) in H.
    rewrite (call_raw self child st1 os _ _ Hos1 Hcls Hrc).
    unfold raw__call__ in *.
    match type of H with
    | lru_cache ?f ?k ?bd st = _ =>
        destruct (lru_cache_again f k bd bd st (VRef r) st1 H)
          as (st2 & H2 & Hh)
    end.
    exists st2. split; [exact H0|]. split; [exact H2 | exact Hh].
Qed.

(** ** The doctype *)

Lemma DocType_run attrs st :
  wf st ->
  exists o,
    DocType attrs st
    = (Ok (VRef (length (heap st))), set_heap (heap st ++ [o]) st) /\
    o_class o = cls_DocType /\
    o_html o = Some ("<!DOCTYPE" +:+ fmt_props (set_flags attrs []) +:+ ">") /\
    wf (set_heap (heap st ++ [o]) st).
Proof.
  intros W. pose proof (DocType_wf attrs st W) as W'.
  assert (Hrun : exists o,
            DocType attrs st
            = (Ok (VRef (length (heap st))), set_heap (heap st ++ [o]) st) /\
            o_class o = cls_DocType /\
            o_html o
            = Some ("<!DOCTYPE" +:+ fmt_props (set_flags attrs []) +:+ ">")).
  { unfold DocType, new.
    erewrite bind_ok; cycle 1.
    { rewrite (bind_ok _ _ st (length (heap st))
                 (set_heap (heap st ++ [blank cls_DocType]) st))
        by reflexivity.
      unfold DocType__init__, _setattr.
      erewrite bind_ok; cycle 1.
      { do 2 step. apply set_dom_mid. reflexivity. }
      reflexivity. }
    eexists. split; [reflexivity|]. simpl. auto. }
  destruct Hrun as (o & H & Hc & Hh). exists o.
  rewrite H in W'. simpl in W'. auto.
Qed.

(** X9. [DocType( *attrs )] renders as [<!DOCTYPE], the attributes as
    flags, each once, in the order of their first occurrence, and [>].
    The class is not memoised: two calls in a row with equal arguments
    give two objects, which are equal and render alike. *)
Theorem DocType_renders_and_is_not_cached (attrs : list string) (st : state) :
  wf st ->
  exists a st1 b st2,
    DocType attrs st = (Ok (VRef a), st1) /\
    DocType attrs st1 = (Ok (VRef b), st2) /\
    wf st2 /\
    render (VRef a) st1
    = Ok ("<!DOCTYPE" +:+ fmt_props (map flag (first_occurrences attrs))
          +:+ ">") /\
    render (VRef b) st2 = render (VRef a) st1 /\
    same_object a b = false /\
    equal a b st2 = true.
Proof.
  intros W.
  destruct (DocType_run attrs st W) as (o1 & H1 & Hc1 & Hh1 & W1).
  destruct (DocType_run attrs _ W1) as (o2 & H2 & Hc2 & Hh2 & W2).
  simpl in H2.
  assert (Hf : set_flags attrs [] = map flag (first_occurrences attrs)).
  { rewrite set_flags_disjoint; [reflexivity|]. intros k _ Hk. inversion Hk. }
  rewrite Hf in *.
  assert (L1 : (heap st ++ [o1]) !! length (heap st) = Some o1)
    by apply lookup_mid.
  assert (L2 : ((heap st ++ [o1]) ++ [o2]) !! length (heap st ++ [o1])
               = Some o2) by apply lookup_mid.
  assert (L1' : ((heap st ++ [o1]) ++ [o2]) !! length (heap st) = Some o1)
    by (apply lookup_old; exact L1).
  eexists _, _, _, _. split; [exact H1|]. split; [exact H2|].
  split; [exact W2|].
  assert (R1 : render (VRef (length (heap st))) (set_heap (heap st ++ [o1]) st)
               = Ok ("<!DOCTYPE"
                     +:+ fmt_props (map flag (first_occurrences attrs))
                     +:+ ">"))
    by (eapply render_ref; [exact L1 | exact Hh1]).
  split; [exact R1|]. split.
  - rewrite R1. eapply render_ref; [exact L2 | exact Hh2].
  - split.
    + unfold same_object. apply Nat.eqb_neq. rewrite length_app. simpl. lia.
    + apply (equal_iff _ _ _ o1 o2 W2 L1' L2). split; congruence.
Qed.

(** ** The debug representation, where it works *)

(** X10. The debug representation of a text node shows the string it was
    made from: [repr(_Text(s))] is [repr(s)], [repr(_RawText(s))] is the
    [repr] of the bytes of [s], and [repr(_Comment(s))] is [_Comment(]
    [repr(s)] [)]. *)
Theorem repr_of_text_nodes (s : string) (fuel : nat) (st : state) :
  wf st ->
  (exists a st1,
      _Text s st = (Ok (VRef a), st1) /\
      py_repr (S fuel) (VRef a) st1 = (Ok (repr_str s), st1)) /\
  (exists a st1,
      _RawText s st = (Ok (VRef a), st1) /\
      py_repr (S fuel) (VRef a) st1 = (Ok (repr_bytes s), st1)) /\
  (exists a st1,
      _Comment s st = (Ok (VRef a), st1) /\
      py_repr (S fuel) (VRef a) st1
      = (Ok ("_Comment(" +:+ repr_str s +:+ ")"), st1)).
Proof.
  intros W. splits.
  - destruct (_Text_spec s st W) as (a & st1 & o & H & W1 & _ & Ho & Hc & Hh).
    exists a, st1. split; [exact H|].
    destruct (wf_heap st1 W1 a o Ho) as (x & Hx & _ & Hk).
    rewrite Hc in Hk. destruct Hk as (v & Hv & ->).
    rewrite Hh in Hx. injection Hx as Hx. apply escape_inj in Hx. subst v.
    simpl. rewrite (bind_ok _ _ _ _ _ (deref_ok _ _ _ Ho)). rewrite Hc.
    now rewrite (bind_ok _ _ _ _ _ (getattr_ok o_value _ _ _ _ Ho Hv)).
  - destruct (_RawText_spec s st W)
      as (a & st1 & o & H & W1 & _ & Ho & Hc & Hh).
    exists a, st1. split; [exact H|].
    destruct (wf_heap st1 W1 a o Ho) as (x & Hx & _ & Hk).
    rewrite Hc in Hk. rewrite Hh in Hx. injection Hx as <-.
    simpl. rewrite (bind_ok _ _ _ _ _ (deref_ok _ _ _ Ho)). rewrite Hc.
    now rewrite (bind_ok _ _ _ _ _ (getattr_ok o_value _ _ _ _ Ho Hk)).
  - destruct (_Comment_spec s st W)
      as (a & st1 & o & H & W1 & _ & Ho & Hc & Hh).
    exists a, st1. split; [exact H|].
    destruct (wf_heap st1 W1 a o Ho) as (x & Hx & _ & Hk).
    rewrite Hc in Hk. destruct Hk as (v & Hv & ->).
    rewrite Hh in Hx. injection Hx as Hx.
    apply append_inv_tail in Hx.
    apply escape_inj in Hx. subst v.
    simpl. rewrite (bind_ok _ _ _ _ _ (deref_ok _ _ _ Ho)). rewrite Hc.
    now rewrite (bind_ok _ _ _ _ _ (getattr_ok o_value _ _ _ _ Ho Hv)).
Qed.

Lemma find_def_name name d : find_def name = Some d -> cd_name d = name.
Proof.
  unfold find_def. intros H. apply find_some in H as [_ H].
  now apply String.eqb_eq in H.
Qed.

(** X11. The debug representation of a leaf or composite tag made with no
    attribute, and given no content, is the call that makes it:
    [repr(Name())] is [Name()]. *)
Theorem repr_of_a_tag_without_attributes
    (name : string) (d : class_def) (fuel : nat) (st : state) :
  wf st -> find_def name = Some d -> cd_base d <> _SingleChildTag ->
  exists a st1,
    construct name [] [] st = (Ok (VRef a), st1) /\
    py_repr (S fuel) (VRef a) st1 = (Ok (name +:+ "()"), st1).
Proof.
  intros W Hd Hb.
  destruct (construct_spec name d [] [] st W Hd eq_refl)
    as (a & st1 & o & H & W1 & _ & Ho & Hc & Hp & _).
  exists a, st1. split; [exact H|].
  change (set_flags [] []) with (@nil (string * option string)) in Hp.
  destruct (wf_heap st1 W1 a o Ho) as (x & _ & _ & Hk).
  rewrite Hc in Hk. destruct Hk as (p & Hp' & Hk).
  simpl. rewrite (bind_ok _ _ _ _ _ (deref_ok _ _ _ Ho)). rewrite Hc.
  simpl in *. rewrite (find_def_name name d Hd).
  destruct (cd_base d); [|congruence|].
  - now rewrite (bind_ok _ _ _ _ _ (getattr_ok o_props _ _ _ _ Ho Hp)).
  - destruct Hk as (children & Hch & _ & _ & Hs). rewrite (Hs eq_refl) in Hch.
    rewrite (bind_ok _ _ _ _ _ (getattr_ok o_children _ _ _ _ Ho Hch)).
    now rewrite (bind_ok _ _ _ _ _ (getattr_ok o_props _ _ _ _ Ho Hp)).
Qed.

(** ** Bytes that do not decode *)

Lemma normalize_all_raise pre c post e :
  forall st vs st1 st2,
    normalize_all pre st = (Ok vs, st1) ->
    normalize c st1 = (Raise e, st2) ->
    normalize_all (pre ++ c :: post) st = (Raise e, st2).
Proof.
  induction pre as [|x pre IH]; intros st vs st1 st2 H Hc; simpl in *.
  - injection H as <- <-. now rewrite (bind_raise _ _ _ _ _ Hc).
  - unfold bind in H |- *.
    destruct (normalize x st) as [[v|e'] st'] eqn:Hx; [|discriminate].
    fold (@bind (list pyval) (list pyval)) in *.
    destruct (normalize_all pre st') as [[vs'|e'] st''] eqn:Hpre;
      [|discriminate].
    injection H as <- <-.
    now rewrite (IH st' vs' st'' st2 Hpre Hc).
Qed.

(** X12. Bytes that are not UTF-8 are refused: when one of the content
    arguments of a composite tag is such a byte string, the arguments
    before it being strings, bytes that decode or nodes, the call (not
    being in the cache) raises [UnicodeDecodeError]; the tag is what it
    was and the state is in order. *)
Theorem undecodable_bytes_are_refused
    (self : addr) (pre post : list pyval) (b : string) (st : state) :
  wf st -> plain_tag _CompositeTag (heap st) self ->
  Forall (admissible (heap st)) pre -> valid_utf8 b = false ->
  Forall (fun v => hashable v = true) post ->
  lru_find (heap st) (VRef self :: pre ++ VBytes b :: post, [])
    (caches st C_CompositeTag_call) = None ->
  exists st',
    call (VRef self) (pre ++ VBytes b :: post) st
    = (Raise UnicodeDecodeError, st') /\
    wf st' /\ heap st' !! self = heap st !! self.
Proof.
  intros W (os & cs & Hos & Hcls & Hb & Hr) Hpre Hbad Hpost Hmiss.
  assert (Hch : Forall (content_ok (heap st)) pre).
  { eapply Forall_impl; [exact Hpre|]. apply admissible_content_ok. }
  rewrite (call_composite self _ st os cs Hos Hcls Hb Hr).
  unfold _CompositeTag__call__.
  match goal with
  | |- context [lru_cache ?f ?k ?body st] =>
      destruct (lru_cache_cases f k body st) as [(e & rest & F & _) | (_ & ->)]
  end.
  - unfold key_hashable. simpl. rewrite andb_true_r, forallb_app. simpl.
    apply andb_true_iff. split.
    + clear - Hch. induction Hch as [|x xs Hx _ IH]; simpl; auto.
      destruct Hx as [-> _]. auto.
    + clear - Hpost. induction Hpost as [|x xs Hx _ IH]; simpl; auto.
      now rewrite Hx.
  - rewrite Hmiss in F. discriminate.
  - destruct (normalize_all_spec pre st W Hch)
      as (vs & st1 & Hn & W1 & E1 & _).
    assert (Hc : normalize (VBytes b) st1 = (Raise UnicodeDecodeError, st1)).
    { simpl. unfold bind, lift, decode_utf8. now rewrite Hbad. }
    rewrite (bind_raise _ _ _ _ _
               (normalize_all_raise pre (VBytes b) post _ st vs st1 st1 Hn Hc)).
    exists st1. split; [reflexivity|]. split; [exact W1|].
    now rewrite Hos, (extends_lookup _ _ _ _ E1 Hos).
Qed.

(** ** Style sheets *)

Lemma generate_app {A B} (f : A -> result B) a b :
  generate f (a ++ b)
  = match generate f a with
    | Raise e => Raise e
    | Ok xs =>
        match generate f b with
        | Raise e => Raise e
        | Ok ys => Ok (xs ++ ys)
        end
    end.
Proof.
  induction a as [|x a IH]; simpl.
  - now destruct (generate f b).
  - destruct (f x); [|reflexivity]. rewrite IH.
    destruct (generate f a); [|reflexivity]. now destruct (generate f b).
Qed.

Lemma generate_length {A B} (f : A -> result B) l ys :
  generate f l = Ok ys -> length ys = length l.
Proof.
  revert ys. induction l as [|x l IH]; intros ys H; simpl in H.
  - now injection H as <-.
  - destruct (f x); [|discriminate].
    destruct (generate f l) as [zs|]; [|discriminate].
    injection H as <-. simpl. now rewrite (IH zs).
Qed.

Lemma generate_raises {A B} (f : A -> result B) l e :
  generate f l = Raise e <-> Exists (fun x => f x = Raise e) l
    /\ exists pre x post, l = pre ++ x :: post /\ f x = Raise e
         /\ Forall (fun y => exists z, f y = Ok z) pre.
Proof.
  split.
  - induction l as [|x l IH]; simpl; [discriminate|].
    destruct (f x) as [y|e'] eqn:Hx.
    + destruct (generate f l) as [ys|e'']; [discriminate|].
      intros H. injection H as ->.
      destruct (IH eq_refl) as (Hex & pre & x' & post & -> & Hx' & Hpre).
      split; [now right|].
      exists (x :: pre), x', post. splits; auto. constructor; eauto.
    + intros H. injection H as ->. split; [now left|].
      exists [], x, l. splits; auto.
  - intros (_ & pre & x & post & -> & Hx & Hpre).
    induction Hpre as [|y pre (z & Hy) _ IH]; simpl.
    + now rewrite Hx.
    + rewrite Hy. now rewrite IH.
Qed.

Lemma join_app sep a b :
  a <> [] -> b <> [] ->
  join sep (a ++ b) = join sep a +:+ sep +:+ join sep b.
Proof.
  intros Ha Hb. induction a as [|x a IH]; [congruence|].
  destruct a as [|y a].
  - simpl. destruct b; [congruence | reflexivity].
  - change (join sep ((x :: y :: a) ++ b))
      with (x +:+ sep +:+ join sep ((y :: a) ++ b)).
    rewrite IH by discriminate.
    change (join sep (x :: y :: a)) with (x +:+ sep +:+ join sep (y :: a)).
    now rewrite !append_assoc_s.
Qed.

Lemma style_item_raises k v e :
  style_item k v = Raise e <-> e = TypeError /\ not_iterable (k, v).
Proof.
  unfold not_iterable. destruct v; simpl; split; try discriminate.
  - intros (_ & z & H). discriminate.
  - intros (_ & z & H). discriminate.
  - intros H. injection H as <-. eauto.
  - intros (-> & _). reflexivity.
Qed.

Lemma style_raises code e :
  style code = Raise e <-> e = TypeError /\ Exists not_iterable code.
Proof.
  unfold style. split.
  - destruct (generate _ code) as [xs|e'] eqn:G; [discriminate|].
    intros H. injection H as ->.
    apply generate_raises in G as (G & _). split.
    + apply Exists_exists in G as ([k v] & _ & G).
      now apply style_item_raises in G.
    + eapply Exists_impl; [exact G|]. intros [k v] Hkv.
      now apply style_item_raises in Hkv.
  - intros (-> & H).
    induction H as [[k v] l H | [k v] l _ IH]; simpl.
    + destruct H as [z Hz]. simpl in Hz. now subst.
    + destruct (style_item k v) as [y|e] eqn:Hy.
      * destruct (generate _ l); [discriminate | congruence].
      * apply style_item_raises in Hy as [-> _]. reflexivity.
Qed.

(** X13. [style] renders one declaration as its key, a colon, and the
    [repr] of its value if that is a string, the [repr]s of its items joined
    by commas if it is a sequence, closed by a semicolon; and it puts the
    declarations one after the other: for two non-empty sequences of
    declarations, the style of their concatenation is the concatenation of
    their styles, while no declaration at all gives a lone semicolon.  It
    raises only [TypeError], and does so exactly when a value is neither a
    string nor iterable. *)
Theorem style_composes (code1 code2 : list (string * style_value)) :
  (forall x y,
     style code1 = Ok x -> style code2 = Ok y ->
     code1 <> [] -> code2 <> [] -> style (code1 ++ code2) = Ok (x +:+ y)) /\
  style [] = Ok ";" /\
  (forall k s,
     style [(k, SStr s)] = Ok (k +:+ ":" +:+ repr_str s +:+ ";")) /\
  (forall k items,
     style [(k, SSeq items)]
     = Ok (k +:+ ":" +:+ join "," (map repr_str items) +:+ ";")) /\
  (forall e, style code1 = Raise e -> e = TypeError) /\
  (style code1 = Raise TypeError <-> Exists not_iterable code1).
Proof.
  splits.
  - intros x y H1 H2 Hn1 Hn2. unfold style in *. rewrite generate_app.
    destruct (generate _ code1) as [xs|] eqn:G1; [|discriminate].
    destruct (generate _ code2) as [ys|] eqn:G2; [|discriminate].
    injection H1 as <-. injection H2 as <-.
    rewrite join_app.
    + now rewrite !append_assoc_s.
    + apply generate_length in G1. destruct xs, code1; simpl in *; congruence.
    + apply generate_length in G2. destruct ys, code2; simpl in *; congruence.
  - reflexivity.
  - intros k s. unfold style. simpl. now rewrite !append_assoc_s.
  - intros k items. unfold style. simpl. now rewrite !append_assoc_s.
  - intros e H. now apply style_raises in H.
  - rewrite style_raises. split; [now intros [_ H] | auto].
Qed.

Lemma css_rule_raises k body e :
  css_rule k body = Raise e <-> style body = Raise e.
Proof. unfold css_rule. destruct (style body); split; congruence. Qed.

(** X14. [css] puts the rules one after the other, each as its selector
    and the style of its declarations between braces: the sheet of two
    sequences of rules put end to end is the concatenation of their
    sheets, and no rule at all gives the empty sheet.  It raises only
    [TypeError], and does so exactly when a value of a declaration of a
    rule is neither a string nor iterable. *)
Theorem css_composes
    (code1 code2 : list (string * list (string * style_value))) :
  (forall x y,
     css code1 = Ok x -> css code2 = Ok y ->
     css (code1 ++ code2) = Ok (x +:+ y)) /\
  css [] = Ok "" /\
  (forall k body s, style body = Ok s ->
     css [(k, body)] = Ok (k +:+ "{" +:+ s +:+ "}")) /\
  (forall e, css code1 = Raise e -> e = TypeError) /\
  (css code1 = Raise TypeError
   <-> Exists (fun rule => Exists not_iterable (snd rule)) code1).
Proof.
  assert (R : forall code e,
            css code = Raise e <->
            generate (fun kv => css_rule (fst kv) (snd kv)) code = Raise e).
  { intros code e. unfold css.
    destruct (generate _ code); split; congruence. }
  splits.
  - intros x y H1 H2. unfold css in *. rewrite generate_app.
    destruct (generate _ code1) as [xs|]; [|discriminate].
    destruct (generate _ code2) as [ys|]; [|discriminate].
    injection H1 as <-. injection H2 as <-. now rewrite concat_str_app.
  - reflexivity.
  - intros k body s H. unfold css, css_rule. simpl. rewrite H. simpl.
    now rewrite append_nil_r.
  - intros e H. apply R, generate_raises in H as (H & _).
    apply Exists_exists in H as ([k body] & _ & H).
    apply css_rule_raises in H. now apply style_raises in H.
  - rewrite R. split.
    + intros H. apply generate_raises in H as (H & _).
      eapply Exists_impl; [exact H|]. intros [k body] Hkv.
      apply css_rule_raises in Hkv. now apply style_raises in Hkv.
    + intros H. induction H as [[k body] l H | [k body] l _ IH]; simpl.
      * assert (Hs : style body = Raise TypeError)
          by (apply style_raises; auto).
        unfold css_rule. now rewrite Hs.
      * destruct (css_rule k body) as [y|e] eqn:Hy.
        -- now rewrite IH.
        -- apply css_rule_raises in Hy.
           now apply style_raises in Hy as [-> _].
Qed.

(** ** Nodes are never changed *)

Lemma framed_ret {A} h0 (Q : A -> Prop) a : Q a -> framed h0 Q (ret a).
Proof.
  intros H st Hst. split; [exact Hst|]. simpl. intros b Hb.
  now injection Hb as <-.
Qed.

Lemma framed_raise {A} h0 (Q : A -> Prop) e : framed h0 Q (raise e).
Proof. intros st Hst. split; [exact Hst|]. discriminate. Qed.

Lemma framed_lift {A} h0 (r : result A) : framed h0 any (lift r).
Proof. intros st Hst. split; [exact Hst|]. now intros. Qed.

Lemma framed_any {A} h0 (Q : A -> Prop) m : framed h0 Q m -> framed h0 any m.
Proof. intros H st Hst. split; [apply (H st Hst) | now intros]. Qed.

Lemma framed_bind {A B} h0 (Q : A -> Prop) (R : B -> Prop) m f :
  framed h0 Q m -> (forall a, Q a -> framed h0 R (f a)) ->
  framed h0 R (bind m f).
Proof.
  intros Hm Hf st Hst. destruct (Hm st Hst) as [H1 H2]. unfold bind.
  destruct (m st) as [[a|e] st']; simpl in *.
  - apply Hf; auto.
  - split; [exact H1 | discriminate].
Qed.

Lemma framed_deref h0 a : framed h0 any (deref a).
Proof.
  intros st Hst. unfold deref.
  destruct (heap st !! a); (split; [exact Hst | now intros]).
Qed.

Lemma framed_getattr {A} h0 (slot : object -> option A) a :
  framed h0 any (getattr slot a).
Proof.
  eapply framed_bind; [apply framed_deref|]. intros o _.
  destruct (slot o); [now apply framed_ret | apply framed_raise].
Qed.

Lemma framed_object_new h0 c : framed h0 (beyond h0) (object_new c).
Proof.
  intros st [l Hl]. split; simpl.
  - exists (l ++ [blank c]). now rewrite Hl, app_assoc.
  - intros a H. injection H as <-. unfold beyond.
    rewrite Hl, length_app. lia.
Qed.

Lemma framed_object_setattr h0 self w :
  beyond h0 self -> framed h0 any (object_setattr self w).
Proof.
  intros Hs st [l Hl]. unfold object_setattr.
  destruct (heap st !! self) as [o|]; (split; [|now intros]); simpl.
  - exists (<[self - length h0 := write_slot w o]> l).
    rewrite Hl. now apply insert_app_r_alt.
  - eauto.
Qed.

Lemma framed_set_dom h0 self html :
  beyond h0 self -> framed h0 any (_set_dom_properties self html).
Proof.
  intros Hs. eapply framed_bind; [now apply framed_object_setattr|].
  intros _ _. now apply framed_object_setattr.
Qed.

Lemma framed_new h0 c init :
  (forall self, beyond h0 self -> framed h0 any (init self)) ->
  framed h0 (beyond h0) (new c init).
Proof.
  intros H. eapply framed_bind; [apply framed_object_new|]. intros self Hs.
  eapply framed_bind; [now apply H|]. intros _ _. now apply framed_ret.
Qed.

Lemma framed_lru_cache h0 (Q : pyval -> Prop) f k body :
  framed h0 Q body -> framed h0 any (lru_cache f k body).
Proof.
  intros Hb st Hst. unfold lru_cache. split; [|now intros].
  destruct (negb (key_hashable k)); [exact Hst|].
  destruct (lru_find (heap st) k (caches st f)) as [[e rest]|]; [exact Hst|].
  destruct (Hb st Hst) as [H _].
  now destruct (body st) as [[r|e] st'].
Qed.

Lemma framed_text_init h0 c value html :
  framed h0 any
    (self <- new c (fun self => _setattr self (W_value value) ;;
                                _set_dom_properties self html) ;;
     ret (VRef self)).
Proof.
  eapply framed_bind; [|intros self _; now apply framed_ret].
  apply framed_new. intros self Hs. unfold _setattr.
  eapply framed_bind; [now apply framed_object_setattr|]. intros _ _.
  now apply framed_set_dom.
Qed.

Lemma framed_Text h0 s : framed h0 any (_Text s).
Proof. eapply framed_lru_cache, framed_text_init. Qed.

Lemma framed_RawText h0 s : framed h0 any (_RawText s).
Proof. eapply framed_lru_cache, framed_text_init. Qed.

Lemma framed_Comment h0 s : framed h0 any (_Comment s).
Proof. eapply framed_lru_cache, framed_text_init. Qed.

Lemma framed_DocType h0 attrs : framed h0 any (DocType attrs).
Proof.
  eapply framed_bind; [|intros self _; now apply framed_ret].
  apply framed_new. intros self Hs. unfold DocType__init__, _setattr.
  eapply framed_bind; [now apply framed_object_setattr|]. intros _ _.
  eapply framed_bind; [apply framed_getattr|]. intros p _.
  now apply framed_set_dom.
Qed.

Lemma framed_tagname h0 self : framed h0 any (tagname self).
Proof.
  eapply framed_bind; [apply framed_deref|]. intros o _.
  destruct (o_class o); try apply framed_raise. now apply framed_ret.
Qed.

Lemma framed_py_str h0 v : framed h0 any (py_str v).
Proof.
  destruct v; simpl; try (now apply framed_ret). apply framed_getattr.
Qed.

Lemma framed_instantiate h0 c attrs props :
  framed h0 (beyond h0) (instantiate c attrs props).
Proof.
  unfold instantiate. destruct (clashes props); [apply framed_raise|].
  apply framed_new. intros self Hs.
  assert (T : framed h0 any (_Tag__init__ attrs props self))
    by (now apply framed_object_setattr).
  destruct (tc_base c).
  - eapply framed_bind; [exact T|]. intros _ _.
    eapply framed_bind; [apply framed_tagname|]. intros t _.
    eapply framed_bind; [apply framed_getattr|]. intros p _.
    now apply framed_set_dom.
  - eapply framed_bind; [exact T|]. intros _ _.
    eapply framed_bind; [apply framed_Text|]. intros empty _.
    eapply framed_bind; [now apply framed_object_setattr|]. intros _ _.
    eapply framed_bind; [apply framed_tagname|]. intros t _.
    eapply framed_bind; [apply framed_getattr|]. intros p _.
    eapply framed_bind; [apply framed_getattr|]. intros ch _.
    eapply framed_bind; [apply framed_py_str|]. intros s _.
    now apply framed_set_dom.
  - eapply framed_bind; [exact T|]. intros _ _.
    eapply framed_bind; [now apply framed_object_setattr|]. intros _ _.
    eapply framed_bind; [apply framed_tagname|]. intros t _.
    eapply framed_bind; [apply framed_getattr|]. intros p _.
    now apply framed_set_dom.
Qed.

Lemma framed_construct h0 name attrs props :
  framed h0 any (construct name attrs props).
Proof.
  unfold construct. destruct (find_def name) as [d|]; [|apply framed_raise].
  assert (H : framed h0 any
                (self <- instantiate (class_of_def d) attrs props ;;
                 ret (VRef self))).
  { eapply framed_bind; [apply framed_instantiate|].
    intros self _. now apply framed_ret. }
  destruct (cd_cached d); [eapply framed_lru_cache, H | exact H].
Qed.

Lemma framed_type_ h0 cls : framed h0 any (type_ cls).
Proof. intros st Hst. split; [exact Hst | now intros]. Qed.

Lemma framed_class_of h0 self : framed h0 any (class_of self).
Proof.
  eapply framed_bind; [apply framed_deref|]. intros o _.
  destruct (o_class o); try apply framed_raise. now apply framed_ret.
Qed.

Lemma framed_normalize h0 c : framed h0 any (normalize c).
Proof.
  destruct c; simpl; try (now apply framed_ret); [apply framed_Text|].
  eapply framed_bind; [apply framed_lift|]. intros s _. apply framed_RawText.
Qed.

Lemma framed_normalize_all h0 cs : framed h0 any (normalize_all cs).
Proof.
  induction cs as [|c cs IH]; simpl; [now apply framed_ret|].
  eapply framed_bind; [apply framed_normalize|]. intros x _.
  eapply framed_bind; [exact IH|]. intros xs _. now apply framed_ret.
Qed.

Lemma framed_join_str h0 cs : framed h0 any (join_str cs).
Proof.
  induction cs as [|c cs IH]; simpl; [now apply framed_ret|].
  eapply framed_bind; [apply framed_py_str|]. intros x _.
  eapply framed_bind; [exact IH|]. intros xs _. now apply framed_ret.
Qed.

Lemma framed_SingleChildTag__call__ h0 self child :
  framed h0 any (_SingleChildTag__call__ self child).
Proof.
  eapply (framed_lru_cache h0 any).
  eapply framed_bind; [apply framed_normalize|]. intros _child _.
  eapply framed_bind; [apply framed_class_of|]. intros cls _.
  eapply framed_bind; [apply framed_type_|]. intros cls' _.
  eapply framed_bind; [apply framed_getattr|]. intros props _.
  eapply framed_bind; [apply framed_instantiate|]. intros tag Ht.
  unfold _setattr.
  eapply framed_bind; [now apply framed_object_setattr|]. intros _ _.
  eapply framed_bind; [apply framed_tagname|]. intros t _.
  eapply framed_bind; [apply framed_getattr|]. intros p _.
  eapply framed_bind; [apply framed_getattr|]. intros c _.
  eapply framed_bind; [apply framed_py_str|]. intros s _.
  eapply framed_bind; [now apply framed_set_dom|]. intros _ _.
  now apply framed_ret.
Qed.

Lemma framed_CompositeTag__call__ h0 self children :
  framed h0 any (_CompositeTag__call__ self children).
Proof.
  eapply (framed_lru_cache h0 any).
  eapply framed_bind; [apply framed_normalize_all|]. intros _children _.
  eapply framed_bind; [apply framed_class_of|]. intros cls _.
  eapply framed_bind; [apply framed_type_|]. intros cls' _.
  eapply framed_bind; [apply framed_getattr|]. intros props _.
  eapply framed_bind; [apply framed_instantiate|]. intros tag Ht.
  unfold _setattr.
  eapply framed_bind; [now apply framed_object_setattr|]. intros _ _.
  eapply framed_bind; [apply framed_tagname|]. intros t _.
  eapply framed_bind; [apply framed_getattr|]. intros p _.
  eapply framed_bind; [apply framed_getattr|]. intros cs _.
  eapply framed_bind; [apply framed_join_str|]. intros s _.
  eapply framed_bind; [now apply framed_set_dom|]. intros _ _.
  now apply framed_ret.
Qed.

Lemma framed_raw__call__ h0 owner self child :
  framed h0 any (raw__call__ owner self child).
Proof.
  eapply (framed_lru_cache h0 any).
  eapply framed_bind; [apply framed_class_of|]. intros cls _.
  destruct (bool_decide _); [|apply framed_raise].
  eapply framed_bind; [apply framed_RawText|]. intros raw _.
  apply framed_SingleChildTag__call__.
Qed.

Lemma framed_call h0 f args : framed h0 any (call f args).
Proof.
  unfold call. destruct f; try apply framed_raise.
  eapply framed_bind; [apply framed_deref|]. intros o _.
  destruct (resolve (o_class o) "__call__") as [[|[]| | |]|];
    try apply framed_raise.
  - destruct (o_class o) as [| | | |c]; try apply framed_raise.
    destruct (tc_raw_call c) as [owner|]; [|apply framed_raise].
    destruct args as [|[] [|]]; try apply framed_raise.
    apply framed_raw__call__.
  - destruct args as [|child [|]]; try apply framed_raise.
    apply framed_SingleChildTag__call__.
  - apply framed_CompositeTag__call__.
Qed.

Lemma framed_py_repr h0 fuel : forall v, framed h0 any (py_repr fuel v).
Proof.
  induction fuel as [|fuel IH]; intros v; simpl; [apply framed_raise|].
  destruct v; try (now apply framed_ret).
  eapply framed_bind; [apply framed_deref|]. intros o _.
  assert (P : forall k : string -> string,
            framed h0 any
              (p <- getattr o_props a ;;
               args <- lift (tmf_props p) ;;
               ret (k args))).
  { intros k.
    eapply framed_bind; [apply framed_getattr|]. intros p _.
    eapply framed_bind; [apply framed_lift|]. intros args _.
    now apply framed_ret. }
  destruct (o_class o) as [| | | |c].
  - eapply framed_bind; [apply framed_getattr|]. intros x _.
    now apply framed_ret.
  - eapply framed_bind; [apply framed_getattr|]. intros x _.
    now apply framed_ret.
  - eapply framed_bind; [apply framed_getattr|]. intros x _.
    now apply framed_ret.
  - apply (P (fun args => "DocType(" +:+ args +:+ ")")).
  - destruct (tc_base c).
    + apply (P (fun args => tc_name c +:+ "(" +:+ args +:+ ")")).
    + eapply framed_bind; [apply framed_getattr|]. intros child _.
      eapply framed_bind; [apply framed_Text|]. intros empty _.
      eapply (framed_bind h0 any);
        [intros st Hst; split; [exact Hst|now intros]|].
      intros h _.
      destruct (py_eq h child empty);
        [apply (P (fun args => tc_name c +:+ "(" +:+ args +:+ ")"))|].
      eapply framed_bind; [apply framed_getattr|]. intros p _.
      eapply framed_bind; [apply framed_lift|]. intros args _.
      eapply (framed_bind h0 any); [|intros ? _; now apply framed_ret].
      destruct (tc_raw_call c); [|apply IH].
      destruct child; try apply framed_raise.
      eapply framed_bind; [apply framed_getattr|]. intros x _.
      now apply framed_ret.
    + eapply framed_bind; [apply framed_getattr|]. intros children _.
      eapply framed_bind; [apply framed_getattr|]. intros p _.
      eapply framed_bind; [apply framed_lift|]. intros args _.
      assert (Hall : forall cs,
                framed h0 any
                  ((fix all (cs : list pyval) : M (list string) :=
                      match cs with
                      | [] => ret []
                      | x :: rest =>
                          r <- py_repr fuel x ;;
                          rs <- all rest ;;
                          ret (r :: rs)
                      end) cs)).
      { induction cs as [|y cs IHcs]; [now apply framed_ret|].
        eapply framed_bind; [apply IH|]. intros r _.
        eapply framed_bind; [exact IHcs|]. intros ? _. now apply framed_ret. }
      destruct children as [|x rest]; [now apply framed_ret|].
      eapply (framed_bind (A:=list string) h0 any);
        [apply (Hall (x :: rest))|].
      intros ? _. now apply framed_ret.
Qed.

Lemma framed_preserves {A} (m : M A) :
  (forall h0, framed h0 any m) -> preserves_nodes m.
Proof.
  intros H st a o Ha.
  destruct (H (heap st) st) as [[l Hl] _].
  - exists []. now rewrite app_nil_r.
  - rewrite Hl. now apply lookup_old.
Qed.

(** X15. A node, once made, is never changed: no constructor, no call the
    model follows step by step and no [repr], whatever its arguments and
    whether it returns or raises, alters an object that was in the heap
    before it; the writes of a constructor or of a call go to the object it
    has just allocated. *)
Theorem no_operation_changes_a_node :
  (forall name attrs props, preserves_nodes (construct name attrs props)) /\
  (forall s, preserves_nodes (_Text s)) /\
  (forall s, preserves_nodes (_RawText s)) /\
  (forall s, preserves_nodes (_Comment s)) /\
  (forall attrs, preserves_nodes (DocType attrs)) /\
  (forall f args st a o,
     followed (heap st) f args -> heap st !! a = Some o ->
     heap (snd (call f args st)) !! a = Some o) /\
  (forall fuel v, preserves_nodes (py_repr fuel v)).
Proof.
  splits; intros; try (apply framed_preserves; intros h0).
  - apply framed_construct.
  - apply framed_Text.
  - apply framed_RawText.
  - apply framed_Comment.
  - apply framed_DocType.
  - apply (framed_preserves (call f args)); [|assumption].
    intros h0. apply framed_call.
  - apply framed_py_repr.
Qed.

(** ** Equal tags share what calling them returns *)

Lemma py_eq_trans_ref h x a b :
  py_eq h x (VRef a) = true -> py_eq h (VRef a) (VRef b) = true ->
  py_eq h x (VRef b) = true.
Proof.
  destruct x as [| | | | |c]; simpl; try discriminate.
  intros H1 H2.
  apply orb_true_iff in H1 as [H1|H1];
    [apply Nat.eqb_eq in H1; subst; exact H2|].
  apply orb_true_iff in H2 as [H2|H2];
    [apply Nat.eqb_eq in H2; subst; rewrite H1; apply orb_true_r|].
  apply orb_true_iff. right. unfold __eq__ in *.
  destruct (h !! c) as [oc|]; [|discriminate].
  destruct (h !! a) as [oa|]; [|discriminate].
  destruct (h !! b) as [ob|]; [|discriminate].
  apply andb_true_iff in H1 as [C1 T1]. apply andb_true_iff in H2 as [C2 T2].
  apply bool_decide_eq_true in C1, C2.
  apply andb_true_iff. split; [apply bool_decide_eq_true; congruence|].
  destruct (o_html oc), (o_html oa), (o_html ob); try discriminate.
  apply String.eqb_eq in T1, T2. subst. apply String.eqb_refl.
Qed.

Lemma py_eq_ref_mono h l a b oa ob :
  h !! a = Some oa -> h !! b = Some ob ->
  py_eq (h ++ l) (VRef a) (VRef b) = py_eq h (VRef a) (VRef b).
Proof.
  intros Ha Hb. simpl. unfold __eq__.
  now rewrite (lookup_old h l a oa Ha), (lookup_old h l b ob Hb), Ha, Hb.
Qed.

(** A call whose key equals the key of the call before it is answered by
    the cache with the result of that call. *)
Lemma lru_cache_shared f k k' body body' st r st1 :
  lru_cache f k body st = (Ok r, st1) ->
  key_hashable k' = true ->
  (forall k0, key_eq (heap st) k0 k = true -> key_eq (heap st) k0 k' = true) ->
  key_eq (heap st1) k k' = true ->
  exists st2, lru_cache f k' body' st1 = (Ok r, st2) /\ heap st2 = heap st1.
Proof.
  intros H Hk' Hhit Hmiss. unfold lru_cache in H.
  destruct (key_hashable k) eqn:Hk; simpl in H; [|discriminate].
  unfold lru_cache. rewrite Hk'. simpl.
  destruct (lru_find (heap st) k (caches st f)) as [[e rest]|] eqn:F.
  - injection H as <- <-. simpl.
    apply lru_find_Some in F as (Heq & _ & _).
    destruct (decide (f = f)); [|congruence]. simpl.
    rewrite (Hhit _ Heq). eexists. split; reflexivity.
  - destruct (body st) as [[v|e] st'] eqn:B; [|discriminate].
    injection H as <- <-. simpl in *.
    destruct (decide (f = f)); [|congruence].
    destruct MAX_CACHE_SIZE_pos as [m ->]. simpl.
    rewrite Hmiss. eexists. split; reflexivity.
Qed.

(** X16. The cache of [__call__] goes by equality of the tag, not by its
    identity: when two composite tags are equal (one class, one rendered
    text), calling the first and then the second with the same content
    returns one and the same node. *)
Theorem equal_tags_share_their_results
    (s1 s2 : addr) (args : list pyval) (st : state) :
  wf st -> plain_tag _CompositeTag (heap st) s1 ->
  clashing (heap st) s1 = false ->
  Forall (admissible (heap st)) args ->
  equal s1 s2 st = true ->
  exists r st1 st2,
    call (VRef s1) args st = (Ok (VRef r), st1) /\
    call (VRef s2) args st1 = (Ok (VRef r), st2) /\
    heap st2 = heap st1.
Proof.
  intros W (os1 & cs & Hos1 & Hcls1 & Hb & Hr) Hcf Hargs Heq.
  destruct (wf_props st s1 os1 cs W Hos1 Hcls1) as [p Hp].
  assert (Hch : Forall (content_ok (heap st)) args).
  { eapply Forall_impl; [exact Hargs|]. apply admissible_content_ok. }
  destruct (call_spec _CompositeTag s1 args st os1 cs p W Hos1 Hcls1 Hp Hb Hr)
    as (r & st1 & o & H & _ & E & _); auto; try discriminate.
  assert (Hpy : py_eq (heap st) (VRef s1) (VRef s2) = true).
  { unfold py_eq. unfold equal in Heq. rewrite Heq. apply orb_true_r. }
  unfold equal, __eq__ in Heq. rewrite Hos1 in Heq.
  destruct (heap st !! s2) as [os2|] eqn:Hos2; [|discriminate].
  apply andb_true_iff in Heq as [Hc _]. apply bool_decide_eq_true in Hc.
  rewrite Hcls1 in Hc.
  pose proof (extends_lookup _ _ _ _ E Hos2) as Hos2'.
  exists r, st1. pose proof H as H0.
  rewrite (call_composite s1 args st os1 cs Hos1 Hcls1 Hb Hr) in H.
  rewrite (call_composite s2 args st1 os2 cs Hos2' Hc Hb Hr).
  unfold _CompositeTag__call__ in *.
  match type of H with
  | lru_cache ?f ?k ?bd st = _ =>
      match goal with
      | |- context [lru_cache f ?k' ?bd' st1] =>
          destruct (lru_cache_shared f k k' bd bd' st (VRef r) st1 H)
            as (st2 & H2 & Hh)
      end
  end.
  - unfold key_hashable. simpl. rewrite andb_true_r.
    clear - Hch. induction Hch as [|x xs Hx _ IH]; simpl; auto.
    destruct Hx as [-> _]. auto.
  - intros [[|x0 xs0] kw0]; unfold key_eq; simpl; [discriminate|].
    intros K. apply andb_true_iff in K as [K K3].
    apply andb_true_iff in K as [K1 K2].
    now rewrite (py_eq_trans_ref _ _ _ _ K1 Hpy), K2, K3.
  - unfold key_eq. cbn [fst snd args_eq kwds_eq].
    destruct E as [[l E] _]. rewrite E.
    rewrite (py_eq_ref_mono _ l s1 s2 os1 os2 Hos1 Hos2), Hpy.
    now rewrite args_eq_refl.
  - exists st2. split; [exact H0|]. split; [exact H2 | exact Hh].
Qed.

(** ** The data model in every state a session reaches *)

Lemma reachable_wf st : reachable st -> wf st.
Proof.
  induction 1.
  - apply wf_initial.
  - eapply construct_wf; eauto.
  - now apply _Text_wf.
  - now apply _RawText_wf.
  - now apply _Comment_wf.
  - now apply DocType_wf.
  - eapply call_wf; eauto.
Qed.

(** X17. In every state that the constructors and the calls with content
    lead to, every node carries its rendered text and the hash of that
    text, and the text is the one its kind prescribes: a text node its
    string (escaped or not), a comment its escaped string between
    [<!-- ] and [ -->], a doctype and a leaf tag their attributes, and a
    tag with content its opening tag, the rendered texts of its children
    in order, and its closing tag. *)
Theorem every_node_renders_as_its_kind_prescribes
    (st : state) (a : addr) (o : object) :
  reachable st -> heap st !! a = Some o ->
  exists s,
    o_html o = Some s /\ o_hash o = Some (hash_str s) /\
    match o_class o with
    | cls_RawText => o_value o = Some s
    | cls_Text => exists v, o_value o = Some v /\ s = escape v
    | cls_Comment =>
        exists v, o_value o = Some v /\ s = "<!-- " +:+ escape v +:+ " -->"
    | cls_DocType =>
        exists p, o_props o = Some p /\ s = "<!DOCTYPE" +:+ fmt_props p +:+ ">"
    | cls_Tag c =>
        exists p, o_props o = Some p /\
          match tc_base c with
          | _LeafTag => s = "<" +:+ tc_tagname c +:+ fmt_props p +:+ " />"
          | _SingleChildTag =>
              exists child, o_child o = Some child /\
                s = "<" +:+ tc_tagname c +:+ fmt_props p +:+ ">"
                    +:+ text_of (heap st) child
                    +:+ "</" +:+ tc_tagname c +:+ ">"
          | _CompositeTag =>
              exists children, o_children o = Some children /\
                s = "<" +:+ tc_tagname c +:+ fmt_props p +:+ ">"
                    +:+ concat_str (map (text_of (heap st)) children)
                    +:+ "</" +:+ tc_tagname c +:+ ">"
          end
    end.
Proof.
  intros R Ho. apply reachable_wf in R.
  destruct (wf_heap st R a o Ho) as (s & Hs & Hh & Hk).
  exists s. split; [exact Hs|]. split; [exact Hh|].
  destruct (o_class o) as [| | | |c]; auto.
  destruct Hk as (p & Hp & Hk). exists p. split; [exact Hp|].
  destruct (tc_base c).
  - exact Hk.
  - destruct Hk as (child & Hc & _ & -> & _). eauto.
  - destruct Hk as (children & Hc & _ & -> & _). eauto.
Qed.

(** ** Nodes made by a call *)

(** A covered call returns an instance of a class made by [type]. *)
Lemma call_covered_clone self args body st :
  wf st -> covered (heap st) self args body ->
  clashing (heap st) self = false ->
  exists r st' o c n,
    call (VRef self) args st = (Ok (VRef r), st') /\ wf st' /\
    heap st' !! r = Some o /\ o_class o = cls_Tag c /\
    tc_ident c = Dynamic n.
Proof.
  intros W Hcov Hcf.
  assert (D : forall st' o b, called (heap st') self b o ->
            exists c n, o_class o = cls_Tag c /\ tc_ident c = Dynamic n).
  { intros st' o b (os & cs & p & n & _ & _ & _ & _ & Hc & _). eauto. }
  destruct Hcov as [(b & (os & cs & Hos & Hcls & Hb & Hr) & Hnl & Hargs
                     & Hlen & _)
                   | (os & d & child & Hos & Hd & Hraw & Hbase & Hcls
                      & -> & _)].
  - assert (Hch : Forall (content_ok (heap st)) args).
    { eapply Forall_impl; [exact Hargs|]. apply admissible_content_ok. }
    destruct b; [congruence | |].
    + destruct args as [|child [|? ?]];
        try (specialize (Hlen eq_refl); simpl in Hlen; lia).
      apply Forall_cons in Hch as [Hc _].
      rewrite (call_single self child st os cs Hos Hcls Hb Hr).
      destruct (_SingleChildTag__call__spec self child st os cs W Hos Hcls Hb
                  Hcf Hc) as (r & st' & o & H & W' & _ & Ho & Hcalled).
      destruct (D _ _ _ Hcalled) as (c & n & Hc1 & Hc2).
      exists r, st', o, c, n. auto.
    + rewrite (call_composite self args st os cs Hos Hcls Hb Hr).
      destruct (_CompositeTag__call__spec self args st os cs W Hos Hcls Hb
                  Hcf Hch) as (r & st' & o & H & W' & _ & Ho & Hcalled).
      destruct (D _ _ _ Hcalled) as (c & n & Hc1 & Hc2).
      exists r, st', o, c, n. auto.
  - rewrite (call_raw self child st os (class_of_def d) (cd_name d) Hos Hcls)
      by (simpl; now rewrite Hraw).
    destruct (raw__call__spec (cd_name d) d self child st os W Hd Hbase Hos
                Hcls Hcf) as (r & st' & o & H & W' & _ & Ho & Hcalled).
    destruct (D _ _ _ Hcalled) as (c & n & Hc1 & Hc2).
    exists r, st', o, c, n. auto.
Qed.

(** X18. Every call makes a class of its own, so a node returned by a call
    is equal to no node but itself, whatever the other node renders: for
    every node [b] of the heap, [r == b] and [b == r] hold only when [b] is
    [r]. *)
Theorem a_node_made_by_a_call_equals_only_itself
    (self : addr) (args : list pyval) (body : string) (st : state) :
  wf st -> covered (heap st) self args body ->
  clashing (heap st) self = false ->
  exists r st',
    call (VRef self) args st = (Ok (VRef r), st') /\
    forall b, b < length (heap st') ->
      (equal r b st' = true <-> b = r) /\ (equal b r st' = true <-> b = r).
Proof.
  intros W Hcov Hcf.
  destruct (call_covered_clone self args body st W Hcov Hcf)
    as (r & st' & o & c & n & H & W' & Ho & Hc & Hn).
  exists r, st'. split; [exact H|]. intros b Hb.
  destruct (lookup_lt_is_Some_2 (heap st') b Hb) as [ob Hob].
  assert (U : o_class ob = o_class o -> b = r).
  { intros E. rewrite Hc in E.
    exact (wf_unique st' W' b r ob o c c n Hob Ho E Hc Hn Hn). }
  split; split.
  - intros E. apply (equal_iff st' r b o ob W' Ho Hob) in E as [E _]. auto.
  - intros ->. apply (equal_iff st' r r o o W' Ho Ho). auto.
  - intros E. apply (equal_iff st' b r ob o W' Hob Ho) in E as [E _]. auto.
  - intros ->. apply (equal_iff st' r r o o W' Ho Ho). auto.
Qed.

(** ** Equality, where it holds and where it fails *)

Lemma tagnames_checked : tagnames_ok = true.
Proof. vm_compute. reflexivity. Qed.

Lemma find_def_tagname name d :
  find_def name = Some d ->
  occurs " " (cd_tagname d) = false /\ occurs ">" (cd_tagname d) = false /\
  find_tagname (cd_tagname d) = Some d.
Proof.
  intros H. unfold find_def in H. apply find_some in H as [Hin _].
  pose proof tagnames_checked as C. unfold tagnames_ok in C.
  rewrite forallb_forall in C. specialize (C d Hin).
  apply andb_true_iff in C as [C C3]. apply andb_true_iff in C as [C1 C2].
  apply negb_true_iff in C1. apply negb_true_iff in C2.
  apply bool_decide_eq_true in C3. auto.
Qed.

(** A name without space and [>] is determined by any text in which a space
    or [>] follows it. *)
Lemma name_before_separator t1 : forall t2 c1 r1 c2 r2,
  occurs " " t1 = false -> occurs ">" t1 = false ->
  occurs " " t2 = false -> occurs ">" t2 = false ->
  (c1 = " " \/ c1 = ">")%char -> (c2 = " " \/ c2 = ">")%char ->
  t1 +:+ String c1 r1 = t2 +:+ String c2 r2 -> t1 = t2.
Proof.
  induction t1 as [|x t1 IH]; intros [|y t2] c1 r1 c2 r2 A1 B1 A2 B2 S1 S2 E;
    simpl in *.
  - reflexivity.
  - injection E as -> _. apply orb_false_iff in A2 as [A2 _].
    apply orb_false_iff in B2 as [B2 _].
    destruct S1 as [-> | ->]; simpl in *; congruence.
  - injection E as -> _. apply orb_false_iff in A1 as [A1 _].
    apply orb_false_iff in B1 as [B1 _].
    destruct S2 as [-> | ->]; simpl in *; congruence.
  - injection E as -> E.
    apply orb_false_iff in A1 as [_ A1]. apply orb_false_iff in B1 as [_ B1].
    apply orb_false_iff in A2 as [_ A2]. apply orb_false_iff in B2 as [_ B2].
    f_equal. exact (IH t2 c1 r1 c2 r2 A1 B1 A2 B2 S1 S2 E).
Qed.

(** After the tag name comes a space or [>]. *)
Lemma fresh_html_shape c p :
  exists sep rest,
    (sep = " " \/ sep = ">")%char /\
    fresh_html c p = "<" +:+ tc_tagname c +:+ String sep rest.
Proof.
  unfold fresh_html, leaf_html, tag_html, fmt_props.
  destruct p as [|kv p]; destruct (tc_base c); simpl;
    eexists _, _; (split; [|reflexivity]); auto.
Qed.

(** The rendered text of a node as its constructor left it. *)
Lemma wf_fresh_html st a o c p :
  wf st -> heap st !! a = Some o -> o_class o = cls_Tag c ->
  o_props o = Some p -> tc_ident c = Static ->
  o_html o = Some (fresh_html c p).
Proof.
  intros W Ho Hc Hp Hs. unfold fresh_html.
  destruct (tc_base c) eqn:Hb.
  - destruct (wf_heap st W a o Ho) as (s & Hh & _ & Hk).
    rewrite Hc in Hk. destruct Hk as (p' & Hp' & Hk). rewrite Hb in Hk.
    congruence.
  - apply (wf_static_html st a o c p W Ho Hc Hp Hs). congruence.
  - apply (wf_static_html st a o c p W Ho Hc Hp Hs). congruence.
Qed.

(** Two nodes made by constructors, of the same kind and with the same
    rendered text, are of the same class. *)
Lemma constructed_same_class st a b oa ob :
  wf st -> heap st !! a = Some oa -> heap st !! b = Some ob ->
  constructed oa -> constructed ob ->
  kind_of (o_class oa) = kind_of (o_class ob) ->
  o_html oa = o_html ob -> o_class oa = o_class ob.
Proof.
  intros W Ha Hb Ca Cb K H. unfold constructed in Ca, Cb.
  destruct (o_class oa) as [| | | |ca] eqn:Hca;
    destruct (o_class ob) as [| | | |cb] eqn:Hcb; try discriminate; auto.
  destruct Ca as (da & Hda & ->). destruct Cb as (db & Hdb & ->).
  destruct (wf_props st a oa _ W Ha Hca) as [pa Hpa].
  destruct (wf_props st b ob _ W Hb Hcb) as [pb Hpb].
  rewrite (wf_fresh_html st a oa _ pa W Ha Hca Hpa eq_refl) in H.
  rewrite (wf_fresh_html st b ob _ pb W Hb Hcb Hpb eq_refl) in H.
  destruct (fresh_html_shape (class_of_def da) pa) as (s1 & r1 & S1 & Ea).
  destruct (fresh_html_shape (class_of_def db) pb) as (s2 & r2 & S2 & Eb).
  rewrite Ea, Eb in H. injection H as H. simpl in H.
  destruct (find_def_tagname _ _ Hda) as (A1 & B1 & F1).
  destruct (find_def_tagname _ _ Hdb) as (A2 & B2 & F2).
  apply (name_before_separator _ _ _ _ _ _ A1 B1 A2 B2 S1 S2) in H.
  rewrite H in F1. rewrite F1 in F2. injection F2 as ->. reflexivity.
Qed.

(** What a covered call returns, as the invariant records it. *)
Lemma call_covered_called self args body st :
  wf st -> covered (heap st) self args body ->
  clashing (heap st) self = false ->
  exists r st' o,
    call (VRef self) args st = (Ok (VRef r), st') /\ wf st' /\
    extends st st' /\ heap st' !! r = Some o /\
    called (heap st') self body o.
Proof.
  intros W Hcov Hcf.
  destruct Hcov as [(b & (os & cs & Hos & Hcls & Hb & Hr) & Hnl & Hargs
                     & Hlen & ->)
                   | (os & d & child & Hos & Hd & Hraw & Hbase & Hcls
                      & -> & ->)].
  - assert (Hch : Forall (content_ok (heap st)) args).
    { eapply Forall_impl; [exact Hargs|]. apply admissible_content_ok. }
    destruct b; [congruence | |].
    + destruct args as [|child [|? ?]];
        try (specialize (Hlen eq_refl); simpl in Hlen; lia).
      apply Forall_cons in Hch as [Hc _].
      rewrite (call_single self child st os cs Hos Hcls Hb Hr).
      destruct (_SingleChildTag__call__spec self child st os cs W Hos Hcls Hb
                  Hcf Hc) as (r & st' & o & H & W' & E & Ho & Hcalled).
      exists r, st', o. simpl. rewrite append_nil_r. auto.
    + rewrite (call_composite self args st os cs Hos Hcls Hb Hr).
      destruct (_CompositeTag__call__spec self args st os cs W Hos Hcls Hb
                  Hcf Hch) as (r & st' & o & H & W' & E & Ho & Hcalled).
      exists r, st', o. auto.
  - rewrite (call_raw self child st os (class_of_def d) (cd_name d) Hos Hcls)
      by (simpl; now rewrite Hraw).
    destruct (raw__call__spec (cd_name d) d self child st os W Hd Hbase Hos
                Hcls Hcf) as (r & st' & o & H & W' & E & Ho & Hcalled).
    exists r, st', o. auto.
Qed.

Lemma equal_hash st a b oa ob :
  wf st -> heap st !! a = Some oa -> heap st !! b = Some ob ->
  o_html oa = o_html ob -> __hash__ a st = __hash__ b st.
Proof.
  intros W Ha Hb H.
  destruct (wf_heap st W a oa Ha) as (x & Hx & Hhx & _).
  destruct (wf_heap st W b ob Hb) as (y & Hy & Hhy & _).
  unfold __hash__.
  rewrite (getattr_ok o_hash _ _ _ _ Ha Hhx).
  rewrite (getattr_ok o_hash _ _ _ _ Hb Hhy). congruence.
Qed.

(** A node and a later one of the same class and text are equal. *)
Lemma equal_later st1 st3 a b oa ob :
  wf st3 -> extends st1 st3 ->
  heap st1 !! a = Some oa -> heap st3 !! b = Some ob ->
  o_class oa = o_class ob -> o_html oa = o_html ob ->
  equal a b st3 = true /\ __hash__ a st3 = __hash__ b st3.
Proof.
  intros W3 E Ha Hb Hc Hh.
  pose proof (extends_lookup _ _ _ _ E Ha) as Ha3.
  split.
  - apply (equal_iff st3 a b oa ob W3 Ha3 Hb); auto.
  - eapply equal_hash; eauto.
Qed.

(** C3, where the code departs from it.  From every state in order, the
    stored hash of every node is the hash of its rendered text, and equal
    nodes have equal hashes.  Among the nodes the constructors return (text
    nodes, comments, doctypes, tags of the classes of the module) the claim
    holds: two of them of the same kind are equal exactly when their
    rendered texts are identical, whatever their attributes; and a
    constructor called with equal arguments at any two times returns equal
    nodes with equal hashes.  It fails for the nodes [__call__] returns,
    whose class is made by [type] in that call: calling a constructed tag
    with content that renders as nothing returns a node of the same kind
    and class name, with the same rendered text and the same hash as the
    tag, and the two are not equal, in either order. *)
Theorem C3_equality_fails_for_nodes_made_by_calls (st : state) :
  wf st ->
  (forall a o, heap st !! a = Some o ->
     exists s, __str__ a st = (Ok s, st) /\
               __hash__ a st = (Ok (hash_str s), st)) /\
  (forall a b oa ob, heap st !! a = Some oa -> heap st !! b = Some ob ->
     equal a b st = true -> __hash__ a st = __hash__ b st) /\
  (forall a b oa ob, heap st !! a = Some oa -> heap st !! b = Some ob ->
     constructed oa -> constructed ob ->
     kind_of (o_class oa) = kind_of (o_class ob) ->
     (equal a b st = true <-> o_html oa = o_html ob)) /\
  (forall name d attrs props,
     find_def name = Some d -> clashes props = false ->
     exists a st1 oa,
       construct name attrs props st = (Ok (VRef a), st1) /\
       heap st1 !! a = Some oa /\ constructed oa /\
       forall st2, wf st2 -> extends st1 st2 ->
         exists b st3,
           construct name attrs props st2 = (Ok (VRef b), st3) /\
           equal a b st3 = true /\ __hash__ a st3 = __hash__ b st3) /\
  (forall ctor s,
     ctor = _Text \/ ctor = _RawText \/ ctor = _Comment ->
     exists a st1,
       ctor s st = (Ok (VRef a), st1) /\
       forall st2, wf st2 -> extends st1 st2 ->
         exists b st3,
           ctor s st2 = (Ok (VRef b), st3) /\
           equal a b st3 = true /\ __hash__ a st3 = __hash__ b st3) /\
  (forall attrs,
     exists a st1,
       DocType attrs st = (Ok (VRef a), st1) /\
       forall st2, wf st2 -> extends st1 st2 ->
         exists b st3,
           DocType attrs st2 = (Ok (VRef b), st3) /\
           equal a b st3 = true /\ __hash__ a st3 = __hash__ b st3) /\
  (forall self args os cs,
     heap st !! self = Some os -> o_class os = cls_Tag cs ->
     tc_ident cs = Static ->
     covered (heap st) self args "" -> clashing (heap st) self = false ->
     exists r st' o,
       call (VRef self) args st = (Ok (VRef r), st') /\
       heap st' !! r = Some o /\ heap st' !! self = Some os /\
       kind_of (o_class o) = kind_of (o_class os) /\
       class_name (o_class o) = class_name (o_class os) /\
       render (VRef r) st' = render (VRef self) st' /\
       __hash__ r st' = __hash__ self st' /\
       equal r self st' = false /\ equal self r st' = false).
Proof.
  intros W. splits.
  - intros a o. now apply hash_ok.
  - intros a b oa ob Ha Hb Heq.
    apply (equal_iff st a b oa ob W Ha Hb) in Heq as [_ Heq].
    eapply equal_hash; eauto.
  - intros a b oa ob Ha Hb Ca Cb K.
    rewrite (equal_iff st a b oa ob W Ha Hb). split; [tauto|].
    intros H. split; [|exact H].
    eapply constructed_same_class; eauto.
  - intros name d attrs props Hd Hcf.
    destruct (construct_spec name d attrs props st W Hd Hcf)
      as (a & st1 & oa & E1 & W1 & _ & Ha & Hca & _ & Hha & _).
    exists a, st1, oa. split; [exact E1|]. split; [exact Ha|]. split.
    { unfold constructed. rewrite Hca. exists d.
      now rewrite (find_def_name _ _ Hd). }
    intros st2 W2 X12.
    destruct (construct_spec name d attrs props st2 W2 Hd Hcf)
      as (b & st3 & ob & E2 & W3 & X23 & Hb & Hcb & _ & Hhb & _).
    exists b, st3. split; [exact E2|].
    apply (equal_later st1 st3 a b oa ob W3
             (extends_trans _ _ _ X12 X23) Ha Hb); congruence.
  - intros ctor s [-> | [-> | ->]].
    + destruct (_Text_spec s st W)
        as (a & st1 & oa & E1 & W1 & _ & Ha & Hca & Hha).
      exists a, st1. split; [exact E1|]. intros st2 W2 X12.
      destruct (_Text_spec s st2 W2)
        as (b & st3 & ob & E2 & W3 & X23 & Hb & Hcb & Hhb).
      exists b, st3. split; [exact E2|].
      apply (equal_later st1 st3 a b oa ob W3
               (extends_trans _ _ _ X12 X23) Ha Hb); congruence.
    + destruct (_RawText_spec s st W)
        as (a & st1 & oa & E1 & W1 & _ & Ha & Hca & Hha).
      exists a, st1. split; [exact E1|]. intros st2 W2 X12.
      destruct (_RawText_spec s st2 W2)
        as (b & st3 & ob & E2 & W3 & X23 & Hb & Hcb & Hhb).
      exists b, st3. split; [exact E2|].
      apply (equal_later st1 st3 a b oa ob W3
               (extends_trans _ _ _ X12 X23) Ha Hb); congruence.
    + destruct (_Comment_spec s st W)
        as (a & st1 & oa & E1 & W1 & _ & Ha & Hca & Hha).
      exists a, st1. split; [exact E1|]. intros st2 W2 X12.
      destruct (_Comment_spec s st2 W2)
        as (b & st3 & ob & E2 & W3 & X23 & Hb & Hcb & Hhb).
      exists b, st3. split; [exact E2|].
      apply (equal_later st1 st3 a b oa ob W3
               (extends_trans _ _ _ X12 X23) Ha Hb); congruence.
  - intros attrs.
    destruct (DocType_run attrs st W) as (oa & E1 & Hca & Hha & W1).
    eexists _, _. split; [exact E1|]. intros st2 W2 X12.
    destruct (DocType_run attrs st2 W2) as (ob & E2 & Hcb & Hhb & W3).
    eexists _, _. split; [exact E2|].
    apply (equal_later (set_heap (heap st ++ [oa]) st)
             (set_heap (heap st2 ++ [ob]) st2) _ _ oa ob); try congruence.
    + eapply extends_trans; [exact X12|].
      split; [exists [ob]; reflexivity | simpl; lia].
    + apply lookup_mid.
    + apply lookup_mid.
  - intros self args os cs Hos Hcls Hst Hcov Hcf.
    destruct (call_covered_called self args "" st W Hcov Hcf)
      as (r & st' & o & H & W' & E & Ho & Hcalled).
    pose proof (extends_lookup _ _ _ _ E Hos) as Hos'.
    destruct Hcalled as (os1 & cs1 & p & n & H1 & H2 & H3 & H4 & H5 & H6 & H7).
    rewrite Hos' in H1. injection H1 as <-.
    rewrite Hcls in H2. injection H2 as <-.
    assert (Hs : o_html os = Some (tag_html cs p ""))
      by (apply (wf_static_html st' self os cs p W' Hos' Hcls H4 Hst H3)).
    assert (Hne : o_class o <> o_class os).
    { rewrite H5, Hcls. intros Heq. injection Heq as Heq.
      apply H6. rewrite <- Heq. reflexivity. }
    exists r, st', o. splits; auto.
    + now rewrite H5, Hcls.
    + now rewrite H5, Hcls.
    + now rewrite (render_ref _ _ _ _ Ho H7), (render_ref _ _ _ _ Hos' Hs).
    + eapply equal_hash; eauto. congruence.
    + apply not_true_is_false. intros Heq.
      apply (equal_iff st' r self o os W' Ho Hos') in Heq as [Heq _]. auto.
    + apply not_true_is_false. intros Heq.
      apply (equal_iff st' self r os o W' Hos' Ho) in Heq as [Heq _]. auto.
Qed.

End DOM.

(** * Examples

    The program run on concrete inputs, with the instances of the
    parameters given at the beginning.  No statement above depends on which
    instances are chosen. *)

(** The program at the instances. *)
Module toy.
Abbreviation wf := (wf toy_hash toy_repr_bytes).
Abbreviation construct := (construct toy_hash toy_repr_bytes).
Abbreviation call := (call toy_hash toy_repr_bytes).
Abbreviation _Text := (_Text toy_hash).
Abbreviation _RawText := (_RawText toy_hash).
Abbreviation _Comment := (_Comment toy_hash).
Abbreviation DocType := (DocType toy_hash).
Abbreviation render := (render toy_repr_bytes).
Abbreviation rendered := (rendered toy_repr_bytes).
Abbreviation tmf_props := (tmf_props toy_repr_str toy_reserved).
Abbreviation py_repr :=
  (py_repr toy_hash toy_repr_bytes toy_repr_str toy_reserved).
Abbreviation covered := (covered toy_repr_bytes).
Abbreviation after_Div := (after_Div toy_hash toy_repr_bytes).
Abbreviation after_Div_raw := (after_Div_raw toy_hash toy_repr_bytes).
Abbreviation two_Divs := (two_Divs toy_hash toy_repr_bytes).
Abbreviation raw_and_text := (raw_and_text toy_hash).
Abbreviation after_Div_id := (after_Div_id toy_hash toy_repr_bytes).
Abbreviation after_Div_self := (after_Div_self toy_hash toy_repr_bytes).
End toy.

Lemma find_Div :
  find_def "Div" = Some (mk_def "Div" _CompositeTag "div" true false).
Proof. reflexivity. Qed.

Lemma wf_after_Div : toy.wf toy.after_Div.
Proof. eapply construct_wf; [apply wf_initial | apply find_Div]. Qed.

Lemma wf_after_Div_raw : toy.wf toy.after_Div_raw.
Proof. apply _RawText_wf, wf_after_Div. Qed.

Lemma wf_two_Divs : toy.wf toy.two_Divs.
Proof.
  eapply construct_wf; [|apply find_Div].
  eapply construct_wf; [apply wf_initial | apply find_Div].
Qed.

Lemma wf_after_Div_id : toy.wf toy.after_Div_id.
Proof. eapply construct_wf; [apply wf_initial | apply find_Div]. Qed.

Lemma wf_after_Div_self : toy.wf toy.after_Div_self.
Proof. eapply construct_wf; [apply wf_initial | apply find_Div]. Qed.

Lemma Div_is_plain : plain_tag _CompositeTag (heap toy.after_Div) 0.
Proof. eexists _, _. splits; reflexivity. Qed.

Lemma Div_is_plain_raw : plain_tag _CompositeTag (heap toy.after_Div_raw) 0.
Proof. eexists _, _. splits; reflexivity. Qed.

(** The scenarios of the specification. *)

Example render_Br :
  toy.rendered (toy.construct "Br" [] []) = Ok "<br />".
Proof. vm_compute. reflexivity. Qed.

Example render_P_Hello :
  toy.rendered (p <- toy.construct "P" []
                   [("style", Some "color:red")] ;;
            toy.call p [VStr "Hello"])
  = Ok ("<p style=" +:+ DQ +:+ "color:red" +:+ DQ +:+ ">Hello</p>").
Proof. vm_compute. reflexivity. Qed.

Example render_Div_mixed :
  toy.rendered (d <- toy.construct "Div" [] [] ;;
            raw <- toy._RawText "<b>" ;;
            toy.call d [VStr "a &"; raw])
  = Ok "<div>a &amp;<b></div>".
Proof. vm_compute. reflexivity. Qed.

Example render_Div_bytes :
  toy.rendered (d <- toy.construct "Div" [] [] ;;
            toy.call d [VStr "a &"; VBytes "<b>"])
  = Ok "<div>a &amp;<b></div>".
Proof. vm_compute. reflexivity. Qed.

Example render_Comment :
  toy.rendered (toy._Comment "a-->b") = Ok "<!-- a--&gt;b -->".
Proof. vm_compute. reflexivity. Qed.

Example render_DocType :
  toy.rendered (toy.DocType ["html"]) = Ok "<!DOCTYPE html>".
Proof. vm_compute. reflexivity. Qed.

Example render_Input :
  toy.rendered (toy.construct "Input" []
              [("type", Some "checkbox"); ("disabled", None)])
  = Ok ("<input type=" +:+ DQ +:+ "checkbox" +:+ DQ +:+ " disabled />").
Proof. vm_compute. reflexivity. Qed.

(** [fmt_prop] on a flag: a name of letters and underscores stays bare,
    any other name is quoted; and on a value with a double quote in it. *)
Example fmt_prop_bare_flag : fmt_prop "aria_hidden" None = "aria_hidden".
Proof. reflexivity. Qed.

Example fmt_prop_quoted_flag :
  fmt_prop "data-x" None = DQ +:+ "data-x" +:+ DQ /\
  fmt_prop "h1" None = DQ +:+ "h1" +:+ DQ /\
  fmt_prop "a b" None = DQ +:+ "a b" +:+ DQ.
Proof. splits; reflexivity. Qed.

Example fmt_prop_value :
  fmt_prop "title" (Some ("say " +:+ DQ +:+ "<hi>" +:+ DQ))
  = "title=" +:+ DQ +:+ "say \" +:+ DQ +:+ "<hi>\" +:+ DQ +:+ DQ.
Proof. reflexivity. Qed.

Example render_Script_raw :
  toy.rendered (s <- toy.construct "Script" [] [] ;;
            toy.call s [VStr "a<b"])
  = Ok "<script>a<b</script>".
Proof. vm_compute. reflexivity. Qed.

(** A clone of [Script] cannot be called again: [super()] in the copied
    [__call__] still names the class [Script]. *)
Example Script_clone_call_raises :
  toy.rendered (s <- toy.construct "Script" [] [] ;;
            t <- toy.call s [VStr "a"] ;;
            toy.call t [VStr "b"])
  = Raise TypeError.
Proof. vm_compute. reflexivity. Qed.

(** [Div() is Div()], and [Sub() is not Sub()]. *)
Example Div_twice_is_one_object :
  fst ((a <- toy.construct "Div" [] [] ;;
        b <- toy.construct "Div" [] [] ;;
        ret (a, b)) initial) = Ok (VRef 0, VRef 0).
Proof. vm_compute. reflexivity. Qed.

Example Sub_twice_is_two_objects :
  fst ((a <- toy.construct "Sub" [] [] ;;
        b <- toy.construct "Sub" [] [] ;;
        ret (a, b)) initial) = Ok (VRef 0, VRef 1).
Proof. vm_compute. reflexivity. Qed.

(** A keyword named [self] cannot be bound: [Div(self="x")] raises, and so
    does calling [Div("self")], which gives its attributes back to the
    class as keywords. *)
Example Div_self_keyword_raises :
  toy.rendered (toy.construct "Div" [] [("self", Some "x")])
  = Raise TypeError.
Proof. vm_compute. reflexivity. Qed.

Example Div_self_flag_renders :
  toy.rendered (toy.construct "Div" ["self"] [])
  = Ok "<div self></div>".
Proof. vm_compute. reflexivity. Qed.

Example Div_self_flag_call_raises :
  toy.rendered (d <- toy.construct "Div" ["self"] [] ;;
            toy.call d [VStr "x"])
  = Raise TypeError.
Proof. vm_compute. reflexivity. Qed.

(** ** The claims on concrete inputs *)

(** C1 at ["<a href='x'>Tom & Jerry</a>"], from the initial state. *)
Lemma C1_witness :
  toy.wf initial /\
  (exists a st',
      toy._Text "<a href='x'>Tom & Jerry</a>" initial
      = (Ok (VRef a), st') /\
      toy.render (VRef a) st'
      = Ok "&lt;a href=&#x27;x&#x27;&gt;Tom &amp; Jerry&lt;/a&gt;") /\
  (exists a st',
      toy._RawText "<a href='x'>Tom & Jerry</a>" initial
      = (Ok (VRef a), st') /\
      toy.render (VRef a) st' = Ok "<a href='x'>Tom & Jerry</a>").
Proof.
  pose proof (wf_initial toy_hash toy_repr_bytes) as W.
  destruct (C1_text_escapes_raw_text_does_not toy_hash toy_repr_bytes
              "<a href='x'>Tom & Jerry</a>" initial W) as (H1 & H2 & _).
  splits; [exact W | exact H1 | exact H2].
Defined.



(** [_RawText("a")] and [_Text("a")], nodes of two kinds, render alike and
    are not equal. *)
Example raw_text_and_text_are_not_equal :
  toy.render (VRef 0) toy.raw_and_text = Ok "a" /\
  toy.render (VRef 1) toy.raw_and_text = Ok "a" /\
  equal 0 1 toy.raw_and_text = false /\
  equal 1 0 toy.raw_and_text = false.
Proof. vm_compute. splits; reflexivity. Qed.

Lemma Div_is_covered_empty :
  toy.covered (heap toy.after_Div) 0 [VStr ""] "".
Proof.
  left. exists _CompositeTag. split; [apply Div_is_plain|].
  split; [discriminate|]. split; [repeat constructor|].
  split; [discriminate | reflexivity].
Qed.

(** C3, where the code departs from it, at [Div()("") == Div()]: one kind,
    one class name, one rendered text, one hash, and not equal. *)
Lemma C3_witness :
  toy.wf toy.after_Div /\
  toy.covered (heap toy.after_Div) 0 [VStr ""] "" /\
  clashing (heap toy.after_Div) 0 = false /\
  exists r st' o os,
    toy.call (VRef 0) [VStr ""] toy.after_Div = (Ok (VRef r), st') /\
    heap st' !! r = Some o /\ heap st' !! 0 = Some os /\
    kind_of (o_class o) = kind_of (o_class os) /\
    class_name (o_class o) = "Div" /\ class_name (o_class os) = "Div" /\
    toy.render (VRef r) st' = Ok "<div></div>" /\
    toy.render (VRef 0) st' = Ok "<div></div>" /\
    __hash__ r st' = __hash__ 0 st' /\
    equal r 0 st' = false /\ equal 0 r st' = false.
Proof.
  pose proof wf_after_Div as W.
  destruct (C3_equality_fails_for_nodes_made_by_calls toy_hash toy_repr_bytes
              toy.after_Div W) as (_ & _ & _ & _ & _ & _ & H).
  destruct (lookup_lt_is_Some_2 (heap toy.after_Div) 0) as [os Hos];
    [vm_compute; lia|].
  pose proof Hos as Hos0. vm_compute in Hos0. injection Hos0 as Hos0.
  destruct (H 0 [VStr ""] os
              (class_of_def (mk_def "Div" _CompositeTag "div" true false)) Hos)
    as (r & st' & o & Hc & Ho & Hos' & K & N & R & Hh & E1 & E2).
  { now rewrite <- Hos0. }
  { reflexivity. }
  { apply Div_is_covered_empty. }
  { reflexivity. }
  split; [exact W|]. split; [apply Div_is_covered_empty|].
  split; [reflexivity|].
  exists r, st', o, os. splits; auto.
  - rewrite N, <- Hos0. reflexivity.
  - rewrite <- Hos0. reflexivity.
  - rewrite R. eapply render_ref; [exact Hos'|]. rewrite <- Hos0. reflexivity.
  - eapply render_ref; [exact Hos'|]. rewrite <- Hos0. reflexivity.
Defined.

(** Where the claim holds: [Div(x="1", y="2")] and
    [Div( **{'x="1" y': "2"} )] have different attributes, one rendered
    text, and are equal. *)
Example different_attributes_same_text_equal :
  (heap toy.two_Divs !! 0 ≫= o_props) <> (heap toy.two_Divs !! 1 ≫= o_props)
  /\
  toy.render (VRef 0) toy.two_Divs = toy.render (VRef 1) toy.two_Divs /\
  equal 0 1 toy.two_Divs = true /\
  __hash__ 0 toy.two_Divs = __hash__ 1 toy.two_Divs.
Proof.
  split; [vm_compute; discriminate|]. vm_compute. splits; reflexivity.
Qed.


(** C4, where the code departs from it, at [Div("self")("x")]. *)
Lemma C4_witness :
  toy.wf toy.after_Div_self /\
  plain_tag _CompositeTag (heap toy.after_Div_self) 0 /\
  clashing (heap toy.after_Div_self) 0 = true /\
  Forall (admissible (heap toy.after_Div_self)) [VStr "x"] /\
  toy.render (VRef 0) toy.after_Div_self = Ok "<div self></div>" /\
  exists st',
    toy.call (VRef 0) [VStr "x"] toy.after_Div_self
    = (Raise TypeError, st').
Proof.
  pose proof wf_after_Div_self as W.
  assert (P : plain_tag _CompositeTag (heap toy.after_Div_self) 0)
    by (eexists _, _; splits; reflexivity).
  assert (A : Forall (admissible (heap toy.after_Div_self)) [VStr "x"])
    by (repeat constructor).
  split; [exact W|]. split; [exact P|]. split; [reflexivity|].
  split; [exact A|]. split; [reflexivity|].
  destruct (C4_call_raises_on_attribute_self toy_hash toy_repr_bytes 0
              [VStr "x"] toy.after_Div_self W P eq_refl A eq_refl)
    as (st' & H & _).
  exists st'. exact H.
Defined.

(** C7, where the code departs from it, at [Sub()] twice. *)
Lemma C7_witness :
  clashes [] = false /\
  exists a st1 b st2,
    toy.construct "Sub" [] [] initial
    = (Ok (VRef a), st1) /\
    toy.construct "Sub" [] [] st1 = (Ok (VRef b), st2) /\
    same_object a b = false.
Proof.
  split; [reflexivity|].
  exact (C7_Sub_is_not_memoized toy_hash toy_repr_bytes [] [] initial eq_refl).
Defined.

(** C8: [Div()(42)] raises nothing and renders the integer. *)
Lemma C8_counterexample :
  plain_tag _CompositeTag (heap toy.after_Div) 0 /\
  fst (toy.call (VRef 0) [VInt 42] toy.after_Div)
  = Ok (VRef 1) /\
  toy.render (VRef 1)
    (snd (toy.call (VRef 0) [VInt 42] toy.after_Div))
  = Ok "<div>42</div>".
Proof.
  split; [apply Div_is_plain|]. vm_compute. splits; reflexivity.
Qed.

(** C8, as amended, at [Div()([1])] and [Div()(42)]. *)
Lemma C8_witness :
  toy.wf toy.after_Div /\
  plain_tag _CompositeTag (heap toy.after_Div) 0 /\
  clashing (heap toy.after_Div) 0 = false /\
  toy.call (VRef 0) [VList [1%Z]] toy.after_Div
  = (Raise TypeError, toy.after_Div) /\
  converts 42 /\
  lru_find (heap toy.after_Div) ([VRef 0; VInt 42], [])
    (caches toy.after_Div (call_cache _CompositeTag)) = None /\
  exists r st',
    toy.call (VRef 0) [VInt 42] toy.after_Div
    = (Ok (VRef r), st') /\
    toy.render (VRef r) st' = Ok "<div>42</div>".
Proof.
  pose proof wf_after_Div as W. pose proof Div_is_plain as P.
  destruct (C8_content_of_another_type toy_hash toy_repr_bytes
              _CompositeTag 0 toy.after_Div W P)
    as (Hun & _ & c & p & (o & Ho & Hc & Hp) & Hint); [discriminate|].
  assert (Hz : converts 42) by (vm_compute; reflexivity).
  splits; auto.
  destruct (Hint eq_refl) as [Hint' _].
  destruct (Hint' 42%Z Hz eq_refl) as (r & st' & H & Hr).
  exists r, st'. split; [exact H|].
  rewrite Hr. vm_compute in Ho. injection Ho as <-.
  injection Hc as <-. injection Hp as <-. reflexivity.
Defined.

(** C9 at [repr(Div(id="x"))]. *)
Lemma C9_witness :
  toy.wf toy.after_Div_id /\
  (heap toy.after_Div_id !! 0 ≫= o_props) = Some [("id", Some "x")] /\
  toy.tmf_props [("id", Some "x")] = Raise NameError /\
  exists st',
    toy.py_repr 3 (VRef 0)
      toy.after_Div_id
    = (Raise NameError, st').
Proof.
  pose proof wf_after_Div_id as W.
  split; [exact W|]. split; [reflexivity|].
  eapply (C9_repr_raises_NameError toy_hash toy_repr_bytes toy_repr_str
            toy_reserved "id" (Some "x") [] 2 0 _ _ toy.after_Div_id W);
    reflexivity.
Defined.

(** C10: [Br("y", y="z", w="1")] puts the flag [y] where the keyword [y]
    stood, before the keyword [w], and drops the value ["z"]. *)
Lemma C10_counterexample :
  toy.rendered (toy.construct "Br" ["y"]
              [("y", Some "z"); ("w", Some "1")])
  = Ok ("<br y w=" +:+ DQ +:+ "1" +:+ DQ +:+ " />") /\
  toy.rendered (toy.construct "Br" ["y"]
              [("y", Some "z"); ("w", Some "1")])
  <> Ok ("<br y=" +:+ DQ +:+ "z" +:+ DQ +:+ " w=" +:+ DQ +:+ "1" +:+ DQ
         +:+ " y />").
Proof. vm_compute. split; [reflexivity | discriminate]. Qed.

(** C10, as amended, at [Br("x", y="z")]. *)
Lemma C10_witness :
  toy.wf initial /\
  find_def "Br" = Some (mk_def "Br" _LeafTag "br" true false) /\
  clashes [("y", Some "z")] = false /\
  (forall k, k ∈ ["x"] -> k ∉ map fst [("y", Some "z")]) /\
  exists a st',
    toy.construct "Br" ["x"] [("y", Some "z")] initial
    = (Ok (VRef a), st') /\
    toy.render (VRef a) st'
    = Ok ("<br y=" +:+ DQ +:+ "z" +:+ DQ +:+ " x />").
Proof.
  pose proof (wf_initial toy_hash toy_repr_bytes) as W.
  assert (D : forall k : string,
             k ∈ ["x"] -> k ∉ map fst [("y", Some "z")]).
  { intros k Hk Hin. apply list_elem_of_singleton in Hk. subst k.
    simpl in Hin. apply list_elem_of_singleton in Hin. discriminate. }
  splits; auto.
  exact (C10_keywords_then_flags toy_hash toy_repr_bytes "Br"
           (mk_def "Br" _LeafTag "br" true false) ["x"] [("y", Some "z")]
           initial W eq_refl eq_refl D).
Defined.


(** ** The further properties on concrete inputs *)

Lemma find_Sub :
  find_def "Sub" = Some (mk_def "Sub" _CompositeTag "sub" false false).
Proof. reflexivity. Qed.

Lemma wf_two_Subs : toy.wf (two_Subs toy_hash toy_repr_bytes).
Proof.
  eapply construct_wf; [|apply find_Sub].
  eapply construct_wf; [apply wf_initial | apply find_Sub].
Qed.

Lemma Div_is_covered :
  toy.covered (heap toy.after_Div) 0 [VStr "a"; VStr "b"] "ab".
Proof.
  left. exists _CompositeTag. split; [apply Div_is_plain|].
  split; [discriminate|]. split; [repeat constructor|].
  split; [discriminate | reflexivity].
Qed.

(** X1 at ["<b>Tom & Jerry</b>"], from the initial state. *)
Lemma text_node_renders_safe_text_witness :
  toy.wf initial /\
  exists a st' html,
    toy._Text "<b>Tom & Jerry</b>" initial = (Ok (VRef a), st') /\
    toy.render (VRef a) st' = Ok html /\
    safe_text html = true /\
    occurs "<" html = false /\ occurs ">" html = false /\
    occurs dquote html = false /\ occurs "'" html = false.
Proof.
  split; [apply wf_initial|].
  apply (text_node_renders_safe_text toy_hash toy_repr_bytes).
  apply wf_initial.
Defined.

Example Text_renders_entities :
  toy.rendered (toy._Text "<b>Tom & Jerry</b>")
  = Ok "&lt;b&gt;Tom &amp; Jerry&lt;/b&gt;".
Proof. vm_compute. reflexivity. Qed.

(** X2 at ["a<b"] and ["a&lt;b"], which is the escaped form of the first. *)
Lemma text_nodes_equal_iff_same_text_witness :
  toy.wf initial /\
  exists a st1,
    toy._Text "a<b" initial = (Ok (VRef a), st1) /\
    (forall st2, toy.wf st2 -> extends st1 st2 ->
       exists b st3,
         toy._Text "a&lt;b" st2 = (Ok (VRef b), st3) /\
         (equal a b st3 = true <-> "a<b" = "a&lt;b") /\
         (equal b a st3 = true <-> "a<b" = "a&lt;b")) /\
    (exists b st2,
       toy._Text "a&lt;b" st1 = (Ok (VRef b), st2) /\
       (same_object a b = true <-> "a<b" = "a&lt;b")).
Proof.
  split; [apply wf_initial|].
  apply (text_nodes_equal_iff_same_text toy_hash toy_repr_bytes).
  apply wf_initial.
Defined.

(** X3 at ["a-->b"]. *)
Lemma comment_closes_only_at_its_end_witness :
  toy.wf initial /\
  exists a st' body,
    toy._Comment "a-->b" initial = (Ok (VRef a), st') /\
    toy.render (VRef a) st' = Ok ("<!-- " +:+ body +:+ ">") /\
    occurs ">" ("<!-- " +:+ body) = false.
Proof.
  split; [apply wf_initial|].
  apply (comment_closes_only_at_its_end toy_hash toy_repr_bytes).
  apply wf_initial.
Defined.

(** X7 from the state after [Div()]. *)
Lemma decorated_constructors_return_the_cached_object_witness :
  toy.wf toy.after_Div /\
  (exists a st1 st2,
      toy.construct "P" ["hidden"] [("id", Some "x")] toy.after_Div
      = (Ok (VRef a), st1) /\
      toy.construct "P" ["hidden"] [("id", Some "x")] st1
      = (Ok (VRef a), st2) /\
      heap st2 = heap st1) /\
  (exists a st1 st2,
      toy._Text "x" toy.after_Div = (Ok (VRef a), st1) /\
      toy._Text "x" st1 = (Ok (VRef a), st2) /\
      heap st2 = heap st1).
Proof.
  pose proof wf_after_Div as W.
  destruct (decorated_constructors_return_the_cached_object
              toy_hash toy_repr_bytes toy.after_Div W) as [H1 H2].
  split; [exact W|]. split.
  - apply (H1 "P" (mk_def "P" _CompositeTag "p" true false)); reflexivity.
  - apply (H2 toy._Text). now left.
Defined.

(** X8 at [Div()("a", "b")]. *)
Lemma repeated_call_returns_the_cached_node_witness :
  toy.wf toy.after_Div /\
  toy.covered (heap toy.after_Div) 0 [VStr "a"; VStr "b"] "ab" /\
  clashing (heap toy.after_Div) 0 = false /\
  exists r st1 st2,
    toy.call (VRef 0) [VStr "a"; VStr "b"] toy.after_Div
    = (Ok (VRef r), st1) /\
    toy.call (VRef 0) [VStr "a"; VStr "b"] st1 = (Ok (VRef r), st2) /\
    heap st2 = heap st1.
Proof.
  split; [apply wf_after_Div|]. split; [apply Div_is_covered|].
  split; [reflexivity|].
  eapply (repeated_call_returns_the_cached_node toy_hash toy_repr_bytes);
    [apply wf_after_Div | apply Div_is_covered | reflexivity].
Defined.

(** X9 at [DocType("html", "html")]. *)
Lemma DocType_renders_and_is_not_cached_witness :
  toy.wf initial /\
  exists a st1 b st2,
    toy.DocType ["html"; "html"] initial = (Ok (VRef a), st1) /\
    toy.DocType ["html"; "html"] st1 = (Ok (VRef b), st2) /\
    toy.wf st2 /\
    toy.render (VRef a) st1 = Ok "<!DOCTYPE html>" /\
    toy.render (VRef b) st2 = toy.render (VRef a) st1 /\
    same_object a b = false /\
    equal a b st2 = true.
Proof.
  split; [apply wf_initial|].
  apply (DocType_renders_and_is_not_cached toy_hash toy_repr_bytes
           ["html"; "html"] initial).
  apply wf_initial.
Defined.

(** X10 at ["a'b"]. *)
Lemma repr_of_text_nodes_witness :
  toy.wf initial /\
  (exists a st1,
      toy._Text "a'b" initial = (Ok (VRef a), st1) /\
      toy.py_repr 1 (VRef a) st1 = (Ok (toy_repr_str "a'b"), st1)) /\
  (exists a st1,
      toy._RawText "a'b" initial = (Ok (VRef a), st1) /\
      toy.py_repr 1 (VRef a) st1 = (Ok (toy_repr_bytes "a'b"), st1)) /\
  (exists a st1,
      toy._Comment "a'b" initial = (Ok (VRef a), st1) /\
      toy.py_repr 1 (VRef a) st1
      = (Ok ("_Comment(" +:+ toy_repr_str "a'b" +:+ ")"), st1)).
Proof.
  split; [apply wf_initial|].
  apply (repr_of_text_nodes toy_hash toy_repr_bytes toy_repr_str
           toy_reserved "a'b" 0 initial).
  apply wf_initial.
Defined.

(** X11 at [Br()]. *)
Lemma repr_of_a_tag_without_attributes_witness :
  toy.wf initial /\
  find_def "Br" = Some (mk_def "Br" _LeafTag "br" true false) /\
  cd_base (mk_def "Br" _LeafTag "br" true false) <> _SingleChildTag /\
  exists a st1,
    toy.construct "Br" [] [] initial = (Ok (VRef a), st1) /\
    toy.py_repr 1 (VRef a) st1 = (Ok "Br()", st1).
Proof.
  split; [apply wf_initial|]. split; [reflexivity|].
  split; [discriminate|].
  apply (repr_of_a_tag_without_attributes toy_hash toy_repr_bytes
           toy_repr_str toy_reserved "Br"
           (mk_def "Br" _LeafTag "br" true false) 0 initial);
    [apply wf_initial | reflexivity | discriminate].
Defined.

(** X12 at [Div()("a", b"\xff", "c")]. *)
Lemma undecodable_bytes_are_refused_witness :
  toy.wf toy.after_Div /\
  plain_tag _CompositeTag (heap toy.after_Div) 0 /\
  Forall (admissible (heap toy.after_Div)) [VStr "a"] /\
  valid_utf8 (String "255" EmptyString) = false /\
  Forall (fun v => hashable v = true) [VStr "c"] /\
  exists st',
    toy.call (VRef 0)
      ([VStr "a"] ++ VBytes (String "255" EmptyString) :: [VStr "c"])
      toy.after_Div
    = (Raise UnicodeDecodeError, st') /\
    toy.wf st' /\ heap st' !! 0 = heap toy.after_Div !! 0.
Proof.
  assert (A : Forall (admissible (heap toy.after_Div)) [VStr "a"])
    by (repeat constructor).
  assert (B : Forall (fun v => hashable v = true) [VStr "c"])
    by (repeat constructor).
  split; [apply wf_after_Div|]. split; [apply Div_is_plain|].
  split; [exact A|]. split; [reflexivity|]. split; [exact B|].
  apply (undecodable_bytes_are_refused toy_hash toy_repr_bytes 0
           [VStr "a"] [VStr "c"] (String "255" EmptyString) toy.after_Div
           wf_after_Div Div_is_plain A eq_refl B eq_refl).
Defined.

(** X13 and X14 at the examples of the docstrings. *)
Example style_of_the_docstring :
  style toy_repr_str
    [("color", SStr "red"); ("text-align", SStr "center");
     ("font-family", SSeq ["Segoe UI"; "Arial"])]
  = Ok "color:'red';text-align:'center';font-family:'Segoe UI','Arial';".
Proof. vm_compute. reflexivity. Qed.

Example css_of_the_docstring :
  css toy_repr_str
    [("p", [("color", SStr "red")]);
     (".center", [("text-align", SStr "center")])]
  = Ok "p{color:'red';}.center{text-align:'center';}".
Proof. vm_compute. reflexivity. Qed.

Lemma style_composes_witness :
  style toy_repr_str [("color", SStr "red")] = Ok "color:'red';" /\
  style toy_repr_str [("width", SSeq ["1"; "2"])] = Ok "width:'1','2';" /\
  style toy_repr_str ([("color", SStr "red")] ++ [("width", SSeq ["1"; "2"])])
  = Ok ("color:'red';" +:+ "width:'1','2';") /\
  style toy_repr_str [("width", SInt 3)] = Raise TypeError.
Proof.
  destruct (style_composes toy_repr_str [("color", SStr "red")]
              [("width", SSeq ["1"; "2"])]) as (H & _ & H3 & H4 & _).
  destruct (style_composes toy_repr_str [("width", SInt 3)] [])
    as (_ & _ & _ & _ & _ & H2).
  split; [apply (H3 "color" "red")|].
  split; [apply (H4 "width" ["1"; "2"])|].
  split.
  - apply H; [reflexivity | reflexivity | discriminate | discriminate].
  - apply H2. left. now exists 3%Z.
Defined.

Lemma css_composes_witness :
  css toy_repr_str
    ([("p", [("color", SStr "red")])] ++ [(".center", [])])
  = Ok ("p{color:'red';}" +:+ ".center{;}") /\
  css toy_repr_str [("p", [("width", SInt 3)])] = Raise TypeError.
Proof.
  destruct (css_composes toy_repr_str [("p", [("color", SStr "red")])]
              [(".center", [])]) as (H & _).
  destruct (css_composes toy_repr_str [("p", [("width", SInt 3)])] [])
    as (_ & _ & _ & _ & H2).
  split.
  - apply H; reflexivity.
  - apply H2. left. left. now exists 3%Z.
Defined.

(** X15 at [Div()("a", "b")]: the tag called is what it was. *)
Lemma no_operation_changes_a_node_witness :
  followed (heap toy.after_Div) (VRef 0) [VStr "a"; VStr "b"] /\
  exists o,
    heap toy.after_Div !! 0 = Some o /\
    heap (snd (toy.call (VRef 0) [VStr "a"; VStr "b"] toy.after_Div)) !! 0
    = Some o.
Proof.
  assert (F : followed (heap toy.after_Div) (VRef 0) [VStr "a"; VStr "b"]).
  { split; [repeat constructor|]. intros o c owner Ho Hc Hr.
    vm_compute in Ho. injection Ho as <-. injection Hc as <-.
    discriminate. }
  split; [exact F|].
  destruct (lookup_lt_is_Some_2 (heap toy.after_Div) 0) as [o Ho];
    [vm_compute; lia|].
  exists o. split; [exact Ho|].
  destruct (no_operation_changes_a_node toy_hash toy_repr_bytes toy_repr_str
              toy_reserved) as (_ & _ & _ & _ & _ & H & _).
  apply H; assumption.
Defined.

(** X16 at [Sub()] and [Sub()], two objects that are equal. *)
Lemma equal_tags_share_their_results_witness :
  toy.wf (two_Subs toy_hash toy_repr_bytes) /\
  plain_tag _CompositeTag (heap (two_Subs toy_hash toy_repr_bytes)) 0 /\
  clashing (heap (two_Subs toy_hash toy_repr_bytes)) 0 = false /\
  Forall (admissible (heap (two_Subs toy_hash toy_repr_bytes))) [VStr "x"] /\
  same_object 0 1 = false /\
  equal 0 1 (two_Subs toy_hash toy_repr_bytes) = true /\
  exists r st1 st2,
    toy.call (VRef 0) [VStr "x"] (two_Subs toy_hash toy_repr_bytes)
    = (Ok (VRef r), st1) /\
    toy.call (VRef 1) [VStr "x"] st1 = (Ok (VRef r), st2) /\
    heap st2 = heap st1.
Proof.
  assert (P : plain_tag _CompositeTag
                (heap (two_Subs toy_hash toy_repr_bytes)) 0)
    by (eexists _, _; splits; reflexivity).
  assert (A : Forall (admissible (heap (two_Subs toy_hash toy_repr_bytes)))
                [VStr "x"]) by (repeat constructor).
  split; [apply wf_two_Subs|]. split; [exact P|]. split; [reflexivity|].
  split; [exact A|]. split; [reflexivity|]. split; [reflexivity|].
  apply (equal_tags_share_their_results toy_hash toy_repr_bytes 0 1
           [VStr "x"] _ wf_two_Subs P eq_refl A eq_refl).
Defined.

Lemma after_Div_reachable : reachable toy_hash toy_repr_bytes toy.after_Div.
Proof. eapply reach_construct; [apply reach_initial | apply find_Div]. Qed.

(** X17 at the node that [Div()("a", "b")] returns. *)
Lemma every_node_renders_as_its_kind_prescribes_witness :
  reachable toy_hash toy_repr_bytes
    (snd (toy.call (VRef 0) [VStr "a"; VStr "b"] toy.after_Div)) /\
  exists o s,
    heap (snd (toy.call (VRef 0) [VStr "a"; VStr "b"] toy.after_Div)) !! 3
    = Some o /\
    o_html o = Some s /\ o_hash o = Some (toy_hash s).
Proof.
  assert (R : reachable toy_hash toy_repr_bytes
                (snd (toy.call (VRef 0) [VStr "a"; VStr "b"] toy.after_Div))).
  { eapply reach_call;
      [apply after_Div_reachable | apply Div_is_covered | reflexivity]. }
  split; [exact R|].
  destruct (lookup_lt_is_Some_2
              (heap (snd (toy.call (VRef 0) [VStr "a"; VStr "b"]
                            toy.after_Div))) 3) as [o Ho];
    [vm_compute; lia|].
  destruct (every_node_renders_as_its_kind_prescribes toy_hash toy_repr_bytes
              _ 3 o R Ho) as (s & Hs & Hh & _).
  exists o, s. split; [exact Ho|]. split; [exact Hs | exact Hh].
Defined.

Example node_of_a_call :
  (fun o => (o_html o, o_children o)) <$>
    heap (snd (toy.call (VRef 0) [VStr "a"; VStr "b"] toy.after_Div)) !! 3
  = Some (Some "<div>ab</div>", Some [VRef 1; VRef 2]).
Proof. vm_compute. reflexivity. Qed.

(** X18 at [Div()("a", "b")]; [Div()("ab")] renders the same text and is
    not equal to it. *)
Lemma a_node_made_by_a_call_equals_only_itself_witness :
  toy.wf toy.after_Div /\
  toy.covered (heap toy.after_Div) 0 [VStr "a"; VStr "b"] "ab" /\
  clashing (heap toy.after_Div) 0 = false /\
  exists r st',
    toy.call (VRef 0) [VStr "a"; VStr "b"] toy.after_Div
    = (Ok (VRef r), st') /\
    forall b, b < length (heap st') ->
      (equal r b st' = true <-> b = r) /\ (equal b r st' = true <-> b = r).
Proof.
  split; [apply wf_after_Div|]. split; [apply Div_is_covered|].
  split; [reflexivity|].
  eapply (a_node_made_by_a_call_equals_only_itself toy_hash
            toy_repr_bytes);
    [apply wf_after_Div | apply Div_is_covered | reflexivity].
Defined.

Example same_text_from_two_calls_is_not_equal :
  fst ((d <- toy.construct "Div" [] [] ;;
        x <- toy.call d [VStr "a"; VStr "b"] ;;
        y <- toy.call d [VStr "ab"] ;;
        sx <- py_str toy_repr_bytes x ;;
        sy <- py_str toy_repr_bytes y ;;
        h <- (fun st => (Ok (heap st), st)) ;;
        ret (sx, sy, py_eq h x y)) initial)
  = Ok ("<div>ab</div>", "<div>ab</div>", false).
Proof. vm_compute. reflexivity. Qed.
